(** * YNAB converter: a shallow embedding of [YNAB.py]

    The script reads bank exports with pandas, maps their columns to the
    YNAB layout (Date, Payee, Memo, Inflow, Outflow), merges the files and
    shows a few key figures.  This development models

    - the table values pandas hands to the script (cells, Series, DataFrame),
    - the functions of the script, one definition per function, and
    - the module-level block that loops over the uploaded files and merges them,

    and proves properties of them.

    Conventions.  Numbers (int64 and float64 values) are exact rationals;
    [round2] is Python's [round(x, 2)] on them (nearest hundredth, ties to
    even).  The dtype of a column is read off its values: a column of whole
    numbers in the int64 range, without missing values, is an int64 column,
    and a sum over it wraps around at 64 bits as NumPy's does; any other
    column of numbers is summed exactly, so that the rounding of float64
    arithmetic is left out.  pandas can also hold whole numbers in a float64
    or object column, whose sum does not wrap, and whole numbers from 2^63
    on in a uint64 column, whose sum wraps at 2^64; the properties about
    sums therefore assume that a column of whole numbers and its exact sum
    stay in the int64 range ([sum_fits]), where all of these agree.
    Streamlit output ([st.write], [st.warning], [st.error]) is a log that
    every computation carries along; a Python exception ends the
    computation and keeps the log written so far. *)

From Stdlib Require Import String Ascii ZArith QArith Qround Bool Arith Lia List.
From Stdlib Require Import Permutation Sorted Lqa.
Import ListNotations.

Local Open Scope string_scope.
Local Open Scope list_scope.

(* ================================================================== *)
(** * Values *)

(** A scalar of a table. *)
Inductive cell : Type :=
| Str (s : string)   (* text *)
| Num (q : Q)        (* a number *)
| NaN                (* missing value *)
| Time (t : Z)       (* a timestamp, in ticks since the epoch *)
| NaT.               (* missing timestamp *)

(** Python exceptions that the modelled code can meet. *)
Inductive exn : Type :=
| TypeError
| KeyError (key : string)
| Exception (msg : string).

(** [str(e)] *)
Definition str_exn (e : exn) : string :=
  match e with
  | TypeError => "TypeError"
  | KeyError k => k
  | Exception m => m
  end.

(** What the script prints through Streamlit. *)
Inductive st_msg : Type :=
| st_write (s : string)
| st_warning (s : string)
| st_error (s : string).

(** A computation: the messages it printed, and an exception or a value. *)
Definition M (A : Type) : Type := (list st_msg * (exn + A))%type.

Definition ret {A} (a : A) : M A := ([], inr a).

Definition tell (m : st_msg) : M unit := ([m], inr tt).

Definition bind {A B} (c : M A) (k : A -> M B) : M B :=
  match c with
  | (l, inl e) => (l, inl e)
  | (l, inr a) => let (l', r) := k a in (l ++ l', r)
  end.

(** A pure step that may raise. *)
Definition lift {A} (r : exn + A) : M A := ([], r).

(** [try: c except Exception as e: h e] *)
Definition try_except {A} (c : M A) (h : exn -> M A) : M A :=
  match c with
  | (l, inl e) => let (l', r) := h e in (l ++ l', r)
  | (l, inr a) => (l, inr a)
  end.

Notation "x <- c1 ;; c2" := (bind c1 (fun x => c2))
  (at level 61, c1 at next level, right associativity).
Notation "c1 ;;; c2" := (bind c1 (fun _ => c2))
  (at level 61, right associativity).

Definition log_of {A} (c : M A) : list st_msg := fst c.
Definition outcome {A} (c : M A) : exn + A := snd c.

(** Exceptions only, for the pure helpers. *)
Definition ebind {A B} (r : exn + A) (k : A -> exn + B) : exn + B :=
  match r with
  | inl e => inl e
  | inr a => k a
  end.

Fixpoint emap {A B} (f : A -> exn + B) (l : list A) : exn + list B :=
  match l with
  | [] => inr []
  | x :: xs =>
      ebind (f x) (fun y => ebind (emap f xs) (fun ys => inr (y :: ys)))
  end.

(* ================================================================== *)
(** * Numbers *)

Definition Qltb (a b : Q) : bool := negb (Qle_bool b a).

(** Nearest integer, ties to the even one. *)
Definition round_half_even (q : Q) : Z :=
  let a := Qnum q in
  let b := Zpos (Qden q) in
  let f := (a / b)%Z in
  let r := (a mod b)%Z in
  match (2 * r ?= b)%Z with
  | Lt => f
  | Gt => (f + 1)%Z
  | Eq => if Z.even f then f else (f + 1)%Z
  end.

(** [round(x, 2)] *)
Definition round2 (q : Q) : Q := Qmake (round_half_even (q * 100)) 100.

(** [x > 0] for a Python scalar [x]: a missing value compares false, text
    and timestamps cannot be compared with an int. *)
Definition gt0 (x : cell) : exn + bool :=
  match x with
  | Num q => inr (Qltb 0 q)
  | NaN => inr false
  | Str _ | Time _ | NaT => inl TypeError
  end.

(** [x < 0] *)
Definition lt0 (x : cell) : exn + bool :=
  match x with
  | Num q => inr (Qltb q 0)
  | NaN => inr false
  | Str _ | Time _ | NaT => inl TypeError
  end.

(** [round(x, 2)] and [round(-x, 2)] on a scalar. *)
Definition py_round2 (x : cell) : exn + cell :=
  match x with
  | Num q => inr (Num (round2 q))
  | NaN => inr NaN
  | Str _ | Time _ | NaT => inl TypeError
  end.

Definition py_neg (x : cell) : exn + cell :=
  match x with
  | Num q => inr (Num (- q))
  | NaN => inr NaN
  | Str _ | Time _ | NaT => inl TypeError
  end.

(* ================================================================== *)
(** * Series and DataFrame *)

(** A Series is its values; the index is the default range index. *)
Definition Series : Type := list cell.

(** A DataFrame: the length of its index and its columns in order. *)
Record DataFrame : Type := mkDF {
  index_len : nat;
  columns : list (string * Series)
}.

(** [pd.DataFrame()] *)
Definition empty_frame : DataFrame := mkDF 0 [].

Fixpoint lookup {V} (k : string) (d : list (string * V)) : option V :=
  match d with
  | [] => None
  | (k', v) :: rest => if k =? k' then Some v else lookup k rest
  end.

(** Assignment in an insertion-ordered dict: replace in place, or append. *)
Fixpoint assign {V} (k : string) (v : V) (d : list (string * V))
  : list (string * V) :=
  match d with
  | [] => [(k, v)]
  | (k', v') :: rest =>
      if k =? k' then (k', v) :: rest else (k', v') :: assign k v rest
  end.

Fixpoint remove_key {V} (k : string) (d : list (string * V))
  : list (string * V) :=
  match d with
  | [] => []
  | (k', v') :: rest =>
      if k =? k' then remove_key k rest else (k', v') :: remove_key k rest
  end.

(** [name in df.columns] *)
Definition has_column (df : DataFrame) (name : string) : bool :=
  match lookup name (columns df) with Some _ => true | None => false end.

(** [df[name]] *)
Definition getitem (df : DataFrame) (name : string) : exn + Series :=
  match lookup name (columns df) with
  | Some s => inr s
  | None => inl (KeyError name)
  end.

(** [df[name] = scalar]: the scalar is repeated along the index. *)
Definition setitem_scalar (df : DataFrame) (name : string) (c : cell)
  : DataFrame :=
  mkDF (index_len df) (assign name (repeat c (index_len df)) (columns df)).

(** A Series aligned to a range index of length [n]. *)
Definition align (n : nat) (s : Series) : Series :=
  firstn n s ++ repeat NaN (n - length s).

(** [df[name] = series].  A frame whose index is still empty takes the index
    of a non-empty Series, and the columns it already has are filled with
    missing values; otherwise the Series is aligned to the frame's index. *)
Definition setitem_series (df : DataFrame) (name : string) (s : Series)
  : DataFrame :=
  if (index_len df =? 0)%nat && negb (length s =? 0)%nat then
    mkDF (length s)
         (assign name s
            (map (fun kv => (fst kv, repeat NaN (length s))) (columns df)))
  else
    mkDF (index_len df) (assign name (align (index_len df) s) (columns df)).

(** [df.drop(columns=[name])] *)
Definition drop_column (df : DataFrame) (name : string) : exn + DataFrame :=
  if has_column df name
  then inr (mkDF (index_len df) (remove_key name (columns df)))
  else inl (KeyError name).

(** [series.apply(f)] *)
Definition Series_apply (f : cell -> exn + cell) (s : Series) : exn + Series :=
  emap f s.

(** [len(df)] *)
Definition len (df : DataFrame) : nat := index_len df.

(** Every column is as long as the index. *)
Definition well_formed (df : DataFrame) : Prop :=
  Forall (fun kv => length (snd kv) = index_len df) (columns df).

(* ================================================================== *)
(** * The column mappings *)

Definition mapping : Type := list (string * option string).

Definition COLUMN_MAPPINGS : list (string * mapping) :=
  [ ("Swedbank (csv)",
      [ ("Date", Some "Transaktionsdag");
        ("Payee", Some "Beskrivning");
        ("Memo", None);
        ("Amount", Some "Belopp") ]);
    ("Coop Mastercard (xls & xlsx)",
      [ ("Date", Some "Datum");
        ("Payee", Some "Detaljer");
        ("Memo", None);
        ("Amount", Some "Fakturabelopp") ]) ].

(* ================================================================== *)
(** * [apply_mappings] *)

(** [if source_col:] *)
Definition truthy (source_col : option string) : bool :=
  match source_col with
  | Some s => negb (s =? "")
  | None => false
  end.

(** The loop over [mappings.items()]. *)
Fixpoint map_columns (df : DataFrame) (items : mapping) (ynab_df : DataFrame)
  : M DataFrame :=
  match items with
  | [] => ret ynab_df
  | (ynab_col, source_col) :: rest =>
      match source_col with
      | Some src =>
          if truthy source_col then
            match lookup src (columns df) with
            | Some s =>
                map_columns df rest (setitem_series ynab_df ynab_col s)
            | None =>
                tell (st_warning
                        ("Column " ++ src ++ " not found in the data!")%string) ;;;
                map_columns df rest (setitem_scalar ynab_df ynab_col (Str ""))
            end
          else map_columns df rest (setitem_scalar ynab_df ynab_col (Str ""))
      | None => map_columns df rest (setitem_scalar ynab_df ynab_col (Str ""))
      end
  end.

(** [lambda x: round(x, 2) if x > 0 else 0] *)
Definition inflow_lambda (x : cell) : exn + cell :=
  ebind (gt0 x) (fun b => if b then py_round2 x else inr (Num 0)).

(** [lambda x: round(-x, 2) if x < 0 else 0] *)
Definition outflow_lambda (x : cell) : exn + cell :=
  ebind (lt0 x) (fun b =>
    if b then ebind (py_neg x) py_round2 else inr (Num 0)).

Definition apply_mappings (df : DataFrame) (mappings : mapping) : M DataFrame :=
  ynab_df <- map_columns df mappings empty_frame ;;
  amount <- lift (getitem ynab_df "Amount") ;;
  inflow <- lift (Series_apply inflow_lambda amount) ;;
  let ynab_df := setitem_series ynab_df "Inflow" inflow in
  amount <- lift (getitem ynab_df "Amount") ;;
  outflow <- lift (Series_apply outflow_lambda amount) ;;
  let ynab_df := setitem_series ynab_df "Outflow" outflow in
  lift (drop_column ynab_df "Amount").

(* ================================================================== *)
(** * Pandas operations used by the key figures and the merge *)

(** [pd.isna] *)
Definition isna (c : cell) : bool :=
  match c with
  | NaN | NaT => true
  | _ => false
  end.

Definition is_datetime (c : cell) : bool :=
  match c with
  | Time _ | NaT => true
  | _ => false
  end.

(** Python's [+] on the scalars that a sum can meet. *)
Definition py_add (a b : cell) : exn + cell :=
  match a, b with
  | Num x, Num y => inr (Num (x + y))
  | Str s, Str t => inr (Str (s ++ t)%string)
  | _, _ => inl TypeError
  end.

Definition fillna0 (c : cell) : cell := if isna c then Num 0 else c.

(** The int64 value that an integer wraps around to. *)
Definition wrap64 (z : Z) : Z := ((z + 2 ^ 63) mod 2 ^ 64 - 2 ^ 63)%Z.

(** A whole number. *)
Definition is_whole (q : Q) : bool := Qeq_bool q (inject_Z (Qfloor q)).

(** A whole number in the int64 range. *)
Definition is_int64_value (q : Q) : bool :=
  is_whole q && (- 2 ^ 63 <=? Qfloor q)%Z && (Qfloor q <? 2 ^ 63)%Z.

(** The dtype of a column, read off its values: int64 when the column holds
    whole numbers in the int64 range and nothing else, which is the dtype
    that [read_csv], [read_excel] and [Series.apply] infer for integers; a
    fraction or a missing value makes the column float64. *)
Definition int64 (s : Series) : bool :=
  forallb (fun c => match c with
                    | Num q => is_int64_value q
                    | _ => false
                    end) s.

(** [+] inside the sum of a column: the sum of two int64 values wraps
    around; otherwise it is Python's [+]. *)
Definition np_add (as_int64 : bool) (a b : cell) : exn + cell :=
  match a, b with
  | Num x, Num y =>
      if as_int64
      then inr (Num (inject_Z (wrap64 (Qfloor x + Qfloor y))))
      else inr (Num (x + y))
  | _, _ => py_add a b
  end.

(** The sum of the values of a column, accumulated in int64 or not: missing
    values count as 0, the empty sum is 0, numbers are added, text is
    concatenated, and timestamps cannot be summed. *)
Definition nansum (as_int64 : bool) (s : Series) : exn + cell :=
  if existsb is_datetime s then inl TypeError
  else
    match map fillna0 s with
    | [] => inr (Num 0)
    | c :: cs =>
        fold_left (fun acc x => ebind acc (fun a => np_add as_int64 a x))
                  cs (inr c)
    end.

(** [series.sum()]: an int64 column is summed in int64. *)
Definition Series_sum (s : Series) : exn + cell := nansum (int64 s) s.

(** [series.mean()]: the sum of the values that are not missing, taken in
    float64 whatever the dtype, over their number. *)
Definition Series_mean (s : Series) : exn + cell :=
  let vals := filter (fun c => negb (isna c)) s in
  match vals with
  | [] => if existsb is_datetime s then inr NaT else inr NaN
  | _ :: _ =>
      ebind (nansum false vals) (fun total =>
        match total with
        | Num q => inr (Num (q / inject_Z (Z.of_nat (length vals))))
        | _ => inl TypeError
        end)
  end.

(** [df.take(indexer)]: the rows at the given positions, in that order. *)
Definition take_rows (indexer : list nat) (df : DataFrame) : DataFrame :=
  mkDF (length indexer)
       (map (fun kv => (fst kv, map (fun i => nth i (snd kv) NaN) indexer))
            (columns df)).

(** Positions at which a boolean mask is true. *)
Fixpoint nonzero_from (i : nat) (mask : list bool) : list nat :=
  match mask with
  | [] => []
  | b :: rest =>
      if b then i :: nonzero_from (S i) rest else nonzero_from (S i) rest
  end.

Definition nonzero (mask : list bool) : list nat := nonzero_from 0 mask.

(** [df[mask]] *)
Definition boolean_index (df : DataFrame) (mask : list bool) : DataFrame :=
  take_rows (nonzero mask) df.

(** [df[df[name] > 0]] *)
Definition rows_gt0 (df : DataFrame) (name : string) : exn + DataFrame :=
  ebind (getitem df name) (fun s =>
  ebind (emap gt0 s) (fun mask =>
  inr (boolean_index df mask))).

(** [df.empty]: some axis has length 0. *)
Definition DataFrame_empty (df : DataFrame) : bool :=
  (index_len df =? 0)%nat || (length (columns df) =? 0)%nat.

(** Equality of scalars as hashing and grouping see it. *)
Definition cell_eqb (a b : cell) : bool :=
  match a, b with
  | Str s, Str t => (s =? t)%string
  | Num x, Num y => Qeq_bool x y
  | NaN, NaN => true
  | Time s, Time t => (s =? t)%Z
  | NaT, NaT => true
  | _, _ => false
  end.

(** Order of group keys: numbers before text, each kind in its own order. *)
Definition cell_leb (a b : cell) : bool :=
  match a, b with
  | Num x, Num y => Qle_bool x y
  | Num _, _ => true
  | Str _, Num _ => false
  | Str s, Str t => String.leb s t
  | Str _, _ => true
  | Time _, (Num _ | Str _) => false
  | Time s, Time t => (s <=? t)%Z
  | Time _, _ => true
  | NaN, NaT => true
  | NaN, NaN => true
  | NaN, _ => false
  | NaT, NaT => true
  | NaT, _ => false
  end.

(** The distinct values in order of first appearance. *)
Fixpoint unique {A} (eqb : A -> A -> bool) (l : list A) : list A :=
  match l with
  | [] => []
  | x :: xs => x :: filter (fun y => negb (eqb x y)) (unique eqb xs)
  end.

Fixpoint insert_sorted (k : cell) (l : list cell) : list cell :=
  match l with
  | [] => [k]
  | x :: xs => if cell_leb k x then k :: l else x :: insert_sorted k xs
  end.

(** Distinct group keys in ascending order. *)
Definition sorted_keys (l : list cell) : list cell :=
  fold_right insert_sorted [] l.

(** [pd.concat(frames, ignore_index=True)]: columns in order of first
    appearance; a frame without a column contributes missing values. *)
Definition pd_concat (frames : list DataFrame) : DataFrame :=
  let names := unique String.eqb
                 (flat_map (fun f => map fst (columns f)) frames) in
  mkDF (list_sum (map index_len frames))
       (map (fun nm =>
               (nm, flat_map (fun f =>
                       match lookup nm (columns f) with
                       | Some s => s
                       | None => repeat NaN (index_len f)
                       end) frames))
            names).

(** A timestamp column from the result of [pd.to_datetime]. *)
Definition datetime_cell (d : option Z) : cell :=
  match d with
  | Some t => Time t
  | None => NaT
  end.

(** The value a sort compares, [None] for a missing one.  The script only
    sorts timestamps, counts and sums; text is not a sort key here. *)
Definition sort_key (c : cell) : exn + option Q :=
  match c with
  | Num q => inr (Some q)
  | Time t => inr (Some (inject_Z t))
  | NaN | NaT => inr None
  | Str _ => inl TypeError
  end.

Fixpoint somes {A} (l : list (option A)) : list A :=
  match l with
  | [] => []
  | Some a :: rest => a :: somes rest
  | None :: rest => somes rest
  end.

Definition is_some {A} (o : option A) : bool :=
  match o with Some _ => true | None => false end.

(* ================================================================== *)
(** * The script, over the library routines it calls

    [read_csv] and [read_excel] stand for
    [pd.read_csv(file, encoding="windows-1252", skiprows=1)] and
    [pd.read_excel(file, skiprows=2)]; [to_datetime] for
    [pd.to_datetime(series, errors='coerce')], which yields one timestamp or
    one missing timestamp per value; [argsort] for NumPy's
    [values.argsort(kind='quicksort')], the positions that put [values] in
    ascending order. *)

Record UploadedFile : Type := mkFile {
  name : string;
  content : list Byte.byte
}.

Section Script.

Variable read_csv : UploadedFile -> exn + DataFrame.
Variable read_excel : UploadedFile -> exn + DataFrame.
Variable to_datetime : Series -> list (option Z).
Variable argsort : list Q -> list nat.

(** pandas' [nargsort(items, kind='quicksort', ascending, na_position='last')]:
    the present values are sorted by [argsort], on the reversed array when
    descending, and the missing ones follow in their original order. *)
Definition nargsort (items : list (option Q)) (ascending : bool) : list nat :=
  let non_nans := somes items in
  let non_nan_idx := nonzero (map is_some items) in
  let nan_idx := nonzero (map (fun o => negb (is_some o)) items) in
  let non_nans := if ascending then non_nans else rev non_nans in
  let non_nan_idx := if ascending then non_nan_idx else rev non_nan_idx in
  let indexer := map (fun i => nth i non_nan_idx 0%nat) (argsort non_nans) in
  let indexer := if ascending then indexer else rev indexer in
  indexer ++ nan_idx.

(** [df.sort_values(by=by, ascending=ascending)] *)
Definition sort_values (df : DataFrame) (by_ : string) (ascending : bool)
  : exn + DataFrame :=
  ebind (getitem df by_) (fun k =>
  ebind (emap sort_key k) (fun items =>
  inr (take_rows (nargsort items ascending) df))).

(** [series.sort_values(ascending=ascending)] for a Series given as the list
    of its (label, value) entries. *)
Definition Series_sort_values {L} (dflt : L * cell) (s : list (L * cell))
  (ascending : bool) : exn + list (L * cell) :=
  ebind (emap sort_key (map snd s)) (fun items =>
  inr (map (fun i => nth i s dflt) (nargsort items ascending))).

(** [series.value_counts()]: missing values are dropped, the distinct values
    are counted in order of first appearance, and the counts are sorted in
    descending order. *)
Definition value_counts (s : Series) : exn + list (cell * cell) :=
  let vals := filter (fun c => negb (isna c)) s in
  let keys := unique cell_eqb vals in
  let counts :=
    map (fun k => (k, Num (inject_Z (Z.of_nat
                     (length (filter (cell_eqb k) vals)))))) keys in
  Series_sort_values (NaN, NaN) counts false.

(** [df.groupby(by)[col].sum()]: one entry per distinct key that is not
    missing, keys ascending; the values of a group are summed in the dtype
    of the column. *)
Definition groupby_sum (df : DataFrame) (by_ col : string)
  : exn + list (cell * cell) :=
  ebind (getitem df by_) (fun keys =>
  ebind (getitem df col) (fun vals =>
  let groups := sorted_keys (unique cell_eqb
                               (filter (fun c => negb (isna c)) keys)) in
  emap (fun k =>
          ebind (nansum (int64 vals)
                   (map snd (filter (fun kv => cell_eqb k (fst kv))
                                    (combine keys vals))))
                (fun total => inr (k, total)))
       groups)).

(** [series.head(n)] *)
Definition head {A} (n : nat) (s : list A) : list A := firstn n s.

(** ** The functions of the script *)

Definition parse_transaction_file (file : UploadedFile) (file_type : string)
  : M (option DataFrame) :=
  try_except
    (if (file_type =? "Swedbank (csv)")%string then
       df <- lift (read_csv file) ;; ret (Some df)
     else if (file_type =? "Coop Mastercard (xls & xlsx)")%string then
       df <- lift (read_excel file) ;; ret (Some df)
     else
       tell (st_error "Unsupported file type!") ;;; ret None)
    (fun e =>
       tell (st_error ("Error reading file " ++ name file ++ ": "
                         ++ str_exn e)%string) ;;;
       ret None).

Definition calculate_kpis (df : DataFrame) : exn + (cell * cell) :=
  ebind (getitem df "Inflow") (fun inflow =>
  ebind (Series_sum inflow) (fun total_inflow =>
  ebind (getitem df "Outflow") (fun outflow =>
  ebind (Series_sum outflow) (fun total_outflow =>
  inr (total_inflow, total_outflow))))).

Definition top_payees_count (df : DataFrame) : exn + list (cell * cell) :=
  ebind (rows_gt0 df "Outflow") (fun df_outflows =>
  ebind (getitem df_outflows "Payee") (fun payee =>
  ebind (value_counts payee) (fun counts =>
  inr (head 5 counts)))).

Definition top_payees_amount (df : DataFrame) : exn + list (cell * cell) :=
  ebind (rows_gt0 df "Outflow") (fun df_outflows =>
  ebind (groupby_sum df_outflows "Payee" "Outflow") (fun sums =>
  ebind (Series_sort_values (NaN, NaN) sums false) (fun payee_totals =>
  ebind (emap (fun kv => ebind (py_round2 (snd kv))
                               (fun r => inr (fst kv, r)))
              payee_totals) (fun payee_totals =>
  inr (head 5 payee_totals))))).

Definition average_outflow (df : DataFrame) : exn + cell :=
  ebind (rows_gt0 df "Outflow") (fun outflows =>
  if negb (DataFrame_empty outflows)
  then ebind (getitem outflows "Outflow") Series_mean
  else inr (Num 0)).

(** ** The module-level block *)

(** The loop [for file in uploaded_files]. *)
Fixpoint batch_loop (uploaded_files : list UploadedFile) (file_type : string)
  (all_transactions : list DataFrame) : M (list DataFrame) :=
  match uploaded_files with
  | [] => ret all_transactions
  | file :: rest =>
      tell (st_write ("Processing " ++ name file ++ "...")%string) ;;;
      transactions <- parse_transaction_file file file_type ;;
      match transactions with
      | Some transactions =>
          mappings <- lift (match lookup file_type COLUMN_MAPPINGS with
                            | Some m => inr m
                            | None => inl (KeyError file_type)
                            end) ;;
          mapped_transactions <- apply_mappings transactions mappings ;;
          batch_loop rest file_type (all_transactions ++ [mapped_transactions])
      | None => batch_loop rest file_type all_transactions
      end
  end.

(** Concatenate, convert the dates, sort by date; the new index 1, 2, ... is
    the position of a row. *)
Definition merge (all_transactions : list DataFrame) : exn + DataFrame :=
  let combined_df := pd_concat all_transactions in
  ebind (getitem combined_df "Date") (fun date =>
  let combined_df :=
    setitem_series combined_df "Date" (map datetime_cell (to_datetime date)) in
  sort_values combined_df "Date" true).

(** The script up to [combined_df]: [None] when nothing was uploaded or no
    file could be read. *)
Definition process (uploaded_files : list UploadedFile) (file_type : string)
  : M (option DataFrame) :=
  match uploaded_files with
  | [] => ret None
  | _ :: _ =>
      all_transactions <- batch_loop uploaded_files file_type [] ;;
      match all_transactions with
      | [] => ret None
      | _ :: _ => combined_df <- lift (merge all_transactions) ;;
                  ret (Some combined_df)
      end
  end.

End Script.

(* ================================================================== *)
(** * NumPy's default argsort

    [argsort(kind='quicksort')] after NumPy's scalar [aquicksort], which
    sorts datetime64 keys: the array of positions is sorted in place by
    median-of-three quicksort; a run of at most 16 positions is finished by
    insertion sort, and a run reached beyond the depth limit by heap sort.
    The keys are read through the positions, [v[tosort[p]]].  For int64
    and float64 keys a build of NumPy may use a vectorized sort instead,
    which can leave equal keys in another order; the properties below hold
    for every argsort that sorts, and this one serves as an instance. *)

Module NumPy.

Section Sort.

Variable v : list Q.

Definition less (x y : Q) : bool := Qltb x y.

Definition SMALL_QUICKSORT : nat := 15.

(** [v[a[p]]] *)
Definition key (a : list nat) (p : nat) : Q := nth (nth p a 0%nat) v 0.

(** [a[p] = x] *)
Definition store (a : list nat) (p : nat) (x : nat) : list nat :=
  if (p <? length a)%nat then firstn p a ++ x :: skipn (S p) a else a.

(** [INTP_SWAP(a[p], a[q])] *)
Definition swap (a : list nat) (p q : nat) : list nat :=
  store (store a p (nth q a 0%nat)) q (nth p a 0%nat).

(** [while (pj > pl && less(vp, v[*pk])) { *pj-- = *pk--; }] *)
Fixpoint shift (fuel : nat) (a : list nat) (pl pj : nat) (vp : Q)
  : list nat * nat :=
  match fuel with
  | O => (a, pj)
  | S fuel' =>
      if (pl <? pj)%nat && less vp (key a (pj - 1))
      then shift fuel' (store a pj (nth (pj - 1) a 0%nat)) pl (pj - 1) vp
      else (a, pj)
  end.

(** [for (pi = pl + 1; pi <= pr; ++pi)], with [todo] iterations left. *)
Fixpoint insertion_loop (todo : nat) (a : list nat) (pl pi : nat) : list nat :=
  match todo with
  | O => a
  | S todo' =>
      let vi := nth pi a 0%nat in
      let vp := nth vi v 0 in
      let (a', pj) := shift pi a pl pi vp in
      insertion_loop todo' (store a' pj vi) pl (S pi)
  end.

Definition insertion_sort (a : list nat) (pl pr : nat) : list nat :=
  insertion_loop (pr - pl) a pl (S pl).

(** [do { ++pi; } while (less(v[*pi], vp));] *)
Fixpoint scan_up (fuel : nat) (a : list nat) (vp : Q) (pi : nat) : nat :=
  match fuel with
  | O => S pi
  | S fuel' =>
      if less (key a (S pi)) vp then scan_up fuel' a vp (S pi) else S pi
  end.

(** [do { --pj; } while (less(vp, v[*pj]));] *)
Fixpoint scan_down (fuel : nat) (a : list nat) (vp : Q) (pj : nat) : nat :=
  match fuel with
  | O => pj - 1
  | S fuel' =>
      if less vp (key a (pj - 1)) then scan_down fuel' a vp (pj - 1)
      else pj - 1
  end.

(** The [for (;;)] loop of the partition. *)
Fixpoint partition_loop (fuel : nat) (a : list nat) (vp : Q) (pi pj : nat)
  : list nat * nat :=
  match fuel with
  | O => (a, pi)
  | S fuel' =>
      let pi := scan_up (length a) a vp pi in
      let pj := scan_down (length a) a vp pj in
      if (pj <=? pi)%nat then (a, pi)
      else partition_loop fuel' (swap a pi pj) vp pi pj
  end.

(** One partition of [a[pl..pr]]; returns the final place of the pivot. *)
Definition partition (a : list nat) (pl pr : nat) : list nat * nat :=
  let pm := (pl + Nat.div2 (pr - pl))%nat in
  let a := if less (key a pm) (key a pl) then swap a pm pl else a in
  let a := if less (key a pr) (key a pm) then swap a pr pm else a in
  let a := if less (key a pm) (key a pl) then swap a pm pl else a in
  let vp := key a pm in
  let pj := (pr - 1)%nat in
  let a := swap a pm pj in
  let (a, pi) := partition_loop (length a) a vp pl pj in
  (swap a pi (pr - 1), pi).

(** Sift [tmp] down from slot [i] of the heap [a[pl .. pl+n-1]], whose slots
    are numbered from 1. *)
Fixpoint sift (fuel : nat) (a : list nat) (pl n tmp i j : nat) : list nat :=
  match fuel with
  | O => store a (pl + i - 1) tmp
  | S fuel' =>
      if (j <=? n)%nat then
        let j := if (j <? n)%nat
                    && less (key a (pl + j - 1)) (key a (pl + (j + 1) - 1))
                 then (j + 1)%nat else j in
        if less (nth tmp v 0) (key a (pl + j - 1))
        then sift fuel' (store a (pl + i - 1) (nth (pl + j - 1) a 0%nat))
                  pl n tmp j (j + j)
        else store a (pl + i - 1) tmp
      else store a (pl + i - 1) tmp
  end.

(** [for (l = n >> 1; l > 0; --l)] *)
Fixpoint heapify (l : nat) (a : list nat) (pl n : nat) : list nat :=
  match l with
  | O => a
  | S l' =>
      let tmp := nth (pl + l - 1) a 0%nat in
      heapify l' (sift n a pl n tmp l (l + l)) pl n
  end.

(** [for (; n > 1;)] *)
Fixpoint extract (n : nat) (a : list nat) (pl : nat) : list nat :=
  match n with
  | O => a
  | S n' =>
      if (1 <? n)%nat then
        let tmp := nth (pl + n - 1) a 0%nat in
        let a := store a (pl + n - 1) (nth pl a 0%nat) in
        extract n' (sift n a pl n' tmp 1 2) pl
      else a
  end.

(** [aheapsort] on [a[pl .. pl+n-1]] *)
Definition aheapsort (a : list nat) (pl n : nat) : list nat :=
  extract n (heapify (Nat.div2 n) a pl n) pl.

(** The main loop on the run [a[pl..pr]] with depth budget [cdepth].  The
    larger part of a partition waits on the stack and is heap-sorted when
    it is taken up with the budget used up; the smaller part is partitioned
    on. *)
Fixpoint quick (fuel : nat) (cdepth : Z) (a : list nat) (pl pr : nat)
  : list nat :=
  match fuel with
  | O => a
  | S fuel' =>
      if (SMALL_QUICKSORT <? pr - pl)%nat then
        let (a, pi) := partition a pl pr in
        let cdepth := (cdepth - 1)%Z in
        let popped a l r :=
          if (cdepth <? 0)%Z then aheapsort a l (r - l + 1)%nat
          else quick fuel' cdepth a l r in
        if (pi - pl <? pr - pi)%nat
        then popped (quick fuel' cdepth a pl (pi - 1)%nat) (S pi) pr
        else popped (quick fuel' cdepth a (S pi) pr) pl (pi - 1)%nat
      else insertion_sort a pl pr
  end.

Definition aquicksort (tosort : list nat) (num : nat) : list nat :=
  match num with
  | O => tosort
  | S _ => quick num (2 * Z.log2 (Z.of_nat num)) tosort 0 (num - 1)
  end.

End Sort.

(** [values.argsort(kind='quicksort')] *)
Definition argsort (values : list Q) : list nat :=
  aquicksort values (seq 0 (length values)) (length values).

End NumPy.

(* ================================================================== *)
(** * Notions used to state the properties *)

(** The column [name] of a frame, empty when there is none. *)
Definition column (df : DataFrame) (name : string) : Series :=
  match lookup name (columns df) with
  | Some s => s
  | None => []
  end.

(** The cell of column [name] at position [i]. *)
Definition cell_at (df : DataFrame) (name : string) (i : nat) : option cell :=
  match lookup name (columns df) with
  | Some s => nth_error s i
  | None => None
  end.

(** The sum of a list of numbers. *)
Definition Qsum (l : list Q) : Q := fold_right Qplus 0 l.

(** The numbers of a Series. *)
Fixpoint numbers (s : Series) : list Q :=
  match s with
  | [] => []
  | Num q :: rest => q :: numbers rest
  | _ :: rest => numbers rest
  end.

Definition is_num (c : cell) : bool :=
  match c with Num _ => true | _ => false end.

Definition is_num_or_nan (c : cell) : bool :=
  match c with Num _ | NaN => true | _ => false end.

(** The warnings of [apply_mappings]: one for every mapped source column
    that the table does not have.  They depend on the column names only. *)
Definition missing_column_warnings (df : DataFrame) (mappings : mapping)
  : list st_msg :=
  flat_map (fun kv =>
              match snd kv with
              | Some src =>
                  if truthy (Some src) && negb (has_column df src)
                  then [st_warning
                          ("Column " ++ src ++ " not found in the data!")%string]
                  else []
              | None => []
              end) mappings.

(** While [apply_mappings] fills its frame for a table of [n] rows, the frame
    has no rows yet or [n] rows; it has [n] rows once a column of the table
    has been copied. *)
Definition growing (n : nat) (f : DataFrame) : Prop :=
  well_formed f /\ (index_len f = n \/ index_len f = 0%nat).

Definition grown (n : nat) (f : DataFrame) : Prop :=
  well_formed f /\ index_len f = n.

(** What the two lambdas of [apply_mappings] give on a number. *)
Definition inflow_of (a : Q) : Q := if Qltb 0 a then round2 a else 0.
Definition outflow_of (a : Q) : Q := if Qltb a 0 then round2 (- a) else 0.

(** ** Tables used as examples *)

Definition swedbank : mapping :=
  [ ("Date", Some "Transaktionsdag");
    ("Payee", Some "Beskrivning");
    ("Memo", None);
    ("Amount", Some "Belopp") ].

(** A Swedbank export with one transaction per (date, payee, amount). *)
Definition swedbank_table (rows : list (string * string * cell)) : DataFrame :=
  mkDF (length rows)
       [ ("Transaktionsdag", map (fun r => Str (fst (fst r))) rows);
         ("Beskrivning", map (fun r => Str (snd (fst r))) rows);
         ("Belopp", map snd rows) ].

Definition table_a : DataFrame :=
  swedbank_table [ ("2024-01-05", "Shop1", Num (-10)) ].

Definition table_b : DataFrame :=
  swedbank_table [ ("2024-01-03", "Shop2", Num 50) ].

(** An export without the amount column. *)
Definition table_without_amount : DataFrame :=
  mkDF 2 [ ("Transaktionsdag", [Str "2024-01-05"; Str "2024-01-03"]);
           ("Beskrivning", [Str "Shop1"; Str "Shop2"]) ].

(** [table_a] after [apply_mappings]. *)
Definition normalized_a : DataFrame :=
  mkDF 1 [ ("Date", [Str "2024-01-05"]);
           ("Payee", [Str "Shop1"]);
           ("Memo", [Str ""]);
           ("Inflow", [Num 0]);
           ("Outflow", [Num (round2 (- -10))]) ].

(** A one-line export with the given amount cell. *)
Definition one_row (amount : cell) : DataFrame :=
  swedbank_table [ ("2024-01-05", "Shop1", amount) ].

(** The reader that [parse_transaction_file] uses for a file type. *)
Definition reader_of (read_csv read_excel : UploadedFile -> exn + DataFrame)
  (file_type : string) : option (UploadedFile -> exn + DataFrame) :=
  if (file_type =? "Swedbank (csv)")%string then Some read_csv
  else if (file_type =? "Coop Mastercard (xls & xlsx)")%string
       then Some read_excel
       else None.

(** The message of [parse_transaction_file] for a file that cannot be read. *)
Definition read_error_message (file : UploadedFile) (e : exn) : st_msg :=
  st_error ("Error reading file " ++ name file ++ ": " ++ str_exn e)%string.

(** ** Readers and files used as examples *)

(** A reader that knows two files and fails on every other one. *)
Definition example_read_csv (file : UploadedFile) : exn + DataFrame :=
  if (name file =? "a.csv")%string then inr table_a
  else if (name file =? "b.csv")%string
       then inr table_b
       else inl (Exception "codec can't decode byte").

Definition example_read_excel (file : UploadedFile) : exn + DataFrame :=
  inl (Exception "File is not a zip file").

Fixpoint digits_value (acc : Z) (s : string) : option Z :=
  match s with
  | EmptyString => Some acc
  | String c rest =>
      let d := Z.of_nat (nat_of_ascii c) in
      if ((48 <=? d) && (d <=? 57))%Z
      then digits_value (10 * acc + (d - 48)) rest
      else None
  end.

(** A stand-in for [pd.to_datetime] on ISO dates: "YYYY-MM-DD" becomes the
    number YYYYMMDD, which orders dates as the calendar does; every other
    value is a missing timestamp. *)
Definition example_date (c : cell) : option Z :=
  match c with
  | Str s =>
      if ((String.length s =? 10)%nat
          && (substring 4 1 s =? "-")%string
          && (substring 7 1 s =? "-")%string)
      then digits_value 0
             (substring 0 4 s ++ substring 5 2 s ++ substring 8 2 s)%string
      else None
  | Time t => Some t
  | _ => None
  end.

Definition example_to_datetime (s : Series) : list (option Z) :=
  map example_date s.

Definition file_a : UploadedFile := mkFile "a.csv" [].
Definition file_b : UploadedFile := mkFile "b.csv" [].
Definition file_broken : UploadedFile := mkFile "broken.csv" [].

(** [x > 0] on a cell that is a number or missing. *)
Definition positive_cell (c : cell) : bool :=
  match c with
  | Num q => Qltb 0 q
  | _ => false
  end.

(** ** What a sort has to deliver *)

Fixpoint sorted_b (l : list Q) : bool :=
  match l with
  | [] => true
  | x :: rest =>
      match rest with
      | [] => true
      | y :: _ => Qle_bool x y && sorted_b rest
      end
  end.

(** [idx] is an argsort of [values]: it has every position of [values]
    once, and reading [values] through it gives an ascending list. *)
Definition is_argsort (values : list Q) (idx : list nat) : bool :=
  (length idx =? length values)%nat
  && forallb (fun i => existsb (Nat.eqb i) idx) (seq 0 (length values))
  && sorted_b (map (fun i => nth i values 0) idx).

(** ** Rows of a dataset *)

(** The cells of row [i], one per column. *)
Definition row (df : DataFrame) (i : nat) : list cell :=
  map (fun kv => nth i (snd kv) NaN) (columns df).

Definition rows (df : DataFrame) : list (list cell) :=
  map (row df) (seq 0 (index_len df)).

(** The rows whose Date satisfies [p], in the order of the frame. *)
Definition rows_where (p : cell -> bool) (df : DataFrame) : list (list cell) :=
  map (row df)
      (filter (fun i => p (nth i (column df "Date") NaN))
              (seq 0 (index_len df))).

Definition is_NaT (c : cell) : bool :=
  match c with NaT => true | _ => false end.

(** Date order: timestamps by time, a missing timestamp after everything. *)
Definition date_le (a b : cell) : Prop :=
  match a, b with
  | Time s, Time t => (s <= t)%Z
  | _, NaT => True
  | _, _ => False
  end.

(** The concatenated tables with their dates converted, before sorting. *)
Definition with_dates (to_datetime : Series -> list (option Z))
  (all_transactions : list DataFrame) : DataFrame :=
  let combined_df := pd_concat all_transactions in
  setitem_series combined_df "Date"
    (map datetime_cell (to_datetime (column combined_df "Date"))).

(** The timestamps that the merge hands to [argsort]. *)
Definition date_keys (to_datetime : Series -> list (option Z))
  (all_transactions : list DataFrame) : list Q :=
  map inject_Z
      (somes (to_datetime (column (pd_concat all_transactions) "Date"))).

(** ** Datasets used as examples *)

(** The result of a computation that gives a frame, empty if it raised. *)
Definition frame_or_empty (r : exn + DataFrame) : DataFrame :=
  match r with
  | inr df => df
  | inl _ => empty_frame
  end.

(** Seventeen payments made on the same day. *)
Definition same_day_payees : list string :=
  [ "P00"; "P01"; "P02"; "P03"; "P04"; "P05"; "P06"; "P07"; "P08";
    "P09"; "P10"; "P11"; "P12"; "P13"; "P14"; "P15"; "P16" ].

Definition same_day_table : DataFrame :=
  swedbank_table (map (fun p => ("2024-01-05", p, Num (-1))) same_day_payees).

(** A normalized table with a date that cannot be parsed. *)
Definition normalized_b : DataFrame :=
  mkDF 2 [ ("Date", [Str "soon"; Str "2024-01-04"]);
           ("Payee", [Str "Shop3"; Str "Shop4"]);
           ("Memo", [Str ""; Str ""]);
           ("Inflow", [Num 0; Num 0]);
           ("Outflow", [Num 2; Num 3]) ].

(** ** Payments and rankings *)

(** The payments of a dataset: (Payee, Outflow) of every row whose Outflow
    is greater than 0. *)
Definition spending (df : DataFrame) : list (cell * cell) :=
  filter (fun po => positive_cell (snd po))
         (combine (column df "Payee") (column df "Outflow")).

(** The payees that were paid, in order of first appearance. *)
Definition payees (df : DataFrame) : list cell :=
  unique cell_eqb (filter (fun c => negb (isna c)) (map fst (spending df))).

(** The amounts paid to [p]. *)
Definition payments_to (df : DataFrame) (p : cell) : list Q :=
  numbers (map snd (filter (fun po => cell_eqb p (fst po)) (spending df))).

(** Every payee with the number of payments made to it. *)
Definition payee_counts (df : DataFrame) : list (cell * cell) :=
  map (fun p => (p, Num (inject_Z (Z.of_nat (length (payments_to df p))))))
      (payees df).

(** The sum of a list of numbers as a sum over a column accumulates it: in
    int64, wrapping around, or exactly. *)
Definition column_sum (as_int64 : bool) (qs : list Q) : Q :=
  match qs with
  | [] => 0
  | q :: rest =>
      fold_left (fun a x => if as_int64
                            then inject_Z (wrap64 (Qfloor a + Qfloor x))
                            else a + x) rest q
  end.

(** Every payee with the sum of the payments made to it, by payee; the
    payments are summed in the dtype of the Outflow of the payments. *)
Definition payee_totals (df : DataFrame) : list (cell * cell) :=
  map (fun p => (p, Num (column_sum (int64 (map snd (spending df)))
                                    (payments_to df p))))
      (sorted_keys (payees df)).

(** An integer in the int64 range. *)
Definition in_int64 (z : Z) : bool := (- 2 ^ 63 <=? z)%Z && (z <? 2 ^ 63)%Z.

(** The sum of a column cannot overflow: some value of the column is not a
    whole number, so that the column is not a column of integers; or every
    value is in the int64 range, and so is the exact sum. *)
Definition sum_fits (qs : list Q) : bool :=
  negb (forallb is_whole qs)
  || (forallb is_int64_value qs && in_int64 (Qfloor (Qsum qs))).

(** The sum of the payments to [p] cannot overflow: some payment of the
    dataset is not a whole number; or every payment of the dataset is in
    the int64 range, and so is the exact sum of the payments to [p]. *)
Definition payments_fit (df : DataFrame) (p : cell) : bool :=
  negb (forallb is_whole (numbers (map snd (spending df))))
  || (int64 (map snd (spending df))
      && in_int64 (Qfloor (Qsum (payments_to df p)))).

(** The values of a Series of numbers given by its entries. *)
Definition values_of {L} (s : list (L * cell)) : list Q :=
  numbers (map snd s).

Definition descending (l : list Q) : Prop :=
  StronglySorted (fun a b => b <= a) l.

(** An entry with its value rounded to two decimals. *)
Definition rounded (e : cell * cell) : cell * cell :=
  (fst e, match snd e with Num q => Num (round2 q) | c => c end).

(** Among entries of equal value the payee names ascend. *)
Fixpoint ties_by_name (s : list (cell * cell)) : bool :=
  match s with
  | [] => true
  | e :: rest =>
      forallb (fun e' => negb (cell_eqb (snd e) (snd e'))
                         || cell_leb (fst e) (fst e')) rest
      && ties_by_name rest
  end.

(** Two payments of 1, to "B" and then to "A", and the other way round. *)
Definition paid_b_then_a : DataFrame :=
  mkDF 2 [ ("Date", [Time 20240103; Time 20240105]);
           ("Payee", [Str "B"; Str "A"]);
           ("Memo", [Str ""; Str ""]);
           ("Inflow", [Num 0; Num 0]);
           ("Outflow", [Num 1; Num 1]) ].

Definition paid_a_then_b : DataFrame :=
  mkDF 2 [ ("Date", [Time 20240103; Time 20240105]);
           ("Payee", [Str "A"; Str "B"]);
           ("Memo", [Str ""; Str ""]);
           ("Inflow", [Num 0; Num 0]);
           ("Outflow", [Num 1; Num 1]) ].

(** A merged dataset with three payments to two shops, one payment without
    a payee and one income. *)
Definition ledger : DataFrame :=
  mkDF 5 [ ("Date", [Time 20240103; Time 20240104; Time 20240105;
                     Time 20240106; NaT]);
           ("Payee", [Str "Shop2"; Str "Shop1"; Str "Employer"; Str "Shop2";
                      NaN]);
           ("Memo", [Str ""; Str ""; Str ""; Str ""; Str ""]);
           ("Inflow", [Num 0; Num 0; Num 2500; Num 0; Num 0]);
           ("Outflow", [Num (5 # 2); Num 10; Num 0; Num 5; Num 1]) ].

(** The amounts of a batch of tables, table after table. *)
Definition all_amounts (src : string) (tables : list DataFrame) : list Q :=
  flat_map (fun t => numbers (column t src)) tables.

(** A table is normalized to [out], and its amounts are numbers. *)
Definition normalizes (mappings : mapping) (src : string)
  (t out : DataFrame) : Prop :=
  well_formed t /\
  (exists amounts, lookup src (columns t) = Some amounts /\
                   Forall (fun c => is_num c = true) amounts) /\
  outcome (apply_mappings t mappings) = inr out.

(** The dataset merged from [table_a] and [table_b]. *)
Definition two_files_dataset : DataFrame :=
  mkDF 2 [ ("Date", [Time 20240103; Time 20240105]);
           ("Payee", [Str "Shop2"; Str "Shop1"]);
           ("Memo", [Str ""; Str ""]);
           ("Inflow", [Num (round2 50); Num 0]);
           ("Outflow", [Num 0; Num (round2 (- -10))]) ].

(* ================================================================== *)
(** * The date range and the export

    The rest of the module-level block: the date range shown under the key
    figures, the table handed to [st.data_editor], and what is exported from
    the edited table. *)

(** The values of a datetime64 Series; [None] for a Series that holds
    anything but timestamps. *)
Fixpoint datetime64 (s : Series) : option (list (option Z)) :=
  match s with
  | [] => Some []
  | Time t :: rest => option_map (cons (Some t)) (datetime64 rest)
  | NaT :: rest => option_map (cons None) (datetime64 rest)
  | _ :: _ => None
  end.

(** [series.min()] and [series.max()] of a datetime64 Series, which the Date
    column is once [pd.to_datetime] has made it: missing timestamps are
    skipped, and the result is a missing timestamp when none is left. *)
Definition Series_min (s : Series) : exn + option Z :=
  match datetime64 s with
  | Some values =>
      match somes values with
      | [] => inr None
      | t :: ts => inr (Some (fold_left Z.min ts t))
      end
  | None => inl TypeError
  end.

Definition Series_max (s : Series) : exn + option Z :=
  match datetime64 s with
  | Some values =>
      match somes values with
      | [] => inr None
      | t :: ts => inr (Some (fold_left Z.max ts t))
      end
  | None => inl TypeError
  end.

(** The decimal digit [d]. *)
Definition digit (d : Z) : ascii := ascii_of_nat (48 + Z.to_nat d).

Fixpoint digits (fuel : nat) (z : Z) (tail : string) : string :=
  match fuel with
  | O => tail
  | S fuel' =>
      let tail' := String (digit (z mod 10)) tail in
      if (z <? 10)%Z then tail' else digits fuel' (z / 10) tail'
  end.

(** [str(z)] for an integer [z >= 0]. *)
Definition decimal (z : Z) : string :=
  digits (S (Z.to_nat (Z.log2 z))) z "".

(** [f"{x:.2f}"] for a number: the sign, then the magnitude rounded to the
    nearest hundredth with two decimals. *)
Definition format_2f (q : Q) : string :=
  let cents := round_half_even ((if Qltb q 0 then - q else q) * 100) in
  ((if Qltb q 0 then "-" else "")
   ++ decimal (cents / 100) ++ "."
   ++ String (digit (cents / 10 mod 10)) (String (digit (cents mod 10)) ""))%string.

(** [lambda x: "" if x == 0 else f"{x:.2f}"].  Nothing but a number equals
    0; a missing value is formatted as "nan", text has no format code 'f',
    and a timestamp is formatted through its strftime. *)
Definition blank_zero_lambda (x : cell) : exn + cell :=
  match x with
  | Num q => inr (Str (if Qeq_bool q 0 then "" else format_2f q))
  | NaN => inr (Str "nan")
  | Str _ => inl (Exception "Unknown format code 'f' for object of type 'str'")
  | Time _ => inr (Str ".2f")
  | NaT => inl (Exception "NaTType does not support strftime")
  end.

(** A table with its checkbox column.  [Remove] is the one column of
    booleans; it is the last column and is kept beside the frame, so that
    dropping it leaves the frame. *)
Record Editable : Type := mkEditable {
  frame : DataFrame;
  Remove : list bool
}.

(** What the script hands to [st.data_editor]: the checkbox column, not
    ticked, and Inflow and Outflow as text. *)
Definition editor_input (combined_df : DataFrame) : exn + Editable :=
  let remove := repeat false (index_len combined_df) in
  ebind (getitem combined_df "Inflow") (fun inflow =>
  ebind (Series_apply blank_zero_lambda inflow) (fun inflow =>
  let combined_df := setitem_series combined_df "Inflow" inflow in
  ebind (getitem combined_df "Outflow") (fun outflow =>
  ebind (Series_apply blank_zero_lambda outflow) (fun outflow =>
  let combined_df := setitem_series combined_df "Outflow" outflow in
  inr (mkEditable combined_df remove))))).

Section ExportBlock.

(** [strftime] stands for [timestamp.strftime('%Y-%m-%d')] and [now] for
    [datetime.now().strftime("%Y%m%d_%H%M%S")]. *)
Variable strftime : Z -> string.
Variable now : string.

(** [timestamp.strftime('%Y-%m-%d')] on the result of [min] or [max]; a
    missing timestamp has no strftime. *)
Definition Timestamp_strftime (x : option Z) : exn + string :=
  match x with
  | Some t => inr (strftime t)
  | None => inl (Exception "NaTType does not support strftime")
  end.

(** The text of the "Date Range" figure. *)
Definition date_range (combined_df : DataFrame) : exn + string :=
  ebind (getitem combined_df "Date") (fun date =>
  ebind (Series_min date) (fun first =>
  ebind (Timestamp_strftime first) (fun first =>
  ebind (getitem combined_df "Date") (fun date =>
  ebind (Series_max date) (fun last =>
  ebind (Timestamp_strftime last) (fun last =>
  inr (first ++ " to " ++ last)%string)))))).

(** [series.dt.strftime('%Y-%m-%d')]: text for a timestamp and a missing
    value for a missing one; only a datetime64 Series has [.dt]. *)
Definition dt_strftime (s : Series) : exn + Series :=
  match datetime64 s with
  | Some values =>
      inr (map (fun v => match v with
                         | Some t => Str (strftime t)
                         | None => NaN
                         end) values)
  | None => inl (Exception "Can only use .dt accessor with datetimelike values")
  end.

(** From the edited table to the exported table and the name of the file:
    the rows that are not ticked, without the checkbox column, with the
    date as text. *)
Definition export (edited_df : Editable) : exn + (DataFrame * string) :=
  let mask := map (fun b => Bool.eqb b false) (Remove edited_df) in
  let final_df := boolean_index (frame edited_df) mask in
  ebind (getitem final_df "Date") (fun date =>
  ebind (dt_strftime date) (fun date =>
  let final_df := setitem_series final_df "Date" date in
  let transaction_count := len final_df in
  let filename :=
    ("ynab_import_" ++ decimal (Z.of_nat transaction_count) ++ "_"
     ++ now ++ ".csv")%string in
  inr (final_df, filename))).

End ExportBlock.

(* ================================================================== *)
(** * More notions used to state the properties *)

(** The column names after an assignment to [k]. *)
Definition insert_key (ks : list string) (k : string) : list string :=
  if existsb (String.eqb k) ks then ks else ks ++ [k].

(** The column that [apply_mappings] copies for a mapping entry: the source
    column, when one is named and the table has it. *)
Definition source_column (df : DataFrame) (source_col : option string)
  : option Series :=
  match source_col with
  | Some src => if truthy source_col then lookup src (columns df) else None
  | None => None
  end.

(** Some entry among [items] has a column to copy. *)
Definition copies (df : DataFrame) (items : mapping) : bool :=
  existsb (fun kv => is_some (source_column df (snd kv))) items.

(** An export without the date column. *)
Definition table_without_date : DataFrame :=
  mkDF 1 [ ("Beskrivning", [Str "Shop1"]); ("Belopp", [Num (-10)]) ].

(** The messages of a batch: for every file its announcement, followed by
    the error of a file that cannot be read or by the warnings for the
    columns that a file lacks. *)
Definition batch_log (read : UploadedFile -> exn + DataFrame)
  (mappings : mapping) (files : list UploadedFile) : list st_msg :=
  flat_map (fun file =>
              st_write ("Processing " ++ name file ++ "...")%string ::
              match read file with
              | inr t => missing_column_warnings t mappings
              | inl e => [read_error_message file e]
              end) files.

(** A reader that knows a third file, whose amount is text. *)
Definition example_read_text (file : UploadedFile) : exn + DataFrame :=
  if (name file =? "c.csv")%string then inr (one_row (Str "abc"))
  else example_read_csv file.

Definition file_c : UploadedFile := mkFile "c.csv" [].

(** The rows that are not ticked. *)
Definition kept {A} (remove : list bool) (l : list A) : list A :=
  map fst (filter (fun xb => negb (snd xb)) (combine l remove)).

(** A stand-in for [strftime('%Y-%m-%d')] on the timestamps of
    [example_date]. *)
Definition example_strftime (t : Z) : string :=
  (decimal (t / 10000) ++ "-"
   ++ String (digit (t / 1000 mod 10)) (String (digit (t / 100 mod 10)) "")
   ++ "-"
   ++ String (digit (t / 10 mod 10)) (String (digit (t mod 10)) ""))%string.

(** The tables of the files that can be read, in the order of upload. *)
Definition tables_read (read : UploadedFile -> exn + DataFrame)
  (files : list UploadedFile) : list DataFrame :=
  flat_map (fun file =>
              match read file with
              | inr t => [t]
              | inl _ => []
              end) files.

(** The timestamps of a column, without the missing ones. *)
Fixpoint timestamps (s : Series) : list Z :=
  match s with
  | [] => []
  | Time t :: rest => t :: timestamps rest
  | _ :: rest => timestamps rest
  end.

(** The exported text of a date. *)
Definition date_text (strftime : Z -> string) (c : cell) : cell :=
  match c with
  | Time t => Str (strftime t)
  | _ => NaN
  end.



(** The text of an Inflow or Outflow value in the editor: empty for 0. *)
Definition flow_text (q : Q) : cell :=
  Str (if Qeq_bool q 0 then "" else format_2f q).

(** The name of the exported file for [count] transactions. *)
Definition export_name (now : string) (count : nat) : string :=
  ("ynab_import_" ++ decimal (Z.of_nat count) ++ "_" ++ now ++ ".csv")%string.

(** An export of two transactions of 2^62 each. *)
Definition large_amounts : DataFrame :=
  swedbank_table [ ("2024-01-05", "Shop1", Num (inject_Z (2 ^ 62)));
                   ("2024-01-06", "Shop2", Num (inject_Z (2 ^ 62))) ].

(** A table of four rows with none of the columns of the Swedbank
    mapping. *)
Definition table_other_columns : DataFrame :=
  mkDF 4 [ ("Datum", [Str "2024-01-05"; Str "2024-01-06";
                      Str "2024-01-07"; Str "2024-01-08"]);
           ("Summa", [Num 1; Num 2; Num 3; Num 4]) ].

(* ================================================================== *)
(** * Rounding *)

Lemma Qltb_lt (a b : Q) : Qltb a b = true <-> a < b.
Proof.
  unfold Qltb. rewrite negb_true_iff. split; intro H.
  - apply Qnot_le_lt. intro Hle. apply Qle_bool_iff in Hle. congruence.
  - destruct (Qle_bool b a) eqn:E; [|reflexivity].
    apply Qle_bool_iff in E. exfalso. exact (Qlt_not_le _ _ H E).
Qed.


(** The quotient and remainder that [round_half_even] works with. *)
Lemma div_mod_facts (a b : Z) :
  (0 < b)%Z ->
  (a = b * (a / b) + a mod b /\ 0 <= a mod b < b)%Z.
Proof.
  intro Hb. split.
  - apply Z.div_mod. lia.
  - apply Z.mod_pos_bound. exact Hb.
Qed.

Lemma round_half_even_cases (q : Q) :
  let a := Qnum q in
  let b := Zpos (Qden q) in
  let f := (a / b)%Z in
  let r := (a mod b)%Z in
  (round_half_even q = f /\ (2 * r < b \/ 2 * r = b /\ Z.even f = true))%Z \/
  (round_half_even q = f + 1 /\ (b < 2 * r \/ 2 * r = b /\ Z.even f = false))%Z.
Proof.
  intros a b f r. unfold round_half_even. fold a b f r.
  destruct (Z.compare_spec (2 * r) b) as [E|E|E].
  - destruct (Z.even f) eqn:Ev; [left|right]; auto.
  - left; auto.
  - right; auto.
Qed.

Lemma floor_unique (a b f r : Z) :
  (0 < b)%Z -> (a = b * f + r)%Z -> (0 <= r < b)%Z ->
  (a / b = f /\ a mod b = r)%Z.
Proof.
  intros Hb Ha Hr. split.
  - symmetry. apply (Z.div_unique a b f r); [lia | lia].
  - symmetry. apply (Z.mod_unique a b f r); [lia | lia].
Qed.



Lemma round_half_even_mono (q q' : Q) :
  q <= q' -> (round_half_even q <= round_half_even q')%Z.
Proof.
  intro H.
  assert (Hfl : (Qnum q / Zpos (Qden q) <= Qnum q' / Zpos (Qden q'))%Z).
  { pose proof (Qfloor_resp_le q q' H) as Hfl.
    destruct q, q'. exact Hfl. }
  unfold Qle in H.
  destruct (div_mod_facts (Qnum q) (Zpos (Qden q))) as [Ha Hr]; [lia|].
  destruct (div_mod_facts (Qnum q') (Zpos (Qden q'))) as [Ha' Hr']; [lia|].
  destruct (round_half_even_cases q) as [[-> C]|[-> C]];
    destruct (round_half_even_cases q') as [[-> C']|[-> C']];
    cbv zeta in *; try lia.
  set (a := Qnum q) in *. set (b := Zpos (Qden q)) in *.
  set (a' := Qnum q') in *. set (b' := Zpos (Qden q')) in *.
  set (f := (a / b)%Z) in *. set (f' := (a' / b')%Z) in *.
  set (r := (a mod b)%Z) in *. set (r' := (a' mod b')%Z) in *.
  assert (Hb : (0 < b)%Z) by (subst b; lia).
  assert (Hb' : (0 < b')%Z) by (subst b'; lia).
  destruct (Z.eq_dec f f') as [Hff|Hff]; [|lia].
  exfalso. rewrite <- Hff in *.
  assert (Hrr : (r * b' <= r' * b)%Z) by nia.
  destruct C as [C|[C Ev]]; destruct C' as [C'|[C' Ev']];
    try congruence; nia.
Qed.

Lemma round_half_even_nonneg (q : Q) :
  0 <= q -> (0 <= round_half_even q)%Z.
Proof.
  intro H. apply (round_half_even_mono 0 q) in H. exact H.
Qed.


(** ** [round2] *)


Lemma round2_nonneg (q : Q) : 0 <= q -> 0 <= round2 q.
Proof.
  intro H. unfold round2.
  assert (0 <= round_half_even (q * 100))%Z.
  { apply round_half_even_nonneg.
    apply Qmult_le_0_compat; [exact H | discriminate]. }
  unfold Qle. simpl. lia.
Qed.


Lemma round2_mono (q q' : Q) : q <= q' -> round2 q <= round2 q'.
Proof.
  intro H. unfold round2.
  assert (round_half_even (q * 100) <= round_half_even (q' * 100))%Z.
  { apply round_half_even_mono.
    apply Qmult_le_compat_r; [exact H | discriminate]. }
  unfold Qle. simpl. lia.
Qed.


Lemma round_half_even_small (x : Q) :
  0 < x -> x < 1 # 2 -> round_half_even x = 0%Z.
Proof.
  intros Hpos Hsmall. unfold Qlt in Hpos, Hsmall. simpl in Hpos, Hsmall.
  assert (Hb : (0 < Zpos (Qden x))%Z) by lia.
  destruct (floor_unique (Qnum x) (Zpos (Qden x)) 0 (Qnum x) Hb)
    as [Hq Hm]; [lia | lia |].
  unfold round_half_even. rewrite Hq, Hm.
  destruct (Z.compare_spec (2 * Qnum x) (Zpos (Qden x))); try lia.
Qed.

(** Below half a hundredth a positive number rounds to zero. *)
Lemma round2_small (q : Q) : 0 < q -> q < 5 # 1000 -> round2 q == 0.
Proof.
  intros Hpos Hsmall. unfold round2.
  rewrite round_half_even_small.
  - reflexivity.
  - apply Qmult_lt_0_compat; [exact Hpos | reflexivity].
  - apply Qlt_le_trans with ((5 # 1000) * 100).
    + apply Qmult_lt_compat_r; [reflexivity | exact Hsmall].
    + unfold Qle. simpl. lia.
Qed.

(* ================================================================== *)
(** * Computations *)

Lemma outcome_bind {A B} (c : M A) (k : A -> M B) :
  outcome (bind c k) =
  match outcome c with
  | inl e => inl e
  | inr a => outcome (k a)
  end.
Proof.
  destruct c as [l [e|a]]; simpl; [reflexivity|].
  destruct (k a); reflexivity.
Qed.

Lemma log_bind {A B} (c : M A) (k : A -> M B) :
  log_of (bind c k) =
  log_of c ++ match outcome c with
              | inl _ => []
              | inr a => log_of (k a)
              end.
Proof.
  destruct c as [l [e|a]]; simpl.
  - rewrite app_nil_r. reflexivity.
  - destruct (k a); reflexivity.
Qed.

Lemma outcome_lift {A} (r : exn + A) : outcome (lift r) = r.
Proof. reflexivity. Qed.

Lemma log_lift {A} (r : exn + A) : log_of (lift r) = [].
Proof. reflexivity. Qed.

Lemma log_bind_lift {A B} (r : exn + A) (k : A -> M B) :
  log_of (bind (lift r) k) =
  match r with
  | inl _ => []
  | inr a => log_of (k a)
  end.
Proof. rewrite log_bind. reflexivity. Qed.

Lemma emap_length {A B} (f : A -> exn + B) (l : list A) (l' : list B) :
  emap f l = inr l' -> length l' = length l.
Proof.
  revert l'. induction l as [|x xs IH]; intros l' H; simpl in H.
  - inversion H. reflexivity.
  - destruct (f x) as [e|y]; simpl in H; [discriminate|].
    destruct (emap f xs) as [e|ys]; simpl in H; [discriminate|].
    inversion H. simpl. f_equal. apply IH. reflexivity.
Qed.

Lemma emap_nth_error {A B} (f : A -> exn + B) (l : list A) (l' : list B) :
  emap f l = inr l' ->
  forall i x, nth_error l i = Some x ->
  exists y, f x = inr y /\ nth_error l' i = Some y.
Proof.
  revert l'. induction l as [|x0 xs IH]; intros l' H i x Hi; simpl in H.
  - destruct i; discriminate.
  - destruct (f x0) as [e|y0] eqn:E0; simpl in H; [discriminate|].
    destruct (emap f xs) as [e|ys] eqn:Es; simpl in H; [discriminate|].
    inversion H; subst l'. destruct i as [|i]; simpl in Hi.
    + inversion Hi; subst x. exists y0. split; [exact E0 | reflexivity].
    + simpl. apply (IH ys eq_refl i x Hi).
Qed.

Lemma emap_total {A B} (f : A -> exn + B) (l : list A) :
  Forall (fun x => exists y, f x = inr y) l ->
  exists l', emap f l = inr l'.
Proof.
  induction 1 as [|x xs [y Hy] _ [ys Hys]]; simpl.
  - eexists; reflexivity.
  - rewrite Hy. simpl. rewrite Hys. simpl. eexists; reflexivity.
Qed.

Lemma emap_pure {A B} (g : A -> B) (f : A -> exn + B) (l : list A) :
  Forall (fun x => f x = inr (g x)) l -> emap f l = inr (map g l).
Proof.
  induction 1 as [|x xs Hx _ IH]; simpl.
  - reflexivity.
  - rewrite Hx. simpl. rewrite IH. reflexivity.
Qed.

(* ================================================================== *)
(** * Dicts and frames *)

Lemma lookup_assign_same {V} (k : string) (v : V) d :
  lookup k (assign k v d) = Some v.
Proof.
  induction d as [|[k' v'] d IH]; simpl.
  - rewrite String.eqb_refl. reflexivity.
  - destruct (String.eqb k k') eqn:E; simpl; rewrite E; auto.
Qed.

Lemma lookup_assign_other {V} (k k' : string) (v : V) d :
  k <> k' -> lookup k (assign k' v d) = lookup k d.
Proof.
  intro Hne. induction d as [|[k0 v0] d IH]; simpl.
  - apply String.eqb_neq in Hne. rewrite Hne. reflexivity.
  - destruct (String.eqb k' k0) eqn:E; simpl.
    + apply String.eqb_eq in E. subst k0.
      apply String.eqb_neq in Hne. rewrite Hne. reflexivity.
    + destruct (String.eqb k k0); auto.
Qed.

Lemma lookup_remove_other {V} (k k' : string) (d : list (string * V)) :
  k <> k' -> lookup k (remove_key k' d) = lookup k d.
Proof.
  intro Hne. induction d as [|[k0 v0] d IH]; simpl; [reflexivity|].
  destruct (String.eqb k' k0) eqn:E; simpl.
  - apply String.eqb_eq in E. subst k0.
    apply String.eqb_neq in Hne. rewrite Hne. exact IH.
  - destruct (String.eqb k k0); auto.
Qed.

Lemma lookup_In {V} (k : string) (v : V) d :
  lookup k d = Some v -> In (k, v) d.
Proof.
  induction d as [|[k' v'] d IH]; simpl; [discriminate|].
  destruct (String.eqb k k') eqn:E.
  - apply String.eqb_eq in E. subst k'. intro H; inversion H. auto.
  - auto.
Qed.

Lemma lookup_not_In {V} (k : string) (d : list (string * V)) :
  ~ In k (map fst d) -> lookup k d = None.
Proof.
  induction d as [|[k' v'] d IH]; simpl; [reflexivity|].
  intro H. destruct (String.eqb k k') eqn:E.
  - apply String.eqb_eq in E. subst k'. tauto.
  - apply IH. tauto.
Qed.

Lemma lookup_map_snd {V W} (g : string -> V -> W) (k : string) d :
  lookup k (map (fun kv => (fst kv, g (fst kv) (snd kv))) d) =
  option_map (g k) (lookup k d).
Proof.
  induction d as [|[k' v'] d IH]; simpl; [reflexivity|].
  destruct (String.eqb k k') eqn:E; [|exact IH].
  apply String.eqb_eq in E. subst k'. reflexivity.
Qed.

Lemma Forall_assign {V} (P : string * V -> Prop) (k : string) (v : V) d :
  (forall k', P (k', v)) -> Forall P d -> Forall P (assign k v d).
Proof.
  intros Hv. induction 1 as [|[k' v'] d Hx Hd IH]; simpl.
  - constructor; auto.
  - destruct (String.eqb k k'); constructor; auto.
Qed.

Lemma Forall_remove_key {V} (P : string * V -> Prop) (k : string) d :
  Forall P d -> Forall P (remove_key k d).
Proof.
  induction 1 as [|[k' v'] d Hx Hd IH]; simpl; [constructor|].
  destruct (String.eqb k k'); [exact IH | constructor; auto].
Qed.

Lemma well_formed_column (df : DataFrame) (k : string) (s : Series) :
  well_formed df -> lookup k (columns df) = Some s ->
  length s = index_len df.
Proof.
  intros Hwf Hk. apply lookup_In in Hk.
  unfold well_formed in Hwf. rewrite Forall_forall in Hwf.
  exact (Hwf _ Hk).
Qed.

Lemma align_same (n : nat) (s : Series) : length s = n -> align n s = s.
Proof.
  intro H. unfold align. subst n.
  rewrite firstn_all, Nat.sub_diag. simpl. apply app_nil_r.
Qed.

(** Assigning a Series as long as the index. *)
Lemma setitem_series_same (f : DataFrame) (k : string) (s : Series) :
  length s = index_len f ->
  setitem_series f k s = mkDF (index_len f) (assign k s (columns f)).
Proof.
  intro H. unfold setitem_series.
  destruct (index_len f =? 0)%nat eqn:E0; simpl.
  - apply Nat.eqb_eq in E0. rewrite E0 in H. rewrite H. simpl.
    rewrite E0. rewrite align_same by exact H. reflexivity.
  - rewrite align_same by exact H. reflexivity.
Qed.

(** Assigning a non-empty Series to a frame that has no rows yet. *)
Lemma setitem_series_fresh (f : DataFrame) (k : string) (s : Series) :
  index_len f = 0%nat -> length s <> 0%nat ->
  setitem_series f k s =
  mkDF (length s)
       (assign k s
          (map (fun kv => (fst kv, repeat NaN (length s))) (columns f))).
Proof.
  intros H0 Hs. unfold setitem_series. rewrite H0. simpl.
  apply Nat.eqb_neq in Hs. rewrite Hs. reflexivity.
Qed.

Section Frames.

Variable n : nat.

Local Abbreviation growing := (growing n).
Local Abbreviation grown := (grown n).

Lemma grown_growing f : grown f -> growing f.
Proof. intros [H1 H2]. split; auto. Qed.

Lemma setitem_scalar_growing f k c :
  growing f -> growing (setitem_scalar f k c).
Proof.
  intros [Hwf Hn]. split; [|exact Hn].
  unfold well_formed, setitem_scalar; simpl.
  apply Forall_assign; [|exact Hwf].
  intro k'. simpl. apply repeat_length.
Qed.

Lemma setitem_scalar_grown f k c :
  grown f -> grown (setitem_scalar f k c).
Proof.
  intros [Hwf Hn]. split; [|exact Hn].
  unfold well_formed, setitem_scalar; simpl.
  apply Forall_assign; [|exact Hwf].
  intro k'. simpl. apply repeat_length.
Qed.

Lemma setitem_series_grown f k s :
  growing f -> length s = n -> grown (setitem_series f k s).
Proof.
  intros [Hwf Hn] Hs.
  destruct (Nat.eq_dec (index_len f) (length s)) as [E|E].
  - rewrite setitem_series_same by auto. split; simpl; [|congruence].
    unfold well_formed; simpl. apply Forall_assign; [|exact Hwf].
    intro k'. simpl. auto.
  - assert (H0 : index_len f = 0%nat) by (destruct Hn; congruence).
    rewrite setitem_series_fresh by (auto; congruence).
    split; simpl; [|exact Hs].
    unfold well_formed; simpl. apply Forall_assign.
    + intro k'. reflexivity.
    + apply Forall_map. apply Forall_forall. intros kv _. simpl.
      apply repeat_length.
Qed.

Lemma setitem_series_lookup f k s :
  growing f -> length s = n ->
  lookup k (columns (setitem_series f k s)) = Some s.
Proof.
  intros [Hwf Hn] Hs.
  destruct (Nat.eq_dec (index_len f) (length s)) as [E|E].
  - rewrite setitem_series_same by auto. simpl. apply lookup_assign_same.
  - assert (H0 : index_len f = 0%nat) by (destruct Hn; congruence).
    rewrite setitem_series_fresh by (auto; congruence).
    simpl. apply lookup_assign_same.
Qed.

Lemma setitem_series_lookup_other f k k' s :
  grown f -> length s = n -> k' <> k ->
  lookup k' (columns (setitem_series f k s)) = lookup k' (columns f).
Proof.
  intros [Hwf Hn] Hs Hne.
  rewrite setitem_series_same by congruence. simpl.
  apply lookup_assign_other. exact Hne.
Qed.

Lemma setitem_scalar_lookup_other f k k' c :
  k' <> k ->
  lookup k' (columns (setitem_scalar f k c)) = lookup k' (columns f).
Proof.
  intro Hne. unfold setitem_scalar. simpl.
  apply lookup_assign_other. exact Hne.
Qed.

End Frames.

(* ================================================================== *)
(** * The mapping loop *)

Section MapColumns.

Variable df : DataFrame.
Hypothesis df_wf : well_formed df.

Local Abbreviation n := (index_len df).

Lemma map_columns_cons k sc (items : mapping) f :
  map_columns df ((k, sc) :: items) f =
  match sc with
  | Some src =>
      if truthy sc then
        match lookup src (columns df) with
        | Some s => map_columns df items (setitem_series f k s)
        | None =>
            tell (st_warning
                    ("Column " ++ src ++ " not found in the data!")%string) ;;;
            map_columns df items (setitem_scalar f k (Str ""))
        end
      else map_columns df items (setitem_scalar f k (Str ""))
  | None => map_columns df items (setitem_scalar f k (Str ""))
  end.
Proof. reflexivity. Qed.

(** The loop never raises, and the frame it builds has no rows or as many
    rows as the table. *)
Lemma map_columns_growing (items : mapping) :
  forall f, growing n f ->
  exists f', outcome (map_columns df items f) = inr f' /\ growing n f'.
Proof.
  induction items as [|[k sc] items IH]; intros f Hf.
  - exists f. split; [reflexivity | exact Hf].
  - rewrite map_columns_cons. destruct sc as [src|].
    + destruct (truthy (Some src)).
      * destruct (lookup src (columns df)) as [s|] eqn:Hs.
        -- apply IH. apply grown_growing. apply setitem_series_grown; auto.
           apply (well_formed_column df src s df_wf Hs).
        -- rewrite outcome_bind. simpl.
           apply IH. apply setitem_scalar_growing. exact Hf.
      * apply IH. apply setitem_scalar_growing. exact Hf.
    + apply IH. apply setitem_scalar_growing. exact Hf.
Qed.

(** A column that the rest of the mapping does not assign is kept. *)
Lemma map_columns_keeps (items : mapping) (k0 : string) (s0 : Series) :
  ~ In k0 (map fst items) ->
  forall f, grown n f -> lookup k0 (columns f) = Some s0 ->
  exists f', outcome (map_columns df items f) = inr f' /\ grown n f' /\
             lookup k0 (columns f') = Some s0.
Proof.
  induction items as [|[k sc] items IH]; intros Hnot f Hf Hk0.
  - exists f. auto.
  - rewrite map_columns_cons. simpl in Hnot.
    assert (Hne : k0 <> k) by (intro; subst; tauto).
    assert (Hnot' : ~ In k0 (map fst items)) by tauto.
    assert (Hscalar : forall c,
      exists f', outcome (map_columns df items (setitem_scalar f k c))
                 = inr f' /\ grown n f' /\ lookup k0 (columns f') = Some s0).
    { intro c. apply IH; auto.
      - apply setitem_scalar_grown. exact Hf.
      - rewrite setitem_scalar_lookup_other by exact Hne. exact Hk0. }
    destruct sc as [src|]; [|apply Hscalar].
    destruct (truthy (Some src)); [|apply Hscalar].
    destruct (lookup src (columns df)) as [s|] eqn:Hs.
    + assert (Hlen : length s = n)
        by apply (well_formed_column df src s df_wf Hs).
      apply IH; auto.
      * apply setitem_series_grown; auto. apply grown_growing. exact Hf.
      * rewrite (setitem_series_lookup_other n) by auto. exact Hk0.
    + rewrite outcome_bind. simpl. apply Hscalar.
Qed.

(** A key that is mapped to a column of the table ends up holding it. *)
Lemma map_columns_mapped (items : mapping) (k0 src : string) (s0 : Series) :
  NoDup (map fst items) ->
  lookup k0 items = Some (Some src) -> src <> "" ->
  lookup src (columns df) = Some s0 ->
  forall f, growing n f ->
  exists f', outcome (map_columns df items f) = inr f' /\ grown n f' /\
             lookup k0 (columns f') = Some s0.
Proof.
  intros Hnd Hk0 Hsrc Hs0.
  assert (Hlen0 : length s0 = n)
    by apply (well_formed_column df src s0 df_wf Hs0).
  induction items as [|[k sc] items IH]; intros f Hf.
  - discriminate.
  - rewrite map_columns_cons. simpl in Hnd, Hk0.
    inversion Hnd as [|? ? Hnotin Hnd']; subst.
    destruct (String.eqb k0 k) eqn:E.
    + apply String.eqb_eq in E. subst k. inversion Hk0; subst sc.
      assert (Ht : truthy (Some src) = true).
      { simpl. apply negb_true_iff. apply String.eqb_neq. exact Hsrc. }
      rewrite Ht, Hs0.
      apply map_columns_keeps; auto.
      * apply setitem_series_grown; auto.
      * apply (setitem_series_lookup n); auto.
    + assert (Hscalar : forall c,
        exists f', outcome (map_columns df items (setitem_scalar f k c))
                   = inr f' /\ grown n f' /\ lookup k0 (columns f') = Some s0).
      { intro c. apply IH; auto. apply setitem_scalar_growing. exact Hf. }
      destruct sc as [src'|]; [|apply Hscalar].
      destruct (truthy (Some src')); [|apply Hscalar].
      destruct (lookup src' (columns df)) as [s|] eqn:Hs.
      * apply IH; auto. apply grown_growing.
        apply setitem_series_grown; auto.
        apply (well_formed_column df src' s df_wf Hs).
      * rewrite outcome_bind. simpl. apply Hscalar.
Qed.

End MapColumns.

Lemma missing_column_warnings_cons df k sc (items : mapping) :
  missing_column_warnings df ((k, sc) :: items) =
  match sc with
  | Some src =>
      if truthy (Some src) && negb (has_column df src)
      then [st_warning ("Column " ++ src ++ " not found in the data!")%string]
      else []
  | None => []
  end ++ missing_column_warnings df items.
Proof. reflexivity. Qed.

(** The warnings of the loop are those for the missing columns. *)
Lemma map_columns_log (df : DataFrame) (items : mapping) :
  forall f, log_of (map_columns df items f) = missing_column_warnings df items.
Proof.
  induction items as [|[k sc] items IH]; intro f.
  - reflexivity.
  - rewrite map_columns_cons, missing_column_warnings_cons.
    destruct sc as [src|]; [|apply IH].
    unfold has_column.
    destruct (truthy (Some src)) eqn:Et; [|apply IH].
    destruct (lookup src (columns df)) as [s|]; [apply IH|].
    rewrite log_bind. rewrite IH. reflexivity.
Qed.

(* ================================================================== *)
(** * [apply_mappings] *)

Lemma inflow_lambda_num (a : Q) : inflow_lambda (Num a) = inr (Num (inflow_of a)).
Proof.
  unfold inflow_lambda, inflow_of. simpl. destruct (Qltb 0 a); reflexivity.
Qed.

Lemma outflow_lambda_num (a : Q) :
  outflow_lambda (Num a) = inr (Num (outflow_of a)).
Proof.
  unfold outflow_lambda, outflow_of. simpl. destruct (Qltb a 0); reflexivity.
Qed.

Lemma inflow_of_nonneg (a : Q) : 0 <= inflow_of a.
Proof.
  unfold inflow_of. destruct (Qltb 0 a) eqn:E.
  - apply round2_nonneg. apply Qlt_le_weak. apply Qltb_lt. exact E.
  - apply Qle_refl.
Qed.

Lemma outflow_of_nonneg (a : Q) : 0 <= outflow_of a.
Proof.
  unfold outflow_of. destruct (Qltb a 0) eqn:E.
  - apply round2_nonneg. apply Qltb_lt in E.
    apply (Qopp_le_compat a 0). apply Qlt_le_weak. exact E.
  - apply Qle_refl.
Qed.

Lemma inflow_or_outflow_zero (a : Q) : inflow_of a == 0 \/ outflow_of a == 0.
Proof.
  unfold inflow_of, outflow_of.
  destruct (Qltb 0 a) eqn:E1; [|left; reflexivity].
  destruct (Qltb a 0) eqn:E2; [|right; reflexivity].
  apply Qltb_lt in E1. apply Qltb_lt in E2.
  exfalso. apply (Qlt_irrefl 0). apply Qlt_trans with a; assumption.
Qed.



Section ApplyMappings.

Variable df : DataFrame.
Variable mappings : mapping.
Variable src : string.
Variable amounts : Series.

Hypothesis df_wf : well_formed df.
Hypothesis mappings_dict : NoDup (map fst mappings).
Hypothesis amount_mapped : lookup "Amount" mappings = Some (Some src).
Hypothesis src_named : src <> "".
Hypothesis amount_present : lookup src (columns df) = Some amounts.

Lemma amounts_length : length amounts = index_len df.
Proof. exact (well_formed_column df src amounts df_wf amount_present). Qed.

(** The outcome of [apply_mappings] in terms of the two lambdas. *)
Lemma apply_mappings_outcome :
  exists f, grown (index_len df) f /\
    outcome (apply_mappings df mappings) =
    ebind (emap inflow_lambda amounts) (fun inflow =>
    ebind (emap outflow_lambda amounts) (fun outflow =>
    inr (mkDF (index_len df)
              (remove_key "Amount"
                 (assign "Outflow" outflow
                    (assign "Inflow" inflow (columns f))))))).
Proof.
  destruct (map_columns_mapped df df_wf mappings "Amount" src amounts
              mappings_dict amount_mapped src_named amount_present
              empty_frame) as (f & Hout & Hgrown & Hamount).
  { split; [constructor | right; reflexivity]. }
  exists f. split; [exact Hgrown|].
  destruct Hgrown as [Hwf Hn].
  unfold apply_mappings. rewrite outcome_bind, Hout.
  rewrite outcome_bind, outcome_lift. unfold getitem at 1. rewrite Hamount.
  rewrite outcome_bind, outcome_lift. unfold Series_apply at 1.
  destruct (emap inflow_lambda amounts) as [e|inflow] eqn:Ein;
    [reflexivity|].
  assert (Hlin : length inflow = index_len f).
  { rewrite (emap_length _ _ _ Ein), amounts_length. congruence. }
  rewrite setitem_series_same by exact Hlin.
  rewrite outcome_bind, outcome_lift. unfold getitem at 1. simpl columns.
  rewrite lookup_assign_other by discriminate. rewrite Hamount.
  rewrite outcome_bind, outcome_lift. unfold Series_apply at 1.
  destruct (emap outflow_lambda amounts) as [e|outflow] eqn:Eout;
    [reflexivity|].
  assert (Hlout : length outflow = index_len f).
  { rewrite (emap_length _ _ _ Eout), amounts_length. congruence. }
  rewrite setitem_series_same by exact Hlout.
  rewrite outcome_lift. unfold drop_column, has_column. simpl.
  rewrite !lookup_assign_other by discriminate. rewrite Hamount.
  simpl. rewrite Hn. reflexivity.
Qed.

(** The columns of a normalized table. *)
Lemma apply_mappings_columns (out : DataFrame) :
  outcome (apply_mappings df mappings) = inr out ->
  exists inflow outflow,
    emap inflow_lambda amounts = inr inflow /\
    emap outflow_lambda amounts = inr outflow /\
    index_len out = index_len df /\
    lookup "Inflow" (columns out) = Some inflow /\
    lookup "Outflow" (columns out) = Some outflow.
Proof.
  destruct apply_mappings_outcome as (f & Hgrown & Hout).
  rewrite Hout. intro H.
  destruct (emap inflow_lambda amounts) as [e|inflow]; [discriminate|].
  destruct (emap outflow_lambda amounts) as [e|outflow]; [discriminate|].
  simpl in H. inversion H; subst out. exists inflow, outflow.
  repeat split; simpl.
  - rewrite lookup_remove_other by discriminate.
    rewrite lookup_assign_other by discriminate.
    apply lookup_assign_same.
  - rewrite lookup_remove_other by discriminate.
    apply lookup_assign_same.
Qed.

(** Numbers and missing values in the amount column never make
    [apply_mappings] raise. *)
Lemma apply_mappings_total :
  Forall (fun c => is_num_or_nan c = true) amounts ->
  exists out, outcome (apply_mappings df mappings) = inr out.
Proof.
  intro Hnum.
  destruct apply_mappings_outcome as (f & Hgrown & Hout). rewrite Hout.
  destruct (emap_total inflow_lambda amounts) as [inflow ->].
  { eapply Forall_impl; [|exact Hnum]. intros [s|a| |t|] Hc;
      try discriminate; eexists.
    - apply inflow_lambda_num.
    - reflexivity. }
  destruct (emap_total outflow_lambda amounts) as [outflow ->].
  { eapply Forall_impl; [|exact Hnum]. intros [s|a| |t|] Hc;
      try discriminate; eexists.
    - apply outflow_lambda_num.
    - reflexivity. }
  simpl. eexists; reflexivity.
Qed.

Lemma apply_mappings_log :
  log_of (apply_mappings df mappings) = missing_column_warnings df mappings.
Proof.
  unfold apply_mappings. rewrite log_bind, map_columns_log.
  destruct (outcome (map_columns df mappings empty_frame)) as [e|f];
    [apply app_nil_r|].
  rewrite log_bind_lift.
  destruct (getitem f "Amount") as [e|amount]; [apply app_nil_r|].
  rewrite log_bind_lift.
  destruct (Series_apply inflow_lambda amount) as [e|inflow];
    [apply app_nil_r|].
  rewrite log_bind_lift.
  destruct (getitem _ "Amount") as [e|amount']; [apply app_nil_r|].
  rewrite log_bind_lift.
  destruct (Series_apply outflow_lambda amount') as [e|outflow];
    [apply app_nil_r|].
  rewrite log_lift. apply app_nil_r.
Qed.

(** The cells of a normalized row whose amount is the number [a]. *)
Lemma apply_mappings_row (out : DataFrame) (i : nat) (a : Q) :
  outcome (apply_mappings df mappings) = inr out ->
  nth_error amounts i = Some (Num a) ->
  cell_at out "Inflow" i = Some (Num (inflow_of a)) /\
  cell_at out "Outflow" i = Some (Num (outflow_of a)).
Proof.
  intros Hout Hi.
  destruct (apply_mappings_columns out Hout)
    as (inflow & outflow & Ein & Eout & _ & Hin & Hof).
  unfold cell_at. rewrite Hin, Hof.
  destruct (emap_nth_error _ _ _ Ein i _ Hi) as (y & Hy & ->).
  destruct (emap_nth_error _ _ _ Eout i _ Hi) as (z & Hz & ->).
  rewrite inflow_lambda_num in Hy. rewrite outflow_lambda_num in Hz.
  inversion Hy. inversion Hz. split; reflexivity.
Qed.

(** The cells of a normalized row whose amount is missing. *)
Lemma apply_mappings_row_nan (out : DataFrame) (i : nat) :
  outcome (apply_mappings df mappings) = inr out ->
  nth_error amounts i = Some NaN ->
  cell_at out "Inflow" i = Some (Num 0) /\
  cell_at out "Outflow" i = Some (Num 0).
Proof.
  intros Hout Hi.
  destruct (apply_mappings_columns out Hout)
    as (inflow & outflow & Ein & Eout & _ & Hin & Hof).
  unfold cell_at. rewrite Hin, Hof.
  destruct (emap_nth_error _ _ _ Ein i _ Hi) as (y & Hy & ->).
  destruct (emap_nth_error _ _ _ Eout i _ Hi) as (z & Hz & ->).
  inversion Hy. inversion Hz. split; reflexivity.
Qed.

(** A normalized table is well formed. *)
Lemma apply_mappings_well_formed (out : DataFrame) :
  outcome (apply_mappings df mappings) = inr out -> well_formed out.
Proof.
  destruct apply_mappings_outcome as (f & [Hwf Hn] & Hout).
  rewrite Hout. intro H.
  destruct (emap inflow_lambda amounts) as [e|inflow] eqn:Ein;
    [discriminate|].
  destruct (emap outflow_lambda amounts) as [e|outflow] eqn:Eout;
    [discriminate|].
  simpl in H. inversion H; subst out.
  unfold well_formed. simpl.
  apply Forall_remove_key. apply Forall_assign.
  { intro k. simpl. rewrite (emap_length _ _ _ Eout). apply amounts_length. }
  apply Forall_assign.
  { intro k. simpl. rewrite (emap_length _ _ _ Ein). apply amounts_length. }
  rewrite <- Hn. exact Hwf.
Qed.

End ApplyMappings.

(* ================================================================== *)
(** * Sums *)

Lemma nansum_from (as_int64 : bool) (qs : list Q) (acc : Q) :
  fold_left (fun acc x => ebind acc (fun a => np_add as_int64 a x))
            (map Num qs) (inr (Num acc))
  = inr (Num (fold_left (fun a x => if as_int64
                                    then inject_Z (wrap64 (Qfloor a + Qfloor x))
                                    else a + x) qs acc)).
Proof.
  revert acc. induction qs as [|q qs IH]; intro acc.
  - reflexivity.
  - cbn [map fold_left]. rewrite <- IH. destruct as_int64; reflexivity.
Qed.

Lemma fold_left_Qplus (qs : list Q) (acc : Q) :
  fold_left Qplus qs acc == acc + Qsum qs.
Proof.
  revert acc. induction qs as [|q qs IH]; intro acc; simpl.
  - ring.
  - rewrite IH. ring.
Qed.

Lemma map_fillna0_nums (qs : list Q) : map fillna0 (map Num qs) = map Num qs.
Proof.
  induction qs as [|q qs IH]; [reflexivity|].
  simpl. rewrite IH. reflexivity.
Qed.

Lemma existsb_is_datetime_nums (qs : list Q) :
  existsb is_datetime (map Num qs) = false.
Proof. induction qs; simpl; auto. Qed.

(** The sum of a column of numbers, as it is accumulated. *)
Lemma nansum_column_sum (as_int64 : bool) (qs : list Q) :
  nansum as_int64 (map Num qs) = inr (Num (column_sum as_int64 qs)).
Proof.
  unfold nansum. rewrite existsb_is_datetime_nums, map_fillna0_nums.
  destruct qs as [|q qs]; [reflexivity|].
  cbn [map]. apply nansum_from.
Qed.

Lemma column_sum_float (qs : list Q) : column_sum false qs == Qsum qs.
Proof.
  destruct qs as [|q qs]; [reflexivity|].
  simpl. apply (fold_left_Qplus qs q).
Qed.

(** The sum of a column of numbers taken in float64. *)
Lemma nansum_float_nums (qs : list Q) :
  exists x, nansum false (map Num qs) = inr (Num x) /\ x == Qsum qs.
Proof.
  rewrite nansum_column_sum. eexists. split; [reflexivity|].
  apply column_sum_float.
Qed.

Lemma int64_nums (qs : list Q) :
  int64 (map Num qs) = forallb is_int64_value qs.
Proof.
  unfold int64. induction qs as [|q qs IH]; [reflexivity|].
  simpl. rewrite IH. reflexivity.
Qed.

(** ** Sums in int64 *)

Lemma wrap64_range (z : Z) : (- 2 ^ 63 <= wrap64 z < 2 ^ 63)%Z.
Proof.
  unfold wrap64.
  pose proof (Z.mod_pos_bound (z + 2 ^ 63) (2 ^ 64) ltac:(lia)). lia.
Qed.

Lemma wrap64_small (z : Z) :
  (- 2 ^ 63 <= z < 2 ^ 63)%Z -> wrap64 z = z.
Proof.
  intro H. unfold wrap64. rewrite Z.mod_small by lia. lia.
Qed.

Lemma wrap64_add (z x : Z) : wrap64 (wrap64 z + x) = wrap64 (z + x).
Proof.
  unfold wrap64. f_equal.
  replace ((z + 2 ^ 63) mod 2 ^ 64 - 2 ^ 63 + x + 2 ^ 63)%Z
    with ((z + 2 ^ 63) mod 2 ^ 64 + x)%Z by lia.
  rewrite Zplus_mod_idemp_l. f_equal. lia.
Qed.

Lemma is_int64_value_spec (q : Q) :
  is_int64_value q = true ->
  q == inject_Z (Qfloor q) /\ (- 2 ^ 63 <= Qfloor q < 2 ^ 63)%Z.
Proof.
  unfold is_int64_value, is_whole. intro H.
  apply andb_true_iff in H. destruct H as [H H3].
  apply andb_true_iff in H. destruct H as [H1 H2].
  apply Qeq_bool_iff in H1. apply Z.leb_le in H2. apply Z.ltb_lt in H3.
  split; [exact H1 | lia].
Qed.

(** The sum of the whole parts. *)
Lemma Qsum_floor (qs : list Q) :
  forallb is_int64_value qs = true ->
  Qsum qs == inject_Z (fold_right (fun x s => Qfloor x + s)%Z 0%Z qs).
Proof.
  induction qs as [|q qs IH]; intro H; [reflexivity|].
  simpl in H. apply andb_true_iff in H. destruct H as [Hq Hqs].
  destruct (is_int64_value_spec q Hq) as [Hw _].
  cbn [Qsum fold_right]. change (fold_right Qplus 0 qs) with (Qsum qs).
  rewrite inject_Z_plus, <- (IH Hqs), <- Hw. reflexivity.
Qed.

Lemma fold_wrap64 (f : Q -> Z) (l : list Q) :
  forall z0, (- 2 ^ 63 <= z0 < 2 ^ 63)%Z ->
  fold_left (fun z x => wrap64 (z + f x)) l z0
  = wrap64 (z0 + fold_right (fun x s => f x + s)%Z 0%Z l).
Proof.
  induction l as [|x l IH]; intros z0 Hz.
  - simpl. rewrite Z.add_0_r. symmetry. apply wrap64_small. exact Hz.
  - cbn [fold_left fold_right]. rewrite IH by apply wrap64_range.
    rewrite wrap64_add. f_equal. lia.
Qed.

Lemma fold_int64 (rest : list Q) :
  forall a, a == inject_Z (Qfloor a) ->
  fold_left (fun a x => inject_Z (wrap64 (Qfloor a + Qfloor x))) rest a
  == inject_Z (fold_left (fun z x => wrap64 (z + Qfloor x)) rest (Qfloor a)).
Proof.
  induction rest as [|x rest IH]; intros a Ha.
  - exact Ha.
  - cbn [fold_left]. rewrite IH by (rewrite Qfloor_Z; reflexivity).
    rewrite Qfloor_Z. reflexivity.
Qed.

(** An int64 sum that does not leave the int64 range is the exact sum. *)
Lemma column_sum_int64 (qs : list Q) :
  forallb is_int64_value qs = true ->
  (- 2 ^ 63 <= Qfloor (Qsum qs) < 2 ^ 63)%Z ->
  column_sum true qs == Qsum qs.
Proof.
  intros Hall Hrange.
  pose proof (Qsum_floor qs Hall) as Hsum.
  rewrite (Qfloor_comp _ _ Hsum), Qfloor_Z in Hrange.
  destruct qs as [|q rest]; [reflexivity|].
  simpl in Hall. apply andb_true_iff in Hall. destruct Hall as [Hq _].
  destruct (is_int64_value_spec q Hq) as [Hw Hqr].
  unfold column_sum. rewrite (fold_int64 rest q Hw).
  rewrite (fold_wrap64 Qfloor rest (Qfloor q) Hqr).
  cbn [fold_right] in Hrange, Hsum.
  rewrite (wrap64_small _ Hrange). symmetry. exact Hsum.
Qed.

Lemma in_int64_spec (z : Z) :
  in_int64 z = true -> (- 2 ^ 63 <= z < 2 ^ 63)%Z.
Proof.
  unfold in_int64. intro H. apply andb_true_iff in H. destruct H as [H1 H2].
  apply Z.leb_le in H1. apply Z.ltb_lt in H2. lia.
Qed.

Lemma all_int64_whole (qs : list Q) :
  forallb is_int64_value qs = true -> forallb is_whole qs = true.
Proof.
  induction qs as [|q qs IH]; [reflexivity|].
  cbn [forallb]. intro H. apply andb_true_iff in H. destruct H as [Hq Hqs].
  rewrite (IH Hqs), andb_true_r.
  unfold is_int64_value in Hq.
  apply andb_true_iff in Hq. destruct Hq as [Hq _].
  apply andb_true_iff in Hq. apply Hq.
Qed.

(** The sum of a column of numbers is the exact sum when it cannot
    overflow. *)
Lemma Series_sum_fits (qs : list Q) :
  sum_fits qs = true ->
  exists x, Series_sum (map Num qs) = inr (Num x) /\ x == Qsum qs.
Proof.
  intro Hfits. unfold Series_sum. rewrite nansum_column_sum, int64_nums.
  eexists. split; [reflexivity|].
  unfold sum_fits in Hfits.
  destruct (forallb is_int64_value qs) eqn:Hall.
  - rewrite (all_int64_whole qs Hall) in Hfits. simpl in Hfits.
    apply column_sum_int64; [exact Hall | apply in_int64_spec; exact Hfits].
  - apply column_sum_float.
Qed.



Lemma numbers_all (s : Series) :
  Forall (fun c => is_num c = true) s -> s = map Num (numbers s).
Proof.
  induction 1 as [|c s Hc _ IH]; simpl; [reflexivity|].
  destruct c; try discriminate. simpl. f_equal. exact IH.
Qed.

Lemma emap_inflow_nums (qs : list Q) :
  emap inflow_lambda (map Num qs) = inr (map Num (map inflow_of qs)).
Proof.
  induction qs as [|q qs IH]; simpl; [reflexivity|].
  rewrite inflow_lambda_num. simpl. rewrite IH. reflexivity.
Qed.

Lemma emap_outflow_nums (qs : list Q) :
  emap outflow_lambda (map Num qs) = inr (map Num (map outflow_of qs)).
Proof.
  induction qs as [|q qs IH]; simpl; [reflexivity|].
  rewrite outflow_lambda_num. simpl. rewrite IH. reflexivity.
Qed.

Lemma calculate_kpis_columns (df : DataFrame) (inflow outflow : Series) :
  lookup "Inflow" (columns df) = Some inflow ->
  lookup "Outflow" (columns df) = Some outflow ->
  calculate_kpis df =
  ebind (Series_sum inflow) (fun total_inflow =>
  ebind (Series_sum outflow) (fun total_outflow =>
  inr (total_inflow, total_outflow))).
Proof.
  intros Hin Hout. unfold calculate_kpis, getitem. rewrite Hin. simpl.
  destruct (Series_sum inflow); simpl; [reflexivity|].
  rewrite Hout. reflexivity.
Qed.

(* ================================================================== *)
(** * Properties of the normalized rows *)

(** C1: a normalized row whose source amount is the number [a] has
    Inflow = round(a, 2) if a > 0 else 0 and Outflow = round(-a, 2) if a < 0
    else 0; both are non-negative and at most one of them is not zero. *)
Theorem apply_mappings_inflow_outflow
  (df : DataFrame) (mappings : mapping) (src : string) (amounts : Series)
  (out : DataFrame) (i : nat) (a : Q) :
  well_formed df ->
  NoDup (map fst mappings) ->
  lookup "Amount" mappings = Some (Some src) ->
  src <> "" ->
  lookup src (columns df) = Some amounts ->
  outcome (apply_mappings df mappings) = inr out ->
  nth_error amounts i = Some (Num a) ->
  exists inflow outflow,
    cell_at out "Inflow" i = Some (Num inflow) /\
    cell_at out "Outflow" i = Some (Num outflow) /\
    (0 < a -> inflow = round2 a) /\
    (~ 0 < a -> inflow = 0) /\
    (a < 0 -> outflow = round2 (- a)) /\
    (~ a < 0 -> outflow = 0) /\
    0 <= inflow /\ 0 <= outflow /\
    (inflow == 0 \/ outflow == 0).
Proof.
  intros Hwf Hnd Hmap Hsrc Hcol Hout Hi.
  destruct (apply_mappings_row df mappings src amounts Hwf Hnd Hmap Hsrc Hcol
              out i a Hout Hi) as [Hin Hof].
  exists (inflow_of a), (outflow_of a).
  split; [exact Hin|]. split; [exact Hof|].
  repeat split.
  - intro H. apply Qltb_lt in H. unfold inflow_of. rewrite H. reflexivity.
  - intro H. unfold inflow_of. destruct (Qltb 0 a) eqn:E; [|reflexivity].
    apply Qltb_lt in E. contradiction.
  - intro H. apply Qltb_lt in H. unfold outflow_of. rewrite H. reflexivity.
  - intro H. unfold outflow_of. destruct (Qltb a 0) eqn:E; [|reflexivity].
    apply Qltb_lt in E. contradiction.
  - apply inflow_of_nonneg.
  - apply outflow_of_nonneg.
  - apply inflow_or_outflow_zero.
Qed.

Lemma table_a_well_formed : well_formed table_a.
Proof. repeat constructor. Defined.

Lemma swedbank_dict : NoDup (map fst swedbank).
Proof.
  repeat constructor; simpl; intuition discriminate.
Defined.

Lemma apply_mappings_inflow_outflow_witness :
  exists inflow outflow,
    cell_at normalized_a "Inflow" 0 = Some (Num inflow) /\
    cell_at normalized_a "Outflow" 0 = Some (Num outflow) /\
    (0 < -10 -> inflow = round2 (-10)) /\
    (~ 0 < -10 -> inflow = 0) /\
    (-10 < 0 -> outflow = round2 (- -10)) /\
    (~ -10 < 0 -> outflow = 0) /\
    0 <= inflow /\ 0 <= outflow /\
    (inflow == 0 \/ outflow == 0).
Proof.
  apply (apply_mappings_inflow_outflow table_a swedbank "Belopp"
           [Num (-10)] normalized_a 0 (-10)).
  - exact table_a_well_formed.
  - exact swedbank_dict.
  - reflexivity.
  - discriminate.
  - reflexivity.
  - reflexivity.
  - reflexivity.
Defined.

(** C3: evaluation at a table that lacks the mapped amount column.  The
    table has two rows; [apply_mappings] warns about the column, fills
    "Amount" with empty text and then raises on comparing it with 0, so no
    normalized table comes out. *)
Theorem apply_mappings_without_amount :
  len table_without_amount = 2%nat /\
  apply_mappings table_without_amount swedbank =
    ([st_warning "Column Belopp not found in the data!"], inl TypeError).
Proof. split; reflexivity. Qed.

(** C8, as stated, fails: a text cell in the amount column makes
    [apply_mappings] raise, and a missing amount is passed over without any
    message. *)
Lemma non_numeric_amount_counterexample :
  outcome (apply_mappings (one_row (Str "abc")) swedbank) = inl TypeError /\
  log_of (apply_mappings (one_row NaN) swedbank) = [].
Proof. split; reflexivity. Qed.

(** C8, amended: when the amount cells are numbers or missing values,
    [apply_mappings] returns a table with as many rows as its input; a row
    whose amount is missing has Inflow 0 and Outflow 0; the messages are the
    warnings for missing columns, none is about an amount. *)
Theorem apply_mappings_missing_amount_cell
  (df : DataFrame) (mappings : mapping) (src : string) (amounts : Series) :
  well_formed df ->
  NoDup (map fst mappings) ->
  lookup "Amount" mappings = Some (Some src) ->
  src <> "" ->
  lookup src (columns df) = Some amounts ->
  Forall (fun c => is_num_or_nan c = true) amounts ->
  exists out,
    outcome (apply_mappings df mappings) = inr out /\
    len out = len df /\
    log_of (apply_mappings df mappings) = missing_column_warnings df mappings /\
    forall i, nth_error amounts i = Some NaN ->
      cell_at out "Inflow" i = Some (Num 0) /\
      cell_at out "Outflow" i = Some (Num 0).
Proof.
  intros Hwf Hnd Hmap Hsrc Hcol Hnum.
  destruct (apply_mappings_total df mappings src amounts Hwf Hnd Hmap Hsrc
              Hcol Hnum) as [out Hout].
  exists out. split; [exact Hout|]. split; [|split].
  - destruct (apply_mappings_columns df mappings src amounts Hwf Hnd Hmap
                Hsrc Hcol out Hout) as (inflow & outflow & _ & _ & Hlen & _).
    exact Hlen.
  - apply apply_mappings_log.
  - intros i Hi.
    exact (apply_mappings_row_nan df mappings src amounts Hwf Hnd Hmap Hsrc
             Hcol out i Hout Hi).
Qed.

Lemma apply_mappings_missing_amount_cell_witness :
  exists out,
    outcome (apply_mappings (one_row NaN) swedbank) = inr out /\
    len out = len (one_row NaN) /\
    log_of (apply_mappings (one_row NaN) swedbank)
      = missing_column_warnings (one_row NaN) swedbank /\
    forall i, nth_error [NaN] i = Some NaN ->
      cell_at out "Inflow" i = Some (Num 0) /\
      cell_at out "Outflow" i = Some (Num 0).
Proof.
  apply (apply_mappings_missing_amount_cell (one_row NaN) swedbank "Belopp"
           [NaN]).
  - repeat constructor.
  - exact swedbank_dict.
  - reflexivity.
  - discriminate.
  - reflexivity.
  - repeat constructor.
Defined.

(** C10: a positive amount below half a hundredth gives a row whose Inflow
    and Outflow are both zero: the sign is tested on the amount, the stored
    value is the rounded amount.  When it is the only row of the table, both
    totals are zero although the amount is not. *)
Theorem tiny_amount_lost
  (df : DataFrame) (mappings : mapping) (src : string) (amounts : Series)
  (out : DataFrame) (i : nat) (a : Q) :
  well_formed df ->
  NoDup (map fst mappings) ->
  lookup "Amount" mappings = Some (Some src) ->
  src <> "" ->
  lookup src (columns df) = Some amounts ->
  outcome (apply_mappings df mappings) = inr out ->
  nth_error amounts i = Some (Num a) ->
  0 < a -> a < 5 # 1000 ->
  (exists x, cell_at out "Inflow" i = Some (Num x) /\ x == 0) /\
  cell_at out "Outflow" i = Some (Num 0) /\
  (index_len df = 1%nat ->
   exists total_inflow,
     calculate_kpis out = inr (Num total_inflow, Num 0) /\
     total_inflow == 0).
Proof.
  intros Hwf Hnd Hmap Hsrc Hcol Hout Hi Hpos Hsmall.
  destruct (apply_mappings_row df mappings src amounts Hwf Hnd Hmap Hsrc Hcol
              out i a Hout Hi) as [Hin Hof].
  assert (Ein : inflow_of a = round2 a).
  { unfold inflow_of. apply Qltb_lt in Hpos. rewrite Hpos. reflexivity. }
  assert (Eof : outflow_of a = 0).
  { unfold outflow_of. destruct (Qltb a 0) eqn:E; [|reflexivity].
    apply Qltb_lt in E. exfalso. apply (Qlt_irrefl 0).
    apply Qlt_trans with a; assumption. }
  rewrite Ein in Hin. rewrite Eof in Hof.
  split; [|split].
  - exists (round2 a). split; [exact Hin|]. apply round2_small; assumption.
  - exact Hof.
  - intro Hone.
    destruct (apply_mappings_columns df mappings src amounts Hwf Hnd Hmap
                Hsrc Hcol out Hout)
      as (inflow & outflow & Einf & Eoutf & _ & Hlin & Hlof).
    pose proof (well_formed_column df src amounts Hwf Hcol) as Hlen.
    rewrite Hone in Hlen.
    destruct amounts as [|c [|c' rest]]; try discriminate.
    destruct i as [|i]; [|destruct i; discriminate].
    simpl in Hi. inversion Hi; subst c.
    simpl in Einf, Eoutf.
    rewrite inflow_lambda_num in Einf. rewrite outflow_lambda_num in Eoutf.
    simpl in Einf, Eoutf. inversion Einf; subst inflow.
    inversion Eoutf; subst outflow.
    rewrite (calculate_kpis_columns out _ _ Hlin Hlof).
    rewrite Ein, Eof. exists (round2 a). split; [reflexivity|].
    apply round2_small; assumption.
Qed.

Lemma tiny_amount_lost_witness :
  (exists x, cell_at (mkDF 1 [ ("Date", [Str "2024-01-05"]);
                               ("Payee", [Str "Shop1"]);
                               ("Memo", [Str ""]);
                               ("Inflow", [Num (round2 (1 # 1000))]);
                               ("Outflow", [Num 0]) ]) "Inflow" 0
             = Some (Num x) /\ x == 0) /\
  cell_at (mkDF 1 [ ("Date", [Str "2024-01-05"]);
                    ("Payee", [Str "Shop1"]);
                    ("Memo", [Str ""]);
                    ("Inflow", [Num (round2 (1 # 1000))]);
                    ("Outflow", [Num 0]) ]) "Outflow" 0 = Some (Num 0) /\
  (index_len (one_row (Num (1 # 1000))) = 1%nat ->
   exists total_inflow,
     calculate_kpis (mkDF 1 [ ("Date", [Str "2024-01-05"]);
                              ("Payee", [Str "Shop1"]);
                              ("Memo", [Str ""]);
                              ("Inflow", [Num (round2 (1 # 1000))]);
                              ("Outflow", [Num 0]) ])
       = inr (Num total_inflow, Num 0) /\
     total_inflow == 0).
Proof.
  apply (tiny_amount_lost (one_row (Num (1 # 1000))) swedbank "Belopp"
           [Num (1 # 1000)] _ 0 (1 # 1000)).
  - repeat constructor.
  - exact swedbank_dict.
  - reflexivity.
  - discriminate.
  - reflexivity.
  - reflexivity.
  - reflexivity.
  - reflexivity.
  - reflexivity.
Defined.

(* ================================================================== *)
(** * Reading the files of a batch *)

Section Batch.

Variable read_csv : UploadedFile -> exn + DataFrame.
Variable read_excel : UploadedFile -> exn + DataFrame.
Variable to_datetime : Series -> list (option Z).
Variable argsort : list Q -> list nat.

Local Abbreviation parse := (parse_transaction_file read_csv read_excel).
Local Abbreviation loop := (batch_loop read_csv read_excel).
Local Abbreviation run := (process read_csv read_excel to_datetime argsort).

(** What [parse_transaction_file] does, by reader and by what it returns. *)
Lemma parse_transaction_file_cases (file : UploadedFile) (file_type : string) :
  parse file file_type =
  match reader_of read_csv read_excel file_type with
  | Some read =>
      match read file with
      | inr df => ([], inr (Some df))
      | inl e => ([read_error_message file e], inr None)
      end
  | None => ([st_error "Unsupported file type!"], inr None)
  end.
Proof.
  unfold parse_transaction_file, reader_of.
  destruct (String.eqb file_type "Swedbank (csv)").
  - destruct (read_csv file); reflexivity.
  - destruct (String.eqb file_type "Coop Mastercard (xls & xlsx)").
    + destruct (read_excel file); reflexivity.
    + reflexivity.
Qed.

Lemma parse_never_raises (file : UploadedFile) (file_type : string) :
  exists r, outcome (parse file file_type) = inr r.
Proof.
  rewrite parse_transaction_file_cases.
  destruct (reader_of read_csv read_excel file_type) as [read|].
  - destruct (read file); eexists; reflexivity.
  - eexists; reflexivity.
Qed.

(** The registry and the parser know the same file types. *)
Lemma reader_of_registry (file_type : string) :
  lookup file_type COLUMN_MAPPINGS = None <->
  reader_of read_csv read_excel file_type = None.
Proof.
  unfold reader_of. simpl.
  destruct (String.eqb file_type "Swedbank (csv)");
    [split; discriminate|].
  destruct (String.eqb file_type "Coop Mastercard (xls & xlsx)");
    split; (discriminate || reflexivity).
Qed.

Lemma batch_loop_cons file rest file_type acc :
  loop (file :: rest) file_type acc =
  (tell (st_write ("Processing " ++ name file ++ "...")%string) ;;;
   transactions <- parse file file_type ;;
   match transactions with
   | Some transactions =>
       mappings <- lift (match lookup file_type COLUMN_MAPPINGS with
                         | Some m => inr m
                         | None => inl (KeyError file_type)
                         end) ;;
       mapped_transactions <- apply_mappings transactions mappings ;;
       loop rest file_type (acc ++ [mapped_transactions])
   | None => loop rest file_type acc
   end).
Proof. reflexivity. Qed.

(** One turn of the loop. *)
Lemma batch_loop_step_outcome file rest file_type acc :
  outcome (loop (file :: rest) file_type acc) =
  match outcome (parse file file_type) with
  | inl e => inl e
  | inr None => outcome (loop rest file_type acc)
  | inr (Some t) =>
      match lookup file_type COLUMN_MAPPINGS with
      | None => inl (KeyError file_type)
      | Some m =>
          match outcome (apply_mappings t m) with
          | inl e => inl e
          | inr mapped => outcome (loop rest file_type (acc ++ [mapped]))
          end
      end
  end.
Proof.
  rewrite batch_loop_cons. rewrite outcome_bind.
  change (outcome (tell (st_write ("Processing " ++ name file ++ "...")%string)))
    with (@inr exn unit tt).
  cbv iota. rewrite outcome_bind.
  destruct (outcome (parse file file_type)) as [e|[t|]]; cbv iota;
    try reflexivity.
  rewrite outcome_bind, outcome_lift.
  destruct (lookup file_type COLUMN_MAPPINGS) as [m|]; cbv iota;
    [|reflexivity].
  rewrite outcome_bind. reflexivity.
Qed.

Lemma batch_loop_step_log file rest file_type acc :
  log_of (loop (file :: rest) file_type acc) =
  st_write ("Processing " ++ name file ++ "...")%string ::
  log_of (parse file file_type) ++
  match outcome (parse file file_type) with
  | inl e => []
  | inr None => log_of (loop rest file_type acc)
  | inr (Some t) =>
      match lookup file_type COLUMN_MAPPINGS with
      | None => []
      | Some m =>
          log_of (apply_mappings t m) ++
          match outcome (apply_mappings t m) with
          | inl e => []
          | inr mapped => log_of (loop rest file_type (acc ++ [mapped]))
          end
      end
  end.
Proof.
  rewrite batch_loop_cons. rewrite log_bind.
  change (outcome (tell (st_write ("Processing " ++ name file ++ "...")%string)))
    with (@inr exn unit tt).
  change (log_of (tell (st_write ("Processing " ++ name file ++ "...")%string)))
    with [st_write ("Processing " ++ name file ++ "...")%string].
  cbv iota. cbn [app]. f_equal.
  rewrite log_bind. f_equal.
  destruct (outcome (parse file file_type)) as [e|[t|]]; cbv iota;
    try reflexivity.
  rewrite log_bind_lift.
  destruct (lookup file_type COLUMN_MAPPINGS) as [m|]; cbv iota;
    [|reflexivity].
  rewrite log_bind. reflexivity.
Qed.

(** The loop over two lists of files, one after the other. *)
Lemma batch_loop_app_outcome before after file_type :
  forall acc,
  outcome (loop (before ++ after) file_type acc) =
  match outcome (loop before file_type acc) with
  | inl e => inl e
  | inr done => outcome (loop after file_type done)
  end.
Proof.
  induction before as [|file before IH]; intro acc.
  - reflexivity.
  - change ((file :: before) ++ after) with (file :: (before ++ after)).
    rewrite !batch_loop_step_outcome.
    destruct (outcome (parse file file_type)) as [e|[t|]]; auto.
    destruct (lookup file_type COLUMN_MAPPINGS) as [m|]; auto.
    destruct (outcome (apply_mappings t m)) as [e|mapped]; auto.
Qed.

Lemma batch_loop_app_log before after file_type :
  forall acc,
  log_of (loop (before ++ after) file_type acc) =
  log_of (loop before file_type acc) ++
  match outcome (loop before file_type acc) with
  | inl e => []
  | inr done => log_of (loop after file_type done)
  end.
Proof.
  induction before as [|file before IH]; intro acc.
  - reflexivity.
  - change ((file :: before) ++ after) with (file :: (before ++ after)).
    rewrite !batch_loop_step_log, batch_loop_step_outcome.
    rewrite <- app_comm_cons. f_equal. rewrite <- app_assoc. f_equal.
    destruct (outcome (parse file file_type)) as [e|[t|]]; auto.
    destruct (lookup file_type COLUMN_MAPPINGS) as [m|]; auto.
    rewrite <- app_assoc. f_equal.
    destruct (outcome (apply_mappings t m)) as [e|mapped]; auto.
Qed.


Lemma process_outcome files file_type :
  outcome (run files file_type) =
  match outcome (loop files file_type []) with
  | inl e => inl e
  | inr [] => inr None
  | inr (t :: ts) =>
      match merge to_datetime argsort (t :: ts) with
      | inl e => inl e
      | inr combined_df => inr (Some combined_df)
      end
  end.
Proof.
  unfold process. destruct files as [|file files]; [reflexivity|].
  rewrite outcome_bind.
  destruct (outcome (loop (file :: files) file_type [])) as [e|[|t ts]];
    try reflexivity.
  rewrite outcome_bind, outcome_lift.
  destruct (merge to_datetime argsort (t :: ts)); reflexivity.
Qed.

End Batch.

Section BatchProperties.

Variable read_csv : UploadedFile -> exn + DataFrame.
Variable read_excel : UploadedFile -> exn + DataFrame.
Variable to_datetime : Series -> list (option Z).
Variable argsort : list Q -> list nat.

Local Abbreviation parse := (parse_transaction_file read_csv read_excel).
Local Abbreviation loop := (batch_loop read_csv read_excel).
Local Abbreviation run := (process read_csv read_excel to_datetime argsort).

(** A file that cannot be read is passed over. *)
Lemma batch_loop_skip file rest file_type acc :
  outcome (parse file file_type) = inr None ->
  outcome (loop (file :: rest) file_type acc) =
  outcome (loop rest file_type acc).
Proof.
  intro H. rewrite batch_loop_step_outcome, H. reflexivity.
Qed.

(** C7: for a format name that is not in the registry, parsing a file
    reports "Unsupported file type!" and returns no table; the loop over a
    batch collects nothing and the script produces no dataset. *)
Theorem unknown_format_no_rows (file_type : string) :
  lookup file_type COLUMN_MAPPINGS = None ->
  (forall file,
     parse file file_type = ([st_error "Unsupported file type!"], inr None)) /\
  (forall files acc, outcome (loop files file_type acc) = inr acc) /\
  (forall files, outcome (run files file_type) = inr None).
Proof.
  intro Hnone.
  assert (Hparse : forall file,
    parse file file_type = ([st_error "Unsupported file type!"], inr None)).
  { intro file. rewrite parse_transaction_file_cases.
    apply (reader_of_registry read_csv read_excel) in Hnone.
    rewrite Hnone. reflexivity. }
  assert (Hloop : forall files acc, outcome (loop files file_type acc) = inr acc).
  { induction files as [|file files IH]; intro acc; [reflexivity|].
    rewrite batch_loop_skip; [apply IH|]. rewrite Hparse. reflexivity. }
  split; [exact Hparse|]. split; [exact Hloop|].
  intro files. rewrite process_outcome, Hloop. reflexivity.
Qed.


End BatchProperties.

Lemma unknown_format_no_rows_witness :
  (forall file,
     parse_transaction_file example_read_csv example_read_excel file
       "Unknown Bank"
     = ([st_error "Unsupported file type!"], inr None)) /\
  (forall files acc,
     outcome (batch_loop example_read_csv example_read_excel files
                "Unknown Bank" acc) = inr acc) /\
  (forall files,
     outcome (process example_read_csv example_read_excel example_to_datetime
                NumPy.argsort files "Unknown Bank") = inr None).
Proof.
  apply (unknown_format_no_rows example_read_csv example_read_excel
           example_to_datetime NumPy.argsort "Unknown Bank").
  reflexivity.
Defined.


(* ================================================================== *)
(** * Positions and selections *)

Lemma nonzero_from_filter {A} (f : A -> bool) (d : A) (l : list A) :
  forall k pre, length pre = k ->
  nonzero_from k (map f l) =
  filter (fun i => f (nth i (pre ++ l) d)) (seq k (length l)).
Proof.
  induction l as [|x l IH]; intros k pre Hk; [reflexivity|].
  subst k. simpl. rewrite nth_middle.
  rewrite (IH (S (length pre)) (pre ++ [x])).
  - rewrite <- app_assoc. simpl. destruct (f x); reflexivity.
  - rewrite length_app. simpl. lia.
Qed.

(** The true positions of a mask computed from a list. *)
Lemma nonzero_filter {A} (f : A -> bool) (d : A) (l : list A) :
  nonzero (map f l) = filter (fun i => f (nth i l d)) (seq 0 (length l)).
Proof. exact (nonzero_from_filter f d l 0%nat [] eq_refl). Qed.

Lemma map_nth_seq_from {A} (d : A) (l : list A) :
  forall pre,
  map (fun i => nth i (pre ++ l) d) (seq (length pre) (length l)) = l.
Proof.
  induction l as [|x l IH]; intro pre; [reflexivity|].
  simpl. rewrite nth_middle. f_equal.
  specialize (IH (pre ++ [x])).
  rewrite length_app, <- app_assoc in IH. simpl in IH.
  rewrite Nat.add_1_r in IH. exact IH.
Qed.

Lemma map_nth_seq {A} (d : A) (l : list A) :
  map (fun i => nth i l d) (seq 0 (length l)) = l.
Proof. exact (map_nth_seq_from d l []). Qed.

Lemma map_filter_comm {A B} (g : A -> B) (f : B -> bool) (l : list A) :
  map g (filter (fun x => f (g x)) l) = filter f (map g l).
Proof.
  induction l as [|x l IH]; [reflexivity|].
  simpl. destruct (f (g x)); simpl; congruence.
Qed.

(** Taking the positions where [f] holds gives the elements where it holds. *)
Lemma take_nonzero {A} (f : A -> bool) (d : A) (l : list A) :
  map (fun i => nth i l d) (nonzero (map f l)) = filter f l.
Proof.
  rewrite (nonzero_filter f d).
  rewrite (map_filter_comm (fun i => nth i l d) f).
  rewrite map_nth_seq. reflexivity.
Qed.

Lemma take_rows_column (idx : list nat) (df : DataFrame) (k : string) :
  lookup k (columns (take_rows idx df)) =
  option_map (fun s => map (fun i => nth i s NaN) idx)
             (lookup k (columns df)).
Proof.
  unfold take_rows. simpl.
  exact (lookup_map_snd (fun _ s => map (fun i => nth i s NaN) idx)
           k (columns df)).
Qed.

Lemma emap_gt0 (s : Series) :
  Forall (fun c => is_num_or_nan c = true) s ->
  emap gt0 s = inr (map positive_cell s).
Proof.
  intro H. apply emap_pure.
  eapply Forall_impl; [|exact H].
  intros [] Hc; try discriminate; reflexivity.
Qed.

Lemma filter_positive_cell (s : Series) :
  filter positive_cell s = map Num (filter (Qltb 0) (numbers s)).
Proof.
  induction s as [|c s IH]; [reflexivity|].
  destruct c; simpl; try exact IH.
  destruct (Qltb 0 q); simpl; congruence.
Qed.

(** The rows with a positive value in a column of numbers. *)
Lemma rows_gt0_numeric (df : DataFrame) (k : string) (s : Series) :
  lookup k (columns df) = Some s ->
  Forall (fun c => is_num_or_nan c = true) s ->
  rows_gt0 df k = inr (take_rows (nonzero (map positive_cell s)) df).
Proof.
  intros Hk Hs. unfold rows_gt0, getitem. rewrite Hk. simpl.
  rewrite (emap_gt0 s Hs). reflexivity.
Qed.

Lemma filter_notna_nums (qs : list Q) :
  filter (fun c => negb (isna c)) (map Num qs) = map Num qs.
Proof.
  induction qs as [|q qs IH]; [reflexivity|]. simpl. congruence.
Qed.

Lemma Series_mean_nums (q : Q) (qs : list Q) :
  exists mean,
    Series_mean (map Num (q :: qs)) = inr (Num mean) /\
    mean == Qsum (q :: qs) / inject_Z (Z.of_nat (length (q :: qs))).
Proof.
  unfold Series_mean. rewrite filter_notna_nums.
  destruct (nansum_float_nums (q :: qs)) as (x & Hx & Ex).
  change (map Num (q :: qs)) with (Num q :: map Num qs) at 1.
  cbv iota. rewrite Hx. simpl ebind.
  eexists. split; [reflexivity|].
  rewrite length_map. rewrite Ex. reflexivity.
Qed.

(* ================================================================== *)
(** * The average outflow *)

(** C9: [average_outflow] is the arithmetic mean of the Outflow values that
    are greater than zero, and 0 when no Outflow is greater than zero. *)
Theorem average_outflow_mean (df : DataFrame) (outs : Series) :
  lookup "Outflow" (columns df) = Some outs ->
  Forall (fun c => is_num_or_nan c = true) outs ->
  let positive := filter (Qltb 0) (numbers outs) in
  (positive = [] -> average_outflow df = inr (Num 0)) /\
  (positive <> [] ->
   exists mean,
     average_outflow df = inr (Num mean) /\
     mean == Qsum positive / inject_Z (Z.of_nat (length positive))).
Proof.
  intros Hcol Hnum positive.
  unfold average_outflow.
  rewrite (rows_gt0_numeric df "Outflow" outs Hcol Hnum). simpl ebind.
  set (idx := nonzero (map positive_cell outs)).
  assert (Hsel : getitem (take_rows idx df) "Outflow"
                 = inr (map Num positive)).
  { unfold getitem. rewrite take_rows_column, Hcol. simpl.
    unfold idx. rewrite (take_nonzero positive_cell NaN outs).
    rewrite filter_positive_cell. reflexivity. }
  assert (Hlen : length idx = length positive).
  { unfold getitem in Hsel. rewrite take_rows_column, Hcol in Hsel.
    simpl in Hsel. inversion Hsel as [Hmap].
    rewrite <- (length_map (fun i => nth i outs NaN) idx), Hmap.
    apply length_map. }
  assert (Hcols : (length (columns (take_rows idx df)) =? 0)%nat = false).
  { apply Nat.eqb_neq. unfold take_rows. simpl. rewrite length_map.
    apply lookup_In in Hcol. destruct (columns df); [destruct Hcol|].
    simpl. lia. }
  unfold DataFrame_empty. rewrite Hcols, orb_false_r.
  change (index_len (take_rows idx df)) with (length idx). rewrite Hlen.
  split.
  - intro Hnil. rewrite Hnil. reflexivity.
  - intro Hne. destruct positive as [|q qs] eqn:Epos; [congruence|].
    simpl Nat.eqb. simpl negb. cbv iota.
    rewrite Hsel. simpl ebind.
    exact (Series_mean_nums q qs).
Qed.

Lemma average_outflow_mean_witness :
  let positive := filter (Qltb 0) [round2 (- -10)] in
  (positive = [] -> average_outflow normalized_a = inr (Num 0)) /\
  (positive <> [] ->
   exists mean,
     average_outflow normalized_a = inr (Num mean) /\
     mean == Qsum positive / inject_Z (Z.of_nat (length positive))).
Proof.
  apply (average_outflow_mean normalized_a [Num (round2 (- -10))]).
  - reflexivity.
  - repeat constructor.
Defined.

(* ================================================================== *)
(** * Sorting by positions *)

Lemma sorted_b_Sorted (l : list Q) : sorted_b l = true -> Sorted Qle l.
Proof.
  induction l as [|x [|y l] IH]; intro H.
  - constructor.
  - repeat constructor.
  - simpl in H. apply andb_true_iff in H. destruct H as [Hxy Hs].
    constructor; [apply IH; exact Hs|].
    constructor. apply Qle_bool_iff. exact Hxy.
Qed.

Lemma sorted_b_StronglySorted (l : list Q) :
  sorted_b l = true -> StronglySorted Qle l.
Proof.
  intro H. apply Sorted_StronglySorted.
  - intros x y z. apply Qle_trans.
  - apply sorted_b_Sorted. exact H.
Qed.

(** What [is_argsort] says. *)
Lemma is_argsort_spec (values : list Q) (idx : list nat) :
  is_argsort values idx = true ->
  Permutation idx (seq 0 (length values)) /\
  StronglySorted Qle (map (fun i => nth i values 0) idx).
Proof.
  unfold is_argsort. intro H.
  apply andb_true_iff in H. destruct H as [H Hsorted].
  apply andb_true_iff in H. destruct H as [Hlen Hall].
  apply Nat.eqb_eq in Hlen. split.
  - symmetry. apply NoDup_Permutation_bis.
    + apply seq_NoDup.
    + rewrite length_seq. lia.
    + intros i Hi. rewrite forallb_forall in Hall.
      specialize (Hall i Hi). apply existsb_exists in Hall.
      destruct Hall as (j & Hj & Hij). apply Nat.eqb_eq in Hij.
      subst j. exact Hj.
  - apply sorted_b_StronglySorted. exact Hsorted.
Qed.

Lemma Permutation_seq_bound (idx : list nat) (n : nat) :
  Permutation idx (seq 0 n) -> forall i, In i idx -> (i < n)%nat.
Proof.
  intros Hp i Hi. apply (Permutation_in _ Hp) in Hi.
  apply in_seq in Hi. lia.
Qed.

(** Reading a list through a permutation of its positions permutes it. *)
Lemma Permutation_take {A} (d : A) (l : list A) (idx : list nat) :
  Permutation idx (seq 0 (length l)) ->
  Permutation (map (fun i => nth i l d) idx) l.
Proof.
  intro Hp.
  apply Permutation_trans with (map (fun i => nth i l d) (seq 0 (length l))).
  - apply Permutation_map. exact Hp.
  - rewrite map_nth_seq. apply Permutation_refl.
Qed.

Lemma Permutation_filter_split {A} (f : A -> bool) (l : list A) :
  Permutation (filter f l ++ filter (fun x => negb (f x)) l) l.
Proof.
  induction l as [|x l IH]; [constructor|].
  simpl. destruct (f x); simpl.
  - constructor. exact IH.
  - apply Permutation_sym. apply Permutation_cons_app.
    apply Permutation_sym. exact IH.
Qed.

Lemma take_compose {A} (d : A) (l : list A) (P idx : list nat) :
  map (fun i => nth i l d) (map (fun i => nth i P 0%nat) idx) =
  map (fun i => nth i (map (fun j => nth j l d) P) (nth 0 l d)) idx.
Proof.
  rewrite map_map. apply map_ext. intro i.
  symmetry. exact (map_nth (fun j => nth j l d) P 0%nat i).
Qed.

Lemma nth_map_in {A B} (g : A -> B) (l : list A) (d : A) (d' : B) (i : nat) :
  (i < length l)%nat -> nth i (map g l) d' = g (nth i l d).
Proof.
  intro H. rewrite (nth_indep (map g l) d' (g d)).
  - apply map_nth.
  - rewrite length_map. exact H.
Qed.

Lemma filter_is_some {A} (l : list (option A)) :
  filter is_some l = map Some (somes l).
Proof.
  induction l as [|[a|] l IH]; simpl; congruence.
Qed.

Lemma filter_none {A} (l : list (option A)) :
  Forall (fun o => o = None) (filter (fun o => negb (is_some o)) l).
Proof.
  induction l as [|[a|] l IH]; simpl; auto.
Qed.

Lemma map_take_seq {A B} (g : A -> B) (d : A) (l : list A) :
  map (fun k => g (nth k l d)) (seq 0 (length l)) = map g l.
Proof.
  rewrite <- (map_map (fun k => nth k l d) g).
  rewrite map_nth_seq. reflexivity.
Qed.

Lemma map_filter_take_seq {A B} (g : A -> B) (q : A -> bool) (d : A)
  (l : list A) :
  map (fun k => g (nth k l d))
      (filter (fun k => q (nth k l d)) (seq 0 (length l)))
  = map g (filter q l).
Proof.
  rewrite <- (map_map (fun k => nth k l d) g).
  rewrite (map_filter_comm (fun k => nth k l d) q).
  rewrite map_nth_seq. reflexivity.
Qed.

Section Nargsort.

Variable argsort : list Q -> list nat.
Variable items : list (option Q).

Local Abbreviation present := (nonzero (map is_some items)).
Local Abbreviation missing :=
  (nonzero (map (fun o => negb (is_some o)) items)).

Hypothesis argsort_ok : is_argsort (somes items) (argsort (somes items)) = true.

Lemma nargsort_ascending :
  nargsort argsort items true =
  map (fun i => nth i present 0%nat) (argsort (somes items)) ++ missing.
Proof. reflexivity. Qed.

Lemma present_items :
  map (fun i => nth i items None) present = map Some (somes items).
Proof.
  rewrite (take_nonzero is_some None items).
  apply filter_is_some.
Qed.

Lemma present_length : length present = length (somes items).
Proof.
  rewrite <- (length_map (fun i => nth i items None) present).
  rewrite present_items. apply length_map.
Qed.

Lemma missing_items :
  Forall (fun i => nth i items None = None) missing.
Proof.
  pose proof (filter_none items) as H.
  rewrite <- (take_nonzero (fun o => negb (is_some o)) None items) in H.
  rewrite Forall_map in H. exact H.
Qed.

Lemma present_missing_positions :
  Permutation (present ++ missing) (seq 0 (length items)).
Proof.
  rewrite (nonzero_filter is_some None items).
  rewrite (nonzero_filter (fun o => negb (is_some o)) None items).
  apply (Permutation_filter_split (fun i => is_some (nth i items None))).
Qed.

(** The positions chosen by the sort are all the positions. *)
Lemma nargsort_ascending_positions :
  Permutation (nargsort argsort items true) (seq 0 (length items)).
Proof.
  rewrite nargsort_ascending.
  destruct (is_argsort_spec _ _ argsort_ok) as [Hperm _].
  rewrite <- present_length in Hperm.
  rewrite <- present_missing_positions.
  apply Permutation_app_tail.
  apply Permutation_take. exact Hperm.
Qed.

(** The present values appear in ascending order. *)
Lemma nargsort_ascending_present :
  map (fun i => nth i items None)
      (map (fun i => nth i present 0%nat) (argsort (somes items)))
  = map Some (map (fun i => nth i (somes items) 0) (argsort (somes items))).
Proof.
  destruct (is_argsort_spec _ _ argsort_ok) as [Hperm _].
  rewrite take_compose, present_items, map_map.
  apply map_ext_in. intros i Hi.
  apply nth_map_in.
  exact (Permutation_seq_bound _ _ Hperm i Hi).
Qed.

End Nargsort.

(* ================================================================== *)
(** * The merged dataset *)

Lemma flat_map_length_sum {A B} (g : A -> list B) (h : A -> nat) (l : list A) :
  Forall (fun x => length (g x) = h x) l ->
  length (flat_map g l) = list_sum (map h l).
Proof.
  induction 1 as [|x l Hx _ IH]; [reflexivity|].
  simpl. rewrite length_app, Hx, IH. reflexivity.
Qed.

Lemma pd_concat_well_formed (frames : list DataFrame) :
  Forall well_formed frames -> well_formed (pd_concat frames).
Proof.
  intro Hwf. unfold well_formed, pd_concat. simpl.
  apply Forall_map. apply Forall_forall. intros nm _. simpl.
  apply flat_map_length_sum.
  eapply Forall_impl; [|exact Hwf]. intros f Hf.
  destruct (lookup nm (columns f)) as [s|] eqn:E.
  - exact (well_formed_column f nm s Hf E).
  - apply repeat_length.
Qed.

Lemma emap_sort_key_dates (dates : list (option Z)) :
  emap sort_key (map datetime_cell dates)
  = inr (map (option_map inject_Z) dates).
Proof.
  induction dates as [|[t|] dates IH]; simpl; [reflexivity| |];
    rewrite IH; reflexivity.
Qed.

Lemma somes_map {A B} (g : A -> B) (l : list (option A)) :
  somes (map (option_map g) l) = map g (somes l).
Proof.
  induction l as [|[a|] l IH]; simpl; congruence.
Qed.

Lemma date_cell_present (dates : list (option Z)) :
  forall i v,
  nth i (map (option_map inject_Z) dates) None = Some v ->
  exists t, nth i (map datetime_cell dates) NaN = Time t /\ v = inject_Z t.
Proof.
  induction dates as [|d dates IH]; intros i v H.
  - destruct i; discriminate.
  - destruct i as [|i].
    + destruct d as [t|]; simpl in H; [|discriminate].
      inversion H. exists t. split; reflexivity.
    + exact (IH i v H).
Qed.

Lemma date_cell_is_NaT (dates : list (option Z)) :
  forall i, (i < length dates)%nat ->
  is_NaT (nth i (map datetime_cell dates) NaN)
  = negb (is_some (nth i (map (option_map inject_Z) dates) None)).
Proof.
  induction dates as [|d dates IH]; intros i Hi; simpl in Hi; [lia|].
  destruct i as [|i].
  - destruct d; reflexivity.
  - apply IH. lia.
Qed.

Lemma row_take_rows (idx : list nat) (df : DataFrame) (k : nat) :
  (k < length idx)%nat ->
  row (take_rows idx df) k = row df (nth k idx 0%nat).
Proof.
  intro Hk. unfold row, take_rows. simpl. rewrite map_map.
  apply map_ext. intro kv. simpl.
  exact (nth_map_in (fun i => nth i (snd kv) NaN) idx 0%nat NaN k Hk).
Qed.

Lemma rows_take_rows (idx : list nat) (df : DataFrame) :
  rows (take_rows idx df) = map (row df) idx.
Proof.
  unfold rows. change (index_len (take_rows idx df)) with (length idx).
  rewrite <- (map_take_seq (row df) 0%nat idx).
  apply map_ext_in. intros k Hk. apply in_seq in Hk.
  apply row_take_rows. lia.
Qed.

Lemma column_lookup (df : DataFrame) (k : string) (s : Series) :
  lookup k (columns df) = Some s -> column df k = s.
Proof. intro H. unfold column. rewrite H. reflexivity. Qed.

Lemma rows_where_take_rows (p : cell -> bool) (idx : list nat)
  (df : DataFrame) (D : Series) :
  lookup "Date" (columns df) = Some D ->
  rows_where p (take_rows idx df)
  = map (row df) (filter (fun i => p (nth i D NaN)) idx).
Proof.
  intro HD. unfold rows_where.
  rewrite (column_lookup (take_rows idx df) "Date"
             (map (fun i => nth i D NaN) idx))
    by (rewrite take_rows_column, HD; reflexivity).
  change (index_len (take_rows idx df)) with (length idx).
  rewrite <- (map_filter_take_seq (row df) (fun i => p (nth i D NaN))
                0%nat idx).
  rewrite (filter_ext_in
             (fun k => p (nth k (map (fun i => nth i D NaN) idx) NaN))
             (fun k => p (nth (nth k idx 0%nat) D NaN))).
  - apply map_ext_in. intros k Hk. apply filter_In in Hk.
    destruct Hk as [Hk _]. apply in_seq in Hk.
    apply row_take_rows. lia.
  - intros k Hk. apply in_seq in Hk. f_equal.
    apply (nth_map_in (fun i => nth i D NaN) idx 0%nat NaN k). lia.
Qed.

Lemma filter_none_hold {A} (q : A -> bool) (l : list A) :
  Forall (fun x => q x = false) l -> filter q l = [].
Proof.
  induction 1 as [|x l Hx _ IH]; [reflexivity|]. simpl. rewrite Hx. exact IH.
Qed.

Lemma filter_all_hold {A} (q : A -> bool) (l : list A) :
  Forall (fun x => q x = true) l -> filter q l = l.
Proof.
  induction 1 as [|x l Hx _ IH]; [reflexivity|].
  simpl. rewrite Hx, IH. reflexivity.
Qed.

Lemma map_eq_Forall2 {A B C} (f : A -> C) (g : B -> C) (l : list A) :
  forall l', map f l = map g l' -> Forall2 (fun x y => f x = g y) l l'.
Proof.
  induction l as [|x l IH]; intros [|y l'] H; try discriminate.
  - constructor.
  - simpl in H. inversion H. constructor; auto.
Qed.

Lemma date_le_NaT (tail : Series) (c : cell) :
  Forall (fun c' => c' = NaT) tail -> Forall (date_le c) tail.
Proof.
  intro H. eapply Forall_impl; [|exact H].
  intros c' ->. destruct c; exact I.
Qed.

Lemma date_sorted_missing (tail : Series) :
  Forall (fun c => c = NaT) tail -> StronglySorted date_le tail.
Proof.
  induction 1 as [|c tail Hc Htail IH]; constructor.
  - exact IH.
  - apply date_le_NaT. exact Htail.
Qed.

(** Timestamps in ascending order followed by missing timestamps are in
    date order. *)
Lemma date_sorted_app (cells : Series) (keys : list Q) (tail : Series) :
  Forall2 (fun c v => exists t, c = Time t /\ v = inject_Z t) cells keys ->
  StronglySorted Qle keys ->
  Forall (fun c => c = NaT) tail ->
  StronglySorted date_le (cells ++ tail).
Proof.
  intros H2 Hs Htail. induction H2 as [|c v cells keys (t & -> & ->) H2 IH].
  - simpl. apply date_sorted_missing. exact Htail.
  - apply StronglySorted_inv in Hs. destruct Hs as [Hs Hall].
    simpl. constructor; [apply IH; exact Hs|].
    apply Forall_app. split.
    + clear IH Hs. induction H2 as [|c' v' cells keys (t' & -> & ->) H2 IH].
      * constructor.
      * inversion Hall as [|? ? Hle Hall']; subst.
        constructor; [|apply IH; exact Hall'].
        simpl. rewrite Zle_Qle. exact Hle.
    + apply date_le_NaT. exact Htail.
Qed.

Section Merge.

Variable to_datetime : Series -> list (option Z).
Variable argsort : list Q -> list nat.
Variable all_transactions : list DataFrame.

Hypothesis frames_wf : Forall well_formed all_transactions.

Local Abbreviation combined := (pd_concat all_transactions).
Local Abbreviation dates := (to_datetime (column combined "Date")).
Local Abbreviation items := (map (option_map inject_Z) dates).
Local Abbreviation dated := (with_dates to_datetime all_transactions).

Hypothesis dates_length : length dates = length (column combined "Date").

(** The merge, when the tables have a Date column. *)
Lemma merge_outcome (date : Series) :
  lookup "Date" (columns combined) = Some date ->
  dated = mkDF (index_len combined)
               (assign "Date" (map datetime_cell dates) (columns combined)) /\
  merge to_datetime argsort all_transactions
  = inr (take_rows (nargsort argsort items true) dated).
Proof.
  intro Hdate.
  assert (Hcol : column combined "Date" = date)
    by (apply column_lookup; exact Hdate).
  assert (Hlen : length (map datetime_cell dates) = index_len combined).
  { rewrite length_map, dates_length, Hcol.
    apply (well_formed_column combined "Date" date); [|exact Hdate].
    apply pd_concat_well_formed. exact frames_wf. }
  assert (Hdated : dated = mkDF (index_len combined)
               (assign "Date" (map datetime_cell dates) (columns combined))).
  { unfold with_dates. apply setitem_series_same. exact Hlen. }
  split; [exact Hdated|].
  unfold merge, getitem at 1. rewrite Hdate. simpl ebind.
  rewrite <- Hcol.
  change (setitem_series combined "Date" (map datetime_cell dates))
    with dated.
  unfold sort_values, getitem. rewrite Hdated at 1. simpl columns.
  rewrite lookup_assign_same. simpl ebind.
  rewrite emap_sort_key_dates. reflexivity.
Qed.

Lemma merge_without_date :
  lookup "Date" (columns combined) = None ->
  merge to_datetime argsort all_transactions = inl (KeyError "Date").
Proof.
  intro H. unfold merge, getitem. rewrite H. reflexivity.
Qed.

(** The merge reads the dated table through a permutation of its rows. *)
Lemma merge_rows (date : Series) :
  lookup "Date" (columns combined) = Some date ->
  is_argsort (date_keys to_datetime all_transactions)
             (argsort (date_keys to_datetime all_transactions)) = true ->
  exists indexer,
    Permutation indexer (seq 0 (index_len combined)) /\
    merge to_datetime argsort all_transactions
    = inr (take_rows indexer dated).
Proof.
  intros Hdate Hok.
  destruct (merge_outcome date Hdate) as [_ Hout].
  exists (nargsort argsort items true). split; [|exact Hout].
  assert (Hn : length items = index_len combined).
  { rewrite length_map, dates_length.
    rewrite (column_lookup combined "Date" date Hdate).
    apply (well_formed_column combined "Date" date); [|exact Hdate].
    apply pd_concat_well_formed. exact frames_wf. }
  rewrite <- Hn. apply nargsort_ascending_positions.
  rewrite somes_map. exact Hok.
Qed.

End Merge.

Lemma Forall2_map_left {A B C} (R : A -> C -> Prop) (R' : B -> C -> Prop)
  (g : A -> B) (l : list A) (l' : list C) :
  (forall x y, R x y -> R' (g x) y) ->
  Forall2 R l l' -> Forall2 R' (map g l) l'.
Proof.
  intros HR H. induction H; simpl; constructor; auto.
Qed.

Lemma Forall2_left {A C} (R : A -> C -> Prop) (P : A -> Prop)
  (l : list A) (l' : list C) :
  (forall x y, R x y -> P x) -> Forall2 R l l' -> Forall P l.
Proof.
  intros HR H. induction H; constructor; eauto.
Qed.

(** C2, amended: the merged dataset has the rows of the concatenated
    tables, in ascending date order with the rows whose date cannot be
    parsed last, and these keep the order they had in the concatenation.
    The order among rows of one parseable date is the one the sort leaves. *)
Theorem merge_sorted_by_date
  (to_datetime : Series -> list (option Z)) (argsort : list Q -> list nat)
  (all_transactions : list DataFrame) (out : DataFrame) :
  Forall well_formed all_transactions ->
  length (to_datetime (column (pd_concat all_transactions) "Date"))
  = length (column (pd_concat all_transactions) "Date") ->
  is_argsort (date_keys to_datetime all_transactions)
             (argsort (date_keys to_datetime all_transactions)) = true ->
  merge to_datetime argsort all_transactions = inr out ->
  StronglySorted date_le (column out "Date") /\
  Permutation (rows out) (rows (with_dates to_datetime all_transactions)) /\
  rows_where is_NaT out
  = rows_where is_NaT (with_dates to_datetime all_transactions).
Proof.
  intros Hwf Hlen Hargsort Hmerge.
  set (combined := pd_concat all_transactions) in *.
  set (dates := to_datetime (column combined "Date")) in *.
  set (items := map (option_map inject_Z) dates).
  set (D := map datetime_cell dates).
  destruct (lookup "Date" (columns combined)) as [date|] eqn:Hdate.
  2:{ rewrite (merge_without_date to_datetime argsort all_transactions Hdate)
        in Hmerge. discriminate. }
  destruct (merge_outcome to_datetime argsort all_transactions Hwf Hlen
              date Hdate) as [Hdated Hout].
  fold combined dates items D in Hdated, Hout.
  rewrite Hout in Hmerge. injection Hmerge as Hout'. subst out.
  assert (Hok : is_argsort (somes items) (argsort (somes items)) = true).
  { unfold items. rewrite somes_map. exact Hargsort. }
  assert (HDcol : lookup "Date"
                    (columns (with_dates to_datetime all_transactions))
                  = Some D).
  { rewrite Hdated. simpl. apply lookup_assign_same. }
  assert (Hn : length items = index_len combined).
  { unfold items. rewrite length_map. fold dates in Hlen. rewrite Hlen.
    rewrite (column_lookup combined "Date" date Hdate).
    apply (well_formed_column combined "Date" date); [|exact Hdate].
    apply pd_concat_well_formed. exact Hwf. }
  assert (Hn' : length dates = length items)
    by (unfold items; rewrite length_map; reflexivity).
  assert (Hdn : index_len (with_dates to_datetime all_transactions)
                = length items)
    by (rewrite Hdated, Hn; reflexivity).
  destruct (is_argsort_spec _ _ Hok) as [Hperm Hsorted].
  pose proof (nargsort_ascending_present argsort items Hok) as Hpresent.
  pose proof (missing_items items) as Hmissing.
  set (part1 := map (fun i => nth i (nonzero (map is_some items)) 0%nat)
                    (argsort (somes items))) in *.
  set (missing := nonzero (map (fun o => negb (is_some o)) items)) in *.
  assert (Hidx : nargsort argsort items true = part1 ++ missing)
    by reflexivity.
  assert (Hmissing_bound : Forall (fun i => (i < length items)%nat) missing).
  { unfold missing.
    rewrite (nonzero_filter (fun o => negb (is_some o)) None items).
    apply Forall_forall. intros i Hi. apply filter_In in Hi.
    destruct Hi as [Hi _]. apply in_seq in Hi. lia. }
  assert (Hmissing_NaT : Forall (fun i => nth i D NaN = NaT) missing).
  { apply Forall_forall. intros i Hi.
    rewrite Forall_forall in Hmissing, Hmissing_bound.
    pose proof (date_cell_is_NaT dates i) as H.
    fold D items in H. rewrite (Hmissing i Hi) in H.
    specialize (H ltac:(rewrite Hn'; exact (Hmissing_bound i Hi))).
    simpl in H. destruct (nth i D NaN); try discriminate. reflexivity. }
  assert (Hpart1 : Forall2 (fun i v => exists t, nth i D NaN = Time t
                                                 /\ v = inject_Z t)
                     part1
                     (map (fun i => nth i (somes items) 0)
                          (argsort (somes items)))).
  { apply map_eq_Forall2 in Hpresent.
    eapply Forall2_impl; [|exact Hpresent].
    intros i v Hiv. exact (date_cell_present dates i v Hiv). }
  split; [|split].
  - rewrite (column_lookup _ "Date" (map (fun i => nth i D NaN)
                                        (nargsort argsort items true)))
      by (rewrite take_rows_column, HDcol; reflexivity).
    rewrite Hidx, map_app.
    apply (date_sorted_app _
             (map (fun i => nth i (somes items) 0) (argsort (somes items)))).
    + eapply Forall2_map_left; [|exact Hpart1]. intros i v H. exact H.
    + exact Hsorted.
    + apply Forall_map. exact Hmissing_NaT.
  - rewrite rows_take_rows. unfold rows.
    apply Permutation_map. rewrite Hdn.
    exact (nargsort_ascending_positions argsort items Hok).
  - rewrite (rows_where_take_rows is_NaT _ _ D HDcol).
    unfold rows_where. rewrite (column_lookup _ "Date" D HDcol).
    f_equal. rewrite Hidx, filter_app.
    rewrite filter_none_hold.
    2:{ eapply Forall2_left; [|exact Hpart1].
        intros i v (t & Ht & _). simpl. rewrite Ht. reflexivity. }
    rewrite filter_all_hold.
    2:{ eapply Forall_impl; [|exact Hmissing_NaT].
        intros i Hi. simpl. rewrite Hi. reflexivity. }
    simpl. unfold missing.
    rewrite (nonzero_filter (fun o => negb (is_some o)) None items).
    rewrite Hdn.
    apply filter_ext_in. intros i Hi. apply in_seq in Hi.
    symmetry. apply (date_cell_is_NaT dates i). lia.
Qed.

Lemma merge_sorted_by_date_witness :
  StronglySorted date_le
    (column (frame_or_empty (merge example_to_datetime NumPy.argsort
                               [normalized_a; normalized_b])) "Date") /\
  Permutation
    (rows (frame_or_empty (merge example_to_datetime NumPy.argsort
                             [normalized_a; normalized_b])))
    (rows (with_dates example_to_datetime [normalized_a; normalized_b])) /\
  rows_where is_NaT
    (frame_or_empty (merge example_to_datetime NumPy.argsort
                       [normalized_a; normalized_b]))
  = rows_where is_NaT
      (with_dates example_to_datetime [normalized_a; normalized_b]).
Proof.
  apply (merge_sorted_by_date example_to_datetime NumPy.argsort
           [normalized_a; normalized_b]).
  - repeat constructor.
  - reflexivity.
  - reflexivity.
  - reflexivity.
Defined.

(** C2, as stated, fails: seventeen rows with the same date do not keep
    the order in which they were read. *)
Lemma merge_stability_counterexample :
  exists normalized out,
    outcome (apply_mappings same_day_table swedbank) = inr normalized /\
    merge example_to_datetime NumPy.argsort [normalized] = inr out /\
    column (with_dates example_to_datetime [normalized]) "Payee"
    = map Str same_day_payees /\
    column out "Payee"
    = map Str [ "P00"; "P14"; "P13"; "P12"; "P11"; "P10"; "P09"; "P15";
                "P08"; "P06"; "P05"; "P04"; "P03"; "P02"; "P01"; "P07";
                "P16" ] /\
    rows_where (cell_eqb (Time 20240105)) out
    <> rows_where (cell_eqb (Time 20240105))
                  (with_dates example_to_datetime [normalized]).
Proof.
  eexists. eexists.
  split; [vm_compute; reflexivity|].
  split; [vm_compute; reflexivity|].
  split; [vm_compute; reflexivity|].
  split; [vm_compute; reflexivity|].
  intro H. vm_compute in H. discriminate.
Qed.

(* ================================================================== *)
(** * Sorting a Series of numbers in descending order *)

Lemma numbers_nums (qs : list Q) : numbers (map Num qs) = qs.
Proof. induction qs; simpl; congruence. Qed.

Lemma somes_Some {A} (l : list A) : somes (map Some l) = l.
Proof. induction l; simpl; congruence. Qed.

Lemma nonzero_from_all {A} (l : list A) :
  forall k, nonzero_from k (map is_some (map Some l)) = seq k (length l).
Proof.
  induction l as [|x l IH]; intro k; [reflexivity|].
  simpl. rewrite IH. reflexivity.
Qed.

Lemma nonzero_from_none {A} (l : list A) :
  forall k,
  nonzero_from k (map (fun o => negb (is_some o)) (map Some l)) = [].
Proof.
  induction l as [|x l IH]; intro k; [reflexivity|].
  simpl. apply IH.
Qed.

Lemma emap_sort_key_nums (qs : list Q) :
  emap sort_key (map Num qs) = inr (map Some qs).
Proof.
  induction qs as [|q qs IH]; [reflexivity|].
  simpl. rewrite IH. reflexivity.
Qed.

Lemma StronglySorted_snoc {A} (R : A -> A -> Prop) (l : list A) (a : A) :
  StronglySorted R l -> Forall (fun x => R x a) l ->
  StronglySorted R (l ++ [a]).
Proof.
  induction 1 as [|x l Hl IH Hx]; intro Ha; simpl.
  - repeat constructor.
  - inversion Ha; subst. constructor; [apply IH; assumption|].
    apply Forall_app. split; [exact Hx | repeat constructor; assumption].
Qed.

Lemma StronglySorted_rev {A} (R : A -> A -> Prop) (l : list A) :
  StronglySorted R l -> StronglySorted (fun a b => R b a) (rev l).
Proof.
  induction 1 as [|a l Hl IH Ha]; simpl; [constructor|].
  apply StronglySorted_snoc; [exact IH|].
  apply Forall_rev. exact Ha.
Qed.

Lemma StronglySorted_map {A B} (R : A -> A -> Prop) (R' : B -> B -> Prop)
  (g : A -> B) (l : list A) :
  (forall x y, R x y -> R' (g x) (g y)) ->
  StronglySorted R l -> StronglySorted R' (map g l).
Proof.
  intros Hg. induction 1 as [|a l Hl IH Ha]; simpl; constructor.
  - exact IH.
  - apply Forall_map. eapply Forall_impl; [|exact Ha]. intros y. apply Hg.
Qed.

Lemma rev_take {A} (d : A) (l : list A) :
  rev l = map (fun i => nth i l d) (rev (seq 0 (length l))).
Proof.
  rewrite map_rev. rewrite map_nth_seq. reflexivity.
Qed.

Section Descending.

Variable argsort : list Q -> list nat.
Variable L : Type.
Variable dflt : L * cell.
Variable s : list (L * cell).
Variable qs : list Q.

Hypothesis s_values : map snd s = map Num qs.
Hypothesis argsort_ok : is_argsort (rev qs) (argsort (rev qs)) = true.

Lemma s_length : length s = length qs.
Proof.
  rewrite <- (length_map snd s), s_values. apply length_map.
Qed.

Lemma nargsort_descending :
  nargsort argsort (map Some qs) false =
  rev (map (fun i => nth i (rev (seq 0 (length qs))) 0%nat)
           (argsort (rev qs))).
Proof.
  unfold nargsort, nonzero.
  rewrite somes_Some, nonzero_from_all, nonzero_from_none.
  apply app_nil_r.
Qed.

(** The sort gives the entries read backwards through the argsort of the
    values read backwards. *)
Lemma Series_sort_values_descending :
  Series_sort_values argsort dflt s false =
  inr (rev (map (fun i => nth i (rev s) dflt) (argsort (rev qs)))).
Proof.
  destruct (is_argsort_spec _ _ argsort_ok) as [Hperm _].
  unfold Series_sort_values. rewrite s_values, emap_sort_key_nums.
  simpl ebind. rewrite nargsort_descending.
  rewrite map_rev, map_map. f_equal. f_equal.
  apply map_ext_in. intros i Hi.
  apply (Permutation_seq_bound _ _ Hperm) in Hi.
  rewrite length_rev in Hi.
  rewrite (rev_take dflt s), s_length.
  symmetry.
  apply (nth_map_in (fun j => nth j s dflt) (rev (seq 0 (length qs)))
           0%nat dflt i).
  rewrite length_rev, length_seq. exact Hi.
Qed.

Lemma sorted_descending_permutation :
  Permutation (rev (map (fun i => nth i (rev s) dflt) (argsort (rev qs)))) s.
Proof.
  destruct (is_argsort_spec _ _ argsort_ok) as [Hperm _].
  rewrite <- Permutation_rev.
  apply Permutation_trans with (rev s); [|symmetry; apply Permutation_rev].
  apply Permutation_take.
  rewrite length_rev, s_length, <- (length_rev qs). exact Hperm.
Qed.

Lemma sorted_descending_values :
  map snd (rev (map (fun i => nth i (rev s) dflt) (argsort (rev qs))))
  = map Num (rev (map (fun i => nth i (rev qs) 0) (argsort (rev qs)))).
Proof.
  destruct (is_argsort_spec _ _ argsort_ok) as [Hperm _].
  rewrite !map_rev. f_equal. rewrite !map_map.
  apply map_ext_in. intros i Hi.
  apply (Permutation_seq_bound _ _ Hperm) in Hi.
  rewrite <- (nth_map_in snd (rev s) dflt (Num 0) i)
    by (rewrite length_rev, s_length, <- (length_rev qs); exact Hi).
  rewrite map_rev, s_values, <- map_rev.
  apply (nth_map_in Num (rev qs) 0 (Num 0) i). exact Hi.
Qed.

Lemma sorted_descending :
  descending
    (values_of (rev (map (fun i => nth i (rev s) dflt) (argsort (rev qs))))).
Proof.
  destruct (is_argsort_spec _ _ argsort_ok) as [_ Hsorted].
  unfold values_of. rewrite sorted_descending_values, numbers_nums.
  apply (StronglySorted_rev Qle). exact Hsorted.
Qed.

End Descending.

(* ================================================================== *)
(** * The payee rankings *)

Lemma map_fst_combine {A B} (l : list A) (l' : list B) :
  length l = length l' -> map fst (combine l l') = l.
Proof.
  revert l'. induction l as [|x l IH]; intros [|y l'] H;
    try discriminate; [reflexivity|].
  simpl. f_equal. apply IH. simpl in H. lia.
Qed.

Lemma map_snd_combine {A B} (l : list A) (l' : list B) :
  length l = length l' -> map snd (combine l l') = l'.
Proof.
  revert l'. induction l as [|x l IH]; intros [|y l'] H;
    try discriminate; [reflexivity|].
  simpl. f_equal. apply IH. simpl in H. lia.
Qed.

Lemma combine_fst_snd {A B} (l : list (A * B)) :
  combine (map fst l) (map snd l) = l.
Proof.
  induction l as [|[a b] l IH]; [reflexivity|]. simpl. f_equal. exact IH.
Qed.

Lemma In_unique {A} (eqb : A -> A -> bool) (l : list A) (x : A) :
  In x (unique eqb l) -> In x l.
Proof.
  induction l as [|y l IH]; [auto|].
  simpl. intros [H|H]; [auto|].
  apply filter_In in H. right. apply IH. apply H.
Qed.

Lemma filter_eqb_notna (k : cell) (l : list cell) :
  isna k = false ->
  filter (cell_eqb k) (filter (fun c => negb (isna c)) l)
  = filter (cell_eqb k) l.
Proof.
  intro Hk. induction l as [|c l IH]; [reflexivity|].
  simpl. destruct (isna c) eqn:Ec; simpl.
  - rewrite IH.
    assert (cell_eqb k c = false) as ->; [|reflexivity].
    destruct k, c; try discriminate; reflexivity.
  - rewrite IH. reflexivity.
Qed.

Lemma positive_cell_num (c : cell) :
  positive_cell c = true -> is_num c = true.
Proof. destruct c; simpl; auto. Qed.

Lemma numbers_length (s : Series) :
  Forall (fun c => is_num c = true) s -> length (numbers s) = length s.
Proof.
  intro H. rewrite (numbers_all s H) at 2. symmetry. apply length_map.
Qed.

Section Payees.

Variable df : DataFrame.
Variable payee_col outs : Series.

Hypothesis payee_present : lookup "Payee" (columns df) = Some payee_col.
Hypothesis outflow_present : lookup "Outflow" (columns df) = Some outs.
Hypothesis same_length : length payee_col = length outs.
Hypothesis outflow_numeric : Forall (fun c => is_num_or_nan c = true) outs.

Local Abbreviation df_outflows :=
  (take_rows (nonzero (map positive_cell outs)) df).

Lemma spending_combine :
  spending df
  = filter (fun po => positive_cell (snd po)) (combine payee_col outs).
Proof.
  unfold spending.
  rewrite (column_lookup df "Payee" payee_col payee_present).
  rewrite (column_lookup df "Outflow" outs outflow_present).
  reflexivity.
Qed.

Lemma nonzero_outflow :
  nonzero (map positive_cell outs)
  = nonzero (map (fun po => positive_cell (snd po)) (combine payee_col outs)).
Proof.
  rewrite <- (map_snd_combine payee_col outs same_length) at 1.
  rewrite map_map. reflexivity.
Qed.

Lemma rows_gt0_outflow : rows_gt0 df "Outflow" = inr df_outflows.
Proof.
  exact (rows_gt0_numeric df "Outflow" outs outflow_present outflow_numeric).
Qed.

Lemma df_outflows_payee :
  lookup "Payee" (columns df_outflows) = Some (map fst (spending df)).
Proof.
  rewrite take_rows_column, payee_present. simpl. f_equal.
  rewrite spending_combine, nonzero_outflow.
  rewrite <- (take_nonzero (fun po => positive_cell (snd po)) (NaN, NaN)
                (combine payee_col outs)).
  rewrite map_map. apply map_ext. intro i.
  rewrite (combine_nth payee_col outs i NaN NaN same_length). reflexivity.
Qed.

Lemma df_outflows_outflow :
  lookup "Outflow" (columns df_outflows) = Some (map snd (spending df)).
Proof.
  rewrite take_rows_column, outflow_present. simpl. f_equal.
  rewrite spending_combine, nonzero_outflow.
  rewrite <- (take_nonzero (fun po => positive_cell (snd po)) (NaN, NaN)
                (combine payee_col outs)).
  rewrite map_map. apply map_ext. intro i.
  rewrite (combine_nth payee_col outs i NaN NaN same_length). reflexivity.
Qed.

Lemma spending_numeric (p : cell) :
  Forall (fun c => is_num c = true)
         (map snd (filter (fun po => cell_eqb p (fst po)) (spending df))).
Proof.
  apply Forall_map. apply Forall_forall. intros po Hpo.
  apply filter_In in Hpo. destruct Hpo as [Hpo _].
  unfold spending in Hpo. apply filter_In in Hpo.
  apply positive_cell_num. apply Hpo.
Qed.

Lemma payees_notna (p : cell) : In p (payees df) -> isna p = false.
Proof.
  intro H. unfold payees in H. apply In_unique in H.
  apply filter_In in H. destruct H as [_ H].
  apply negb_true_iff. exact H.
Qed.

(** The counts that [value_counts] sorts. *)
Lemma value_counts_unsorted :
  map (fun k =>
         (k, Num (inject_Z (Z.of_nat
                (length (filter (cell_eqb k)
                           (filter (fun c => negb (isna c))
                                   (map fst (spending df)))))))))
      (payees df)
  = payee_counts df.
Proof.
  unfold payee_counts. apply map_ext_in. intros k Hk.
  do 4 f_equal. unfold payments_to.
  rewrite (numbers_length _ (spending_numeric k)), length_map.
  rewrite (filter_eqb_notna k _ (payees_notna k Hk)).
  rewrite <- (map_filter_comm fst (cell_eqb k)). apply length_map.
Qed.

Lemma payee_counts_values :
  map snd (payee_counts df) = map Num (values_of (payee_counts df)).
Proof.
  unfold values_of, payee_counts. rewrite !map_map. simpl.
  induction (payees df) as [|p l IH]; [reflexivity|].
  simpl. f_equal. exact IH.
Qed.

Lemma payee_totals_values :
  map snd (payee_totals df) = map Num (values_of (payee_totals df)).
Proof.
  unfold values_of, payee_totals. rewrite !map_map. simpl.
  induction (sorted_keys (payees df)) as [|p l IH]; [reflexivity|].
  simpl. f_equal. exact IH.
Qed.

(** The sums that [top_payees_amount] sorts. *)
Lemma groupby_sum_outflows :
  groupby_sum df_outflows "Payee" "Outflow" = inr (payee_totals df).
Proof.
  unfold groupby_sum, getitem.
  rewrite df_outflows_payee. cbn [ebind].
  rewrite df_outflows_outflow. cbn [ebind].
  rewrite combine_fst_snd.
  unfold payee_totals. apply emap_pure.
  apply Forall_forall. intros k _.
  rewrite (numbers_all _ (spending_numeric k)).
  rewrite nansum_column_sum. reflexivity.
Qed.

End Payees.

Lemma values_num {L} (s : list (L * cell)) (qs : list Q) :
  map snd s = map Num qs ->
  Forall (fun kv => exists q, snd kv = Num q) s.
Proof.
  revert qs. induction s as [|kv s IH]; intros [|q qs] H;
    try discriminate; constructor.
  - simpl in H. inversion H. eauto.
  - simpl in H. inversion H. eapply IH. eassumption.
Qed.

Lemma emap_round (s : list (cell * cell)) (qs : list Q) :
  map snd s = map Num qs ->
  emap (fun kv => ebind (py_round2 (snd kv)) (fun r => inr (fst kv, r))) s
  = inr (map rounded s).
Proof.
  intro H. apply emap_pure.
  eapply Forall_impl; [|exact (values_num s qs H)].
  intros [k v] [q Hq]. simpl in Hq. subst v. reflexivity.
Qed.

Lemma values_of_rounded (s : list (cell * cell)) (qs : list Q) :
  map snd s = map Num qs ->
  values_of (map rounded s) = map round2 (values_of s).
Proof.
  unfold values_of. revert qs.
  induction s as [|[k v] s IH]; intros [|q qs] H; try discriminate;
    [reflexivity|].
  simpl in H. inversion H; subst v. simpl. f_equal. eapply IH. eassumption.
Qed.

Lemma descending_rounded (l : list Q) :
  descending l -> descending (map round2 l).
Proof.
  apply StronglySorted_map. intros x y. apply round2_mono.
Qed.

Section Rankings.

Variable argsort : list Q -> list nat.
Variable df : DataFrame.
Variable payee_col outs : Series.

Hypothesis payee_present : lookup "Payee" (columns df) = Some payee_col.
Hypothesis outflow_present : lookup "Outflow" (columns df) = Some outs.
Hypothesis same_length : length payee_col = length outs.
Hypothesis outflow_numeric : Forall (fun c => is_num_or_nan c = true) outs.

Lemma value_counts_spending :
  value_counts argsort (map fst (spending df))
  = Series_sort_values argsort (NaN, NaN) (payee_counts df) false.
Proof.
  rewrite <- (value_counts_unsorted df). reflexivity.
Qed.

Lemma top_payees_count_unfold :
  top_payees_count argsort df
  = ebind (Series_sort_values argsort (NaN, NaN) (payee_counts df) false)
          (fun counts => inr (head 5 counts)).
Proof.
  unfold top_payees_count.
  rewrite (rows_gt0_outflow df outs outflow_present outflow_numeric).
  cbn [ebind]. unfold getitem.
  rewrite (df_outflows_payee df payee_col outs payee_present
             outflow_present same_length).
  cbn [ebind]. rewrite value_counts_spending. reflexivity.
Qed.

Lemma top_payees_amount_unfold :
  top_payees_amount argsort df
  = ebind (Series_sort_values argsort (NaN, NaN) (payee_totals df) false)
      (fun payee_totals =>
       ebind (emap (fun kv => ebind (py_round2 (snd kv))
                                    (fun r => inr (fst kv, r)))
                   payee_totals)
         (fun payee_totals => inr (head 5 payee_totals))).
Proof.
  unfold top_payees_amount.
  rewrite (rows_gt0_outflow df outs outflow_present outflow_numeric).
  cbn [ebind].
  rewrite (groupby_sum_outflows df payee_col outs payee_present
             outflow_present same_length).
  reflexivity.
Qed.

End Rankings.

(** C5, amended: both rankings are computed from the rows with Outflow > 0
    and a payee, have at most 5 entries, and are the first 5 of all payees
    in descending order of count, respectively of summed Outflow, which is
    shown rounded to 2 decimals.  Payees of equal count or sum come in the
    order the sort leaves them. *)
Theorem top_payees_ranked
  (argsort : list Q -> list nat) (df : DataFrame) (payee_col outs : Series) :
  lookup "Payee" (columns df) = Some payee_col ->
  lookup "Outflow" (columns df) = Some outs ->
  length payee_col = length outs ->
  Forall (fun c => is_num_or_nan c = true) outs ->
  is_argsort (rev (values_of (payee_counts df)))
             (argsort (rev (values_of (payee_counts df)))) = true ->
  is_argsort (rev (values_of (payee_totals df)))
             (argsort (rev (values_of (payee_totals df)))) = true ->
  exists ranked_counts ranked_totals,
    top_payees_count argsort df = inr (firstn 5 ranked_counts) /\
    Permutation ranked_counts (payee_counts df) /\
    descending (values_of ranked_counts) /\
    top_payees_amount argsort df
    = inr (firstn 5 (map rounded ranked_totals)) /\
    Permutation ranked_totals (payee_totals df) /\
    descending (values_of (map rounded ranked_totals)) /\
    (length (firstn 5 ranked_counts) <= 5)%nat /\
    (length (firstn 5 (map rounded ranked_totals)) <= 5)%nat.
Proof.
  intros Hpayee Hout Hlen Hnum Hcounts Htotals.
  pose proof (payee_counts_values df) as Hcv.
  pose proof (payee_totals_values df) as Htv.
  exists (rev (map (fun i => nth i (rev (payee_counts df)) (NaN, NaN))
                   (argsort (rev (values_of (payee_counts df)))))).
  exists (rev (map (fun i => nth i (rev (payee_totals df)) (NaN, NaN))
                   (argsort (rev (values_of (payee_totals df)))))).
  split; [|split; [|split; [|split; [|split; [|split; [|split]]]]]].
  - rewrite (top_payees_count_unfold argsort df payee_col outs Hpayee Hout
               Hlen Hnum).
    rewrite (Series_sort_values_descending argsort _ (NaN, NaN)
               (payee_counts df) (values_of (payee_counts df)) Hcv Hcounts).
    reflexivity.
  - exact (sorted_descending_permutation argsort _ (NaN, NaN)
             (payee_counts df) (values_of (payee_counts df)) Hcv Hcounts).
  - exact (sorted_descending argsort _ (NaN, NaN)
             (payee_counts df) (values_of (payee_counts df)) Hcv Hcounts).
  - rewrite (top_payees_amount_unfold argsort df payee_col outs Hpayee Hout
               Hlen Hnum).
    rewrite (Series_sort_values_descending argsort _ (NaN, NaN)
               (payee_totals df) (values_of (payee_totals df)) Htv Htotals).
    cbn [ebind].
    rewrite (emap_round _ _
               (sorted_descending_values argsort _ (NaN, NaN)
                  (payee_totals df) (values_of (payee_totals df))
                  Htv Htotals)).
    reflexivity.
  - exact (sorted_descending_permutation argsort _ (NaN, NaN)
             (payee_totals df) (values_of (payee_totals df)) Htv Htotals).
  - rewrite (values_of_rounded _ _
               (sorted_descending_values argsort _ (NaN, NaN)
                  (payee_totals df) (values_of (payee_totals df))
                  Htv Htotals)).
    apply descending_rounded.
    exact (sorted_descending argsort _ (NaN, NaN)
             (payee_totals df) (values_of (payee_totals df)) Htv Htotals).
  - apply firstn_le_length.
  - apply firstn_le_length.
Qed.

Lemma top_payees_ranked_witness :
  exists ranked_counts ranked_totals,
    top_payees_count NumPy.argsort ledger = inr (firstn 5 ranked_counts) /\
    Permutation ranked_counts (payee_counts ledger) /\
    descending (values_of ranked_counts) /\
    top_payees_amount NumPy.argsort ledger
    = inr (firstn 5 (map rounded ranked_totals)) /\
    Permutation ranked_totals (payee_totals ledger) /\
    descending (values_of (map rounded ranked_totals)) /\
    (length (firstn 5 ranked_counts) <= 5)%nat /\
    (length (firstn 5 (map rounded ranked_totals)) <= 5)%nat.
Proof.
  apply (top_payees_ranked NumPy.argsort ledger
           (column ledger "Payee") (column ledger "Outflow")).
  - reflexivity.
  - reflexivity.
  - reflexivity.
  - repeat constructor.
  - reflexivity.
  - reflexivity.
Defined.

(** C5, as stated, fails: with one payment to "B" and then one to "A" the
    ranking by count lists "B" before "A" although the counts are equal.
    No sort could break such ties by name: it sees the counts only, and the
    counts are the same when the two payments come in the other order. *)
Lemma top_payees_tie_counterexample :
  top_payees_count NumPy.argsort paid_b_then_a
  = inr [(Str "B", Num 1); (Str "A", Num 1)] /\
  ties_by_name [(Str "B", Num 1); (Str "A", Num 1)] = false /\
  ~ (exists argsort r1 r2,
       is_argsort [1; 1] (argsort [1; 1]) = true /\
       top_payees_count argsort paid_a_then_b = inr r1 /\
       ties_by_name r1 = true /\
       top_payees_count argsort paid_b_then_a = inr r2 /\
       ties_by_name r2 = true).
Proof.
  split; [vm_compute; reflexivity|]. split; [reflexivity|].
  intros (argsort & r1 & r2 & Hok & H1 & T1 & H2 & T2).
  destruct (is_argsort_spec _ _ Hok) as [Hperm _].
  apply Permutation_sym in Hperm. simpl in Hperm.
  apply Permutation_length_2_inv in Hperm.
  cbv in H1, H2.
  destruct Hperm as [E|E]; cbv in E; rewrite E in H1, H2; cbv in H1, H2.
  - inversion H2; subst r2. discriminate T2.
  - inversion H1; subst r1. discriminate T1.
Qed.

(* ================================================================== *)
(** * Totals of the merged dataset *)

Lemma In_unique_names (l : list string) (x : string) :
  In x l -> In x (unique String.eqb l).
Proof.
  induction l as [|y l IH]; [auto|].
  intros [->|H]; simpl; [left; reflexivity|].
  destruct (String.eqb y x) eqn:E.
  - apply String.eqb_eq in E. left. exact E.
  - right. apply filter_In. split; [apply IH; exact H|].
    rewrite E. reflexivity.
Qed.

Lemma lookup_tabulate {V} (g : string -> V) (names : list string)
  (nm : string) :
  In nm names -> lookup nm (map (fun k => (k, g k)) names) = Some (g nm).
Proof.
  induction names as [|k names IH]; intros []; simpl.
  - subst k. rewrite String.eqb_refl. reflexivity.
  - destruct (String.eqb nm k) eqn:E; [|auto].
    apply String.eqb_eq in E. subst k. reflexivity.
Qed.

(** A column of the concatenation, when some table has it. *)
Lemma pd_concat_lookup (frames : list DataFrame) (nm : string) :
  In nm (flat_map (fun f => map fst (columns f)) frames) ->
  lookup nm (columns (pd_concat frames))
  = Some (flat_map (fun f => match lookup nm (columns f) with
                             | Some s => s
                             | None => repeat NaN (index_len f)
                             end) frames).
Proof.
  intro H. unfold pd_concat. simpl.
  apply (lookup_tabulate
           (fun nm => flat_map (fun f => match lookup nm (columns f) with
                                         | Some s => s
                                         | None => repeat NaN (index_len f)
                                         end) frames)).
  apply In_unique_names. exact H.
Qed.

Lemma Qsum_Permutation (l l' : list Q) :
  Permutation l l' -> Qsum l == Qsum l'.
Proof.
  induction 1 as [|x l l' _ IH|x y l|l l' l'' _ IH1 _ IH2]; simpl.
  - reflexivity.
  - rewrite IH. reflexivity.
  - ring.
  - rewrite IH1. exact IH2.
Qed.

Lemma forallb_Permutation {A} (f : A -> bool) (l l' : list A) :
  Permutation l l' -> forallb f l = forallb f l'.
Proof.
  induction 1 as [|x l l' _ IH|x y l|l l' l'' _ IH1 _ IH2]; simpl.
  - reflexivity.
  - rewrite IH. reflexivity.
  - destruct (f x), (f y); reflexivity.
  - congruence.
Qed.

Lemma sum_fits_Permutation (l l' : list Q) :
  Permutation l l' -> sum_fits l = sum_fits l'.
Proof.
  intro H. unfold sum_fits.
  rewrite (forallb_Permutation is_whole l l' H).
  rewrite (forallb_Permutation is_int64_value l l' H).
  rewrite (Qfloor_comp _ _ (Qsum_Permutation l l' H)). reflexivity.
Qed.

(** The sum of a column of numbers read through a permutation. *)
Lemma Series_sum_take (xs : list Q) (indexer : list nat) :
  Permutation indexer (seq 0 (length xs)) ->
  sum_fits xs = true ->
  exists x,
    Series_sum (map (fun i => nth i (map Num xs) NaN) indexer) = inr (Num x)
    /\ x == Qsum xs.
Proof.
  intros Hperm Hfits.
  assert (E : map (fun i => nth i (map Num xs) NaN) indexer
              = map Num (map (fun i => nth i xs 0) indexer)).
  { rewrite map_map. apply map_ext_in. intros i Hi.
    apply (nth_map_in Num xs 0 NaN i).
    exact (Permutation_seq_bound _ _ Hperm i Hi). }
  pose proof (Permutation_take 0 xs indexer Hperm) as Htake.
  rewrite E.
  destruct (Series_sum_fits (map (fun i => nth i xs 0) indexer))
    as (x & Hx & Ex).
  { rewrite (sum_fits_Permutation _ _ Htake). exact Hfits. }
  exists x. split; [exact Hx|].
  rewrite Ex. apply Qsum_Permutation. exact Htake.
Qed.

Section MergedTotals.

Variable to_datetime : Series -> list (option Z).
Variable argsort : list Q -> list nat.
Variable mappings : mapping.
Variable src : string.

Hypothesis mappings_dict : NoDup (map fst mappings).
Hypothesis amount_mapped : lookup "Amount" mappings = Some (Some src).
Hypothesis src_named : src <> "".

(** The Inflow and Outflow columns of a normalized table. *)
Lemma normalizes_columns (t out : DataFrame) :
  normalizes mappings src t out ->
  well_formed out /\
  lookup "Inflow" (columns out)
  = Some (map Num (map inflow_of (numbers (column t src)))) /\
  lookup "Outflow" (columns out)
  = Some (map Num (map outflow_of (numbers (column t src)))).
Proof.
  intros (Hwf & (amounts & Hcol & Hnum) & Hout).
  split.
  { exact (apply_mappings_well_formed t mappings src amounts Hwf
             mappings_dict amount_mapped src_named Hcol out Hout). }
  destruct (apply_mappings_columns t mappings src amounts Hwf
              mappings_dict amount_mapped src_named Hcol out Hout)
    as (inflow & outflow & Ein & Eout & _ & Hin & Hof).
  rewrite (column_lookup t src amounts Hcol).
  rewrite (numbers_all amounts Hnum) in Ein, Eout.
  rewrite emap_inflow_nums in Ein. rewrite emap_outflow_nums in Eout.
  inversion Ein; subst inflow. inversion Eout; subst outflow.
  split; assumption.
Qed.

Lemma normalized_well_formed (tables normalized : list DataFrame) :
  Forall2 (normalizes mappings src) tables normalized ->
  Forall well_formed normalized.
Proof.
  induction 1 as [|t o ts os H _ IH]; constructor.
  - apply (normalizes_columns t o H).
  - exact IH.
Qed.

Lemma concat_flows (tables normalized : list DataFrame) :
  Forall2 (normalizes mappings src) tables normalized ->
  flat_map (fun f => match lookup "Inflow" (columns f) with
                     | Some s => s
                     | None => repeat NaN (index_len f)
                     end) normalized
  = map Num (map inflow_of (all_amounts src tables)) /\
  flat_map (fun f => match lookup "Outflow" (columns f) with
                     | Some s => s
                     | None => repeat NaN (index_len f)
                     end) normalized
  = map Num (map outflow_of (all_amounts src tables)).
Proof.
  unfold all_amounts.
  induction 1 as [|t o ts os H _ [IHin IHof]]; [split; reflexivity|].
  destruct (normalizes_columns t o H) as (_ & Hin & Hof).
  simpl. rewrite Hin, Hof, IHin, IHof, !map_app. split; reflexivity.
Qed.

Lemma concat_inflow (tables normalized : list DataFrame) :
  Forall2 (normalizes mappings src) tables normalized ->
  normalized <> [] ->
  lookup "Inflow" (columns (pd_concat normalized))
  = Some (map Num (map inflow_of (all_amounts src tables))).
Proof.
  intros Hnorm Hne.
  rewrite pd_concat_lookup.
  - f_equal. apply (concat_flows tables normalized Hnorm).
  - destruct Hnorm as [|t o ts os H _]; [congruence|].
    destruct (normalizes_columns t o H) as (_ & Hin & _).
    simpl. apply in_or_app. left.
    apply lookup_In in Hin. apply (in_map fst) in Hin. exact Hin.
Qed.

Lemma concat_outflow (tables normalized : list DataFrame) :
  Forall2 (normalizes mappings src) tables normalized ->
  normalized <> [] ->
  lookup "Outflow" (columns (pd_concat normalized))
  = Some (map Num (map outflow_of (all_amounts src tables))).
Proof.
  intros Hnorm Hne.
  rewrite pd_concat_lookup.
  - f_equal. apply (concat_flows tables normalized Hnorm).
  - destruct Hnorm as [|t o ts os H _]; [congruence|].
    destruct (normalizes_columns t o H) as (_ & _ & Hof).
    simpl. apply in_or_app. left.
    apply lookup_In in Hof. apply (in_map fst) in Hof. exact Hof.
Qed.

End MergedTotals.




(* ================================================================== *)
(** * A batch of two files

    File a.csv has the row ("2024-01-05", "Shop1", -10.00) and file b.csv
    the row ("2024-01-03", "Shop2", 50.00). *)

Example two_files_merged :
  outcome (process example_read_csv example_read_excel example_to_datetime
             NumPy.argsort [file_a; file_b] "Swedbank (csv)")
  = inr (Some two_files_dataset).
Proof. reflexivity. Qed.

Example two_files_figures :
  exists total_inflow total_outflow mean,
    calculate_kpis two_files_dataset
    = inr (Num total_inflow, Num total_outflow) /\
    total_inflow == 50 /\ total_outflow == 10 /\
    average_outflow two_files_dataset = inr (Num mean) /\ mean == 10.
Proof.
  eexists. eexists. eexists.
  split; [reflexivity|]. split; [reflexivity|]. split; [reflexivity|].
  split; reflexivity.
Qed.

(* ================================================================== *)
(** * The column names of a normalized table *)

Lemma existsb_eqb_In (k : string) (ks : list string) :
  existsb (String.eqb k) ks = true <-> In k ks.
Proof.
  rewrite existsb_exists. split.
  - intros (x & Hx & E). apply String.eqb_eq in E. subst x. exact Hx.
  - intro H. exists k. split; [exact H | apply String.eqb_refl].
Qed.

Lemma insert_key_fresh (ks : list string) (k : string) :
  ~ In k ks -> insert_key ks k = ks ++ [k].
Proof.
  intro H. unfold insert_key.
  destruct (existsb (String.eqb k) ks) eqn:E; [|reflexivity].
  apply existsb_eqb_In in E. contradiction.
Qed.

Lemma In_insert_key (ks : list string) (k k' : string) :
  In k' (insert_key ks k) <-> In k' ks \/ k' = k.
Proof.
  unfold insert_key. destruct (existsb (String.eqb k) ks) eqn:E.
  - apply existsb_eqb_In in E. split; [auto|].
    intros [H | ->]; assumption.
  - rewrite in_app_iff. simpl. split.
    + intros [H|[H|[]]]; auto.
    + intros [H|H]; auto.
Qed.

Lemma map_fst_assign {V} (k : string) (v : V) (d : list (string * V)) :
  map fst (assign k v d) = insert_key (map fst d) k.
Proof.
  unfold insert_key. induction d as [|[k' v'] d IH]; simpl.
  - reflexivity.
  - destruct (String.eqb k k') eqn:E; simpl.
    + reflexivity.
    + rewrite IH. destruct (existsb (String.eqb k) (map fst d)); reflexivity.
Qed.

Lemma map_fst_remove_key {V} (k : string) (d : list (string * V)) :
  map fst (remove_key k d)
  = filter (fun k' => negb (String.eqb k k')) (map fst d).
Proof.
  induction d as [|[k' v'] d IH]; simpl; [reflexivity|].
  destruct (String.eqb k k'); simpl; congruence.
Qed.

Lemma setitem_scalar_names (f : DataFrame) (k : string) (c : cell) :
  map fst (columns (setitem_scalar f k c)) = insert_key (map fst (columns f)) k.
Proof. unfold setitem_scalar. simpl. apply map_fst_assign. Qed.

Lemma setitem_series_names (f : DataFrame) (k : string) (s : Series) :
  map fst (columns (setitem_series f k s)) = insert_key (map fst (columns f)) k.
Proof.
  unfold setitem_series.
  destruct ((index_len f =? 0)%nat && negb (length s =? 0)%nat); simpl;
    rewrite map_fst_assign; [|reflexivity].
  rewrite map_map. reflexivity.
Qed.

Lemma fold_insert_key_fresh (l : list string) :
  forall base,
  NoDup l -> (forall k, In k l -> ~ In k base) ->
  fold_left insert_key l base = base ++ l.
Proof.
  induction l as [|k l IH]; intros base Hnd Hfresh; simpl.
  - symmetry. apply app_nil_r.
  - inversion Hnd as [|? ? Hnot Hnd']; subst.
    rewrite insert_key_fresh by (apply Hfresh; left; reflexivity).
    rewrite IH; [rewrite <- app_assoc; reflexivity | exact Hnd' |].
    intros k' Hk' Hin. apply in_app_iff in Hin. destruct Hin as [Hin | [-> | []]].
    + apply (Hfresh k'); [right; exact Hk' | exact Hin].
    + contradiction.
Qed.

Lemma In_fold_insert_key (l : list string) :
  forall base k,
  In k (fold_left insert_key l base) <-> In k base \/ In k l.
Proof.
  induction l as [|k0 l IH]; intros base k; simpl.
  - tauto.
  - rewrite IH, In_insert_key. intuition congruence.
Qed.

(** One turn of the loop of [apply_mappings]: a column is copied or the
    empty string is filled in. *)
Lemma map_columns_step (df : DataFrame) k sc (items : mapping) f :
  outcome (map_columns df ((k, sc) :: items) f) =
  outcome (map_columns df items
             (match source_column df sc with
              | Some s => setitem_series f k s
              | None => setitem_scalar f k (Str "")
              end)).
Proof.
  rewrite map_columns_cons. unfold source_column.
  destruct sc as [src|]; [|reflexivity].
  destruct (truthy (Some src)); [|reflexivity].
  destruct (lookup src (columns df)); [reflexivity|].
  rewrite outcome_bind. reflexivity.
Qed.

(** The loop never raises, and it assigns the keys of the mapping in
    order. *)
Lemma map_columns_names (df : DataFrame) (items : mapping) :
  forall f,
  exists f', outcome (map_columns df items f) = inr f' /\
             map fst (columns f')
             = fold_left insert_key (map fst items) (map fst (columns f)).
Proof.
  induction items as [|[k sc] items IH]; intro f.
  - exists f. split; reflexivity.
  - rewrite map_columns_step. simpl.
    destruct (source_column df sc) as [s|].
    + destruct (IH (setitem_series f k s)) as (f' & Hout & Hnames).
      exists f'. split; [exact Hout|].
      rewrite Hnames, setitem_series_names. reflexivity.
    + destruct (IH (setitem_scalar f k (Str ""))) as (f' & Hout & Hnames).
      exists f'. split; [exact Hout|].
      rewrite Hnames, setitem_scalar_names. reflexivity.
Qed.

(** The steps of a call of [apply_mappings] that returns. *)
Lemma apply_mappings_steps (df : DataFrame) (mappings : mapping)
  (out : DataFrame) :
  outcome (apply_mappings df mappings) = inr out ->
  exists f amount inflow amount' outflow,
    outcome (map_columns df mappings empty_frame) = inr f /\
    getitem f "Amount" = inr amount /\
    emap inflow_lambda amount = inr inflow /\
    getitem (setitem_series f "Inflow" inflow) "Amount" = inr amount' /\
    emap outflow_lambda amount' = inr outflow /\
    drop_column
      (setitem_series (setitem_series f "Inflow" inflow) "Outflow" outflow)
      "Amount" = inr out.
Proof.
  unfold apply_mappings. rewrite outcome_bind.
  destruct (outcome (map_columns df mappings empty_frame)) as [e|f];
    [discriminate|].
  rewrite outcome_bind, outcome_lift.
  destruct (getitem f "Amount") as [e|amount] eqn:Ha; [discriminate|].
  rewrite outcome_bind, outcome_lift. unfold Series_apply at 1.
  destruct (emap inflow_lambda amount) as [e|inflow] eqn:Ein; [discriminate|].
  rewrite outcome_bind, outcome_lift.
  destruct (getitem (setitem_series f "Inflow" inflow) "Amount")
    as [e|amount'] eqn:Ha'; [discriminate|].
  rewrite outcome_bind, outcome_lift. unfold Series_apply at 1.
  destruct (emap outflow_lambda amount') as [e|outflow] eqn:Eout;
    [discriminate|].
  rewrite outcome_lift. intro Hdrop.
  exists f, amount, inflow, amount', outflow. repeat split; assumption.
Qed.

(** X1: a normalized table has the keys of the mapping other than Amount as
    its columns, in the order of the mapping, followed by Inflow and
    Outflow; for the mappings of the registry these are Date, Payee, Memo,
    Inflow, Outflow. *)
Theorem apply_mappings_schema (df : DataFrame) (mappings : mapping)
  (out : DataFrame) :
  NoDup (map fst mappings) ->
  ~ In "Inflow" (map fst mappings) ->
  ~ In "Outflow" (map fst mappings) ->
  outcome (apply_mappings df mappings) = inr out ->
  map fst (columns out)
  = filter (fun k => negb ("Amount" =? k)%string) (map fst mappings)
    ++ ["Inflow"; "Outflow"].
Proof.
  intros Hnd Hin Hof Hout.
  destruct (apply_mappings_steps df mappings out Hout)
    as (f & amount & inflow & amount' & outflow
        & Hf & _ & _ & _ & _ & Hdrop).
  destruct (map_columns_names df mappings empty_frame) as (f' & Hf' & Hnames).
  rewrite Hf in Hf'. inversion Hf'; subst f'. clear Hf'.
  simpl in Hnames.
  rewrite (fold_insert_key_fresh (map fst mappings) [] Hnd) in Hnames
    by (intros k _ []).
  simpl in Hnames.
  unfold drop_column in Hdrop.
  destruct (has_column _ "Amount"); [|discriminate].
  inversion Hdrop; subst out. clear Hdrop. cbn [columns].
  rewrite map_fst_remove_key, !setitem_series_names, Hnames.
  rewrite (insert_key_fresh _ "Inflow" Hin).
  rewrite insert_key_fresh.
  - rewrite <- app_assoc, filter_app. reflexivity.
  - intro H. apply in_app_iff in H. destruct H as [H|[H|[]]];
      [contradiction | discriminate].
Qed.

Lemma apply_mappings_schema_witness :
  map fst (columns normalized_a)
  = filter (fun k => negb ("Amount" =? k)%string) (map fst swedbank)
    ++ ["Inflow"; "Outflow"].
Proof.
  apply (apply_mappings_schema table_a swedbank normalized_a).
  - exact swedbank_dict.
  - simpl. intuition discriminate.
  - simpl. intuition discriminate.
  - reflexivity.
Defined.

(** X2: a mapping without the key Amount makes [apply_mappings] raise
    KeyError('Amount'), whatever the table holds. *)
Theorem apply_mappings_needs_amount_key (df : DataFrame) (mappings : mapping) :
  ~ In "Amount" (map fst mappings) ->
  outcome (apply_mappings df mappings) = inl (KeyError "Amount").
Proof.
  intro Hnot.
  destruct (map_columns_names df mappings empty_frame) as (f & Hf & Hnames).
  unfold apply_mappings. rewrite outcome_bind, Hf.
  rewrite outcome_bind, outcome_lift.
  unfold getitem. rewrite lookup_not_In; [reflexivity|].
  rewrite Hnames. rewrite In_fold_insert_key. simpl. tauto.
Qed.

Lemma apply_mappings_needs_amount_key_witness :
  outcome (apply_mappings table_a [("Date", Some "Transaktionsdag")])
  = inl (KeyError "Amount").
Proof.
  apply (apply_mappings_needs_amount_key table_a
           [("Date", Some "Transaktionsdag")]).
  simpl. intuition discriminate.
Defined.

(* ================================================================== *)
(** * The columns that [apply_mappings] copies and fills in *)

Section MapColumnsValues.

Variable df : DataFrame.
Hypothesis df_wf : well_formed df.

Local Abbreviation n := (index_len df).

Lemma source_column_length sc (s : Series) :
  source_column df sc = Some s -> length s = n.
Proof.
  unfold source_column. destruct sc as [src|]; [|discriminate].
  destruct (truthy (Some src)); [|discriminate].
  apply (well_formed_column df src s df_wf).
Qed.

Lemma copies_cons k sc (items : mapping) :
  copies df ((k, sc) :: items)
  = is_some (source_column df sc) || copies df items.
Proof. reflexivity. Qed.

(** The loop over two lists of entries, one after the other. *)
Lemma map_columns_app (l1 l2 : mapping) :
  forall f,
  outcome (map_columns df (l1 ++ l2) f) =
  match outcome (map_columns df l1 f) with
  | inl e => inl e
  | inr f1 => outcome (map_columns df l2 f1)
  end.
Proof.
  induction l1 as [|[k sc] l1 IH]; intro f; [reflexivity|].
  change (((k, sc) :: l1) ++ l2) with ((k, sc) :: (l1 ++ l2)).
  rewrite !map_columns_step. apply IH.
Qed.

(** A frame with the rows of the table keeps them. *)
Lemma map_columns_grown (items : mapping) :
  forall f, grown n f ->
  exists f', outcome (map_columns df items f) = inr f' /\ grown n f'.
Proof.
  induction items as [|[k sc] items IH]; intros f Hf.
  - exists f. split; [reflexivity | exact Hf].
  - rewrite map_columns_step.
    destruct (source_column df sc) as [s|] eqn:Hs; apply IH.
    + apply setitem_series_grown; [apply grown_growing; exact Hf|].
      exact (source_column_length sc s Hs).
    + apply setitem_scalar_grown. exact Hf.
Qed.

(** A frame without rows gets the rows of the table when a column is
    copied, and not before. *)
Lemma map_columns_started (items : mapping) :
  forall f, grown 0 f ->
  exists f', outcome (map_columns df items f) = inr f' /\
             if copies df items then grown n f' else grown 0 f'.
Proof.
  induction items as [|[k sc] items IH]; intros f Hf.
  - exists f. split; [reflexivity | exact Hf].
  - rewrite map_columns_step, copies_cons.
    destruct (source_column df sc) as [s|] eqn:Hs; cbn [is_some orb].
    + apply map_columns_grown.
      apply setitem_series_grown; [|exact (source_column_length sc s Hs)].
      destruct Hf as [Hwf H0]. split; [exact Hwf | right; exact H0].
    + apply IH. apply setitem_scalar_grown. exact Hf.
Qed.

(** A column of a frame without rows: it stays empty until a column is
    copied, and is then filled with missing values. *)
Lemma map_columns_unstarted_column (items : mapping) (k0 : string) :
  ~ In k0 (map fst items) ->
  forall f, grown 0 f -> lookup k0 (columns f) = Some [] ->
  exists f', outcome (map_columns df items f) = inr f' /\
             lookup k0 (columns f')
             = Some (if copies df items then repeat NaN n else []).
Proof.
  induction items as [|[k sc] items IH]; intros Hnot f Hf Hk0.
  - exists f. split; [reflexivity | exact Hk0].
  - simpl in Hnot.
    assert (Hne : k0 <> k) by (intro; subst; tauto).
    assert (Hnot' : ~ In k0 (map fst items)) by tauto.
    rewrite map_columns_step, copies_cons.
    destruct (source_column df sc) as [s|] eqn:Hs; cbn [is_some orb].
    + pose proof (source_column_length sc s Hs) as Hlen.
      destruct (map_columns_keeps df df_wf items k0 (repeat NaN n) Hnot'
                  (setitem_series f k s)) as (f' & Hout & _ & Hk0').
      * apply setitem_series_grown; [|exact Hlen].
        destruct Hf as [Hwf H0]. split; [exact Hwf | right; exact H0].
      * destruct Hf as [Hwf H0]. unfold setitem_series. rewrite H0.
        destruct (length s =? 0)%nat eqn:E; simpl.
        -- apply Nat.eqb_eq in E. rewrite lookup_assign_other by exact Hne.
           rewrite Hk0. rewrite <- Hlen, E. reflexivity.
        -- rewrite lookup_assign_other by exact Hne.
           rewrite (lookup_map_snd (fun _ _ => repeat NaN (length s))).
           rewrite Hk0, Hlen. reflexivity.
      * exists f'. split; assumption.
    + apply IH; [exact Hnot' | apply setitem_scalar_grown; exact Hf |].
      rewrite setitem_scalar_lookup_other by exact Hne. exact Hk0.
Qed.

(** What the loop leaves in the column of a key: the source column when
    there is one to copy; otherwise the empty string in every row when a
    column was copied before, missing values when the first column is
    copied later, and nothing when no column is copied at all. *)
Lemma map_columns_column (pre post : mapping) (k : string) sc :
  NoDup (map fst (pre ++ (k, sc) :: post)) ->
  exists f', outcome (map_columns df (pre ++ (k, sc) :: post) empty_frame)
             = inr f' /\
    lookup k (columns f')
    = Some (match source_column df sc with
            | Some s => s
            | None =>
                if copies df pre then repeat (Str "") n
                else if copies df post then repeat NaN n else []
            end).
Proof.
  intro Hnd.
  assert (Hpost : ~ In k (map fst post)).
  { rewrite map_app in Hnd. apply NoDup_remove_2 in Hnd.
    intro H. apply Hnd. apply in_or_app. right. exact H. }
  rewrite map_columns_app.
  destruct (map_columns_started pre empty_frame) as (f1 & Hf1 & Hstate).
  { split; [constructor | reflexivity]. }
  rewrite Hf1. rewrite map_columns_step.
  destruct (source_column df sc) as [s|] eqn:Hs.
  - pose proof (source_column_length sc s Hs) as Hlen.
    assert (Hg : growing n f1).
    { destruct (copies df pre); destruct Hstate as [Hwf Hn];
        split; auto. }
    destruct (map_columns_keeps df df_wf post k s Hpost
                (setitem_series f1 k s)) as (f' & Hout & _ & Hk).
    + apply setitem_series_grown; assumption.
    + apply (setitem_series_lookup n); assumption.
    + exists f'. split; assumption.
  - destruct (copies df pre).
    + destruct (map_columns_keeps df df_wf post k (repeat (Str "") n) Hpost
                  (setitem_scalar f1 k (Str ""))) as (f' & Hout & _ & Hk).
      * apply setitem_scalar_grown. exact Hstate.
      * unfold setitem_scalar. simpl. destruct Hstate as [_ ->].
        apply lookup_assign_same.
      * exists f'. split; assumption.
    + apply map_columns_unstarted_column; [exact Hpost | |].
      * apply setitem_scalar_grown. exact Hstate.
      * unfold setitem_scalar. simpl. destruct Hstate as [_ ->].
        apply lookup_assign_same.
Qed.

(** The split into Inflow and Outflow leaves the other columns alone. *)
Lemma apply_mappings_keeps (mappings : mapping) (out : DataFrame) :
  outcome (apply_mappings df mappings) = inr out ->
  exists f,
    outcome (map_columns df mappings empty_frame) = inr f /\
    index_len out = index_len f /\
    forall k, k <> "Amount" -> k <> "Inflow" -> k <> "Outflow" ->
              lookup k (columns out) = lookup k (columns f).
Proof.
  intro Hout.
  destruct (apply_mappings_steps df mappings out Hout)
    as (f & amount & inflow & amount' & outflow
        & Hf & Ha & Ein & Ha' & Eout & Hdrop).
  exists f. split; [exact Hf|].
  destruct (map_columns_growing df df_wf mappings empty_frame)
    as (f' & Hf' & Hwf & _).
  { split; [constructor | right; reflexivity]. }
  rewrite Hf in Hf'. inversion Hf'; subst f'. clear Hf'.
  assert (Hamount : lookup "Amount" (columns f) = Some amount).
  { unfold getitem in Ha. destruct (lookup "Amount" (columns f));
      inversion Ha. reflexivity. }
  assert (Hlin : length inflow = index_len f).
  { rewrite (emap_length _ _ _ Ein).
    exact (well_formed_column f "Amount" amount Hwf Hamount). }
  rewrite (setitem_series_same f "Inflow" inflow Hlin) in Ha', Hdrop.
  unfold getitem in Ha'. cbn [columns] in Ha'.
  rewrite lookup_assign_other in Ha' by discriminate.
  rewrite Hamount in Ha'. inversion Ha'; subst amount'. clear Ha'.
  assert (Hlof : length outflow = index_len f).
  { rewrite (emap_length _ _ _ Eout).
    exact (well_formed_column f "Amount" amount Hwf Hamount). }
  rewrite setitem_series_same in Hdrop by exact Hlof.
  unfold drop_column in Hdrop.
  destruct (has_column _ "Amount"); [|discriminate].
  inversion Hdrop; subst out. clear Hdrop. cbn [index_len columns].
  split; [reflexivity|].
  intros k HA HI HO.
  rewrite lookup_remove_other by exact HA.
  rewrite lookup_assign_other by exact HO.
  apply lookup_assign_other. exact HI.
Qed.

End MapColumnsValues.

(** X3: a key that is mapped to a column the table has holds that column,
    cell for cell, in the normalized table. *)
Theorem apply_mappings_copies_column
  (df : DataFrame) (mappings : mapping) (k src : string) (s : Series)
  (out : DataFrame) :
  well_formed df ->
  NoDup (map fst mappings) ->
  lookup k mappings = Some (Some src) ->
  src <> "" ->
  lookup src (columns df) = Some s ->
  k <> "Amount" -> k <> "Inflow" -> k <> "Outflow" ->
  outcome (apply_mappings df mappings) = inr out ->
  lookup k (columns out) = Some s.
Proof.
  intros Hwf Hnd Hk Hsrc Hs HA HI HO Hout.
  destruct (apply_mappings_keeps df Hwf mappings out Hout)
    as (f & Hf & _ & Hkeep).
  rewrite (Hkeep k HA HI HO).
  destruct (map_columns_mapped df Hwf mappings k src s Hnd Hk Hsrc Hs
              empty_frame) as (f' & Hf' & _ & Hk').
  { split; [constructor | right; reflexivity]. }
  rewrite Hf in Hf'. inversion Hf'; subst f'. exact Hk'.
Qed.

Lemma apply_mappings_copies_column_witness :
  lookup "Payee" (columns normalized_a) = Some [Str "Shop1"].
Proof.
  apply (apply_mappings_copies_column table_a swedbank "Payee" "Beskrivning"
           [Str "Shop1"] normalized_a).
  - exact table_a_well_formed.
  - exact swedbank_dict.
  - reflexivity.
  - discriminate.
  - reflexivity.
  - discriminate.
  - discriminate.
  - discriminate.
  - reflexivity.
Defined.

(** X4: a key that has no column to copy (it is unmapped, like Memo, or its
    source column is absent) and that comes after a key whose column is
    copied holds the empty string in every row. *)
Theorem apply_mappings_blank_column
  (df : DataFrame) (pre post : mapping) (k : string)
  (source_col : option string) (out : DataFrame) :
  well_formed df ->
  NoDup (map fst (pre ++ (k, source_col) :: post)) ->
  source_column df source_col = None ->
  copies df pre = true ->
  k <> "Amount" -> k <> "Inflow" -> k <> "Outflow" ->
  outcome (apply_mappings df (pre ++ (k, source_col) :: post)) = inr out ->
  lookup k (columns out) = Some (repeat (Str "") (len df)).
Proof.
  intros Hwf Hnd Hnone Hpre HA HI HO Hout.
  destruct (apply_mappings_keeps df Hwf _ out Hout) as (f & Hf & _ & Hkeep).
  rewrite (Hkeep k HA HI HO).
  destruct (map_columns_column df Hwf pre post k source_col Hnd)
    as (f' & Hf' & Hk').
  rewrite Hf in Hf'. inversion Hf'; subst f'.
  rewrite Hk', Hnone, Hpre. reflexivity.
Qed.

Lemma apply_mappings_blank_column_witness :
  lookup "Memo" (columns normalized_a) = Some (repeat (Str "") (len table_a)).
Proof.
  apply (apply_mappings_blank_column table_a
           [("Date", Some "Transaktionsdag"); ("Payee", Some "Beskrivning")]
           [("Amount", Some "Belopp")] "Memo" None normalized_a).
  - exact table_a_well_formed.
  - exact swedbank_dict.
  - reflexivity.
  - reflexivity.
  - discriminate.
  - discriminate.
  - discriminate.
  - reflexivity.
Defined.

(** X5: a key that has no column to copy and that comes before the first
    key whose column is copied holds a missing value in every row, not the
    empty string: the frame has no rows yet when the empty string is
    assigned, and gets its rows from the first copied column. *)
Theorem apply_mappings_leading_column_missing
  (df : DataFrame) (pre post : mapping) (k : string)
  (source_col : option string) (out : DataFrame) :
  well_formed df ->
  NoDup (map fst (pre ++ (k, source_col) :: post)) ->
  source_column df source_col = None ->
  copies df pre = false ->
  copies df post = true ->
  k <> "Amount" -> k <> "Inflow" -> k <> "Outflow" ->
  outcome (apply_mappings df (pre ++ (k, source_col) :: post)) = inr out ->
  lookup k (columns out) = Some (repeat NaN (len df)).
Proof.
  intros Hwf Hnd Hnone Hpre Hpost HA HI HO Hout.
  destruct (apply_mappings_keeps df Hwf _ out Hout) as (f & Hf & _ & Hkeep).
  rewrite (Hkeep k HA HI HO).
  destruct (map_columns_column df Hwf pre post k source_col Hnd)
    as (f' & Hf' & Hk').
  rewrite Hf in Hf'. inversion Hf'; subst f'.
  rewrite Hk', Hnone, Hpre, Hpost. reflexivity.
Qed.

Lemma apply_mappings_leading_column_missing_witness :
  lookup "Date"
    (columns (frame_or_empty
                (outcome (apply_mappings table_without_date swedbank))))
  = Some (repeat NaN (len table_without_date)).
Proof.
  apply (apply_mappings_leading_column_missing table_without_date []
           [("Payee", Some "Beskrivning"); ("Memo", None);
            ("Amount", Some "Belopp")]
           "Date" (Some "Transaktionsdag")).
  - repeat constructor.
  - exact swedbank_dict.
  - reflexivity.
  - reflexivity.
  - reflexivity.
  - discriminate.
  - discriminate.
  - discriminate.
  - reflexivity.
Defined.

(* ================================================================== *)
(** * Messages and order of a batch *)

Lemma missing_column_warnings_nil (df : DataFrame) (mappings : mapping) :
  missing_column_warnings df mappings = [] <->
  forall k src, In (k, Some src) mappings -> src <> "" ->
                has_column df src = true.
Proof.
  induction mappings as [|[k0 sc] mappings IH].
  - split; [intros _ k src [] | reflexivity].
  - rewrite missing_column_warnings_cons. split.
    + intros H k src [E|Hin] Hsrc.
      * inversion E; subst k0 sc.
        assert (Ht : truthy (Some src) = true).
        { simpl. apply negb_true_iff. apply String.eqb_neq. exact Hsrc. }
        rewrite Ht in H. destruct (has_column df src); [reflexivity|].
        discriminate.
      * apply app_eq_nil in H. destruct H as [_ H].
        apply (proj1 IH H k src Hin Hsrc).
    + intro H.
      assert (Hrest : missing_column_warnings df mappings = []).
      { apply IH. intros k src Hin. apply (H k src). right. exact Hin. }
      rewrite Hrest, app_nil_r.
      destruct sc as [src|]; [|reflexivity].
      destruct (truthy (Some src)) eqn:Ht; [|reflexivity].
      rewrite (H k0 src); [reflexivity | left; reflexivity |].
      simpl in Ht. apply negb_true_iff in Ht. apply String.eqb_neq. exact Ht.
Qed.

(** X6: [apply_mappings] writes one warning for every mapped source column
    that the table lacks, in the order of the mapping, and nothing else,
    whether it returns or raises; it is silent exactly when the table has
    every mapped source column. *)
Theorem apply_mappings_warnings (df : DataFrame) (mappings : mapping) :
  log_of (apply_mappings df mappings) = missing_column_warnings df mappings /\
  (log_of (apply_mappings df mappings) = [] <->
   forall k src, In (k, Some src) mappings -> src <> "" ->
                 has_column df src = true).
Proof.
  split; [apply apply_mappings_log|].
  rewrite apply_mappings_log. apply missing_column_warnings_nil.
Qed.

Section BatchMessages.

Variable read_csv : UploadedFile -> exn + DataFrame.
Variable read_excel : UploadedFile -> exn + DataFrame.
Variable to_datetime : Series -> list (option Z).
Variable argsort : list Q -> list nat.

Local Abbreviation parse := (parse_transaction_file read_csv read_excel).
Local Abbreviation loop := (batch_loop read_csv read_excel).
Local Abbreviation run := (process read_csv read_excel to_datetime argsort).

(** X7: [parse_transaction_file] never raises.  It returns the table of
    the reader of the file type and writes nothing, or it returns None and
    writes exactly one error. *)
Theorem parse_transaction_file_reports (file : UploadedFile)
  (file_type : string) :
  exists r,
    outcome (parse file file_type) = inr r /\
    match r with
    | Some df =>
        log_of (parse file file_type) = [] /\
        exists read, reader_of read_csv read_excel file_type = Some read /\
                     read file = inr df
    | None => exists msg, log_of (parse file file_type) = [st_error msg]
    end.
Proof.
  rewrite parse_transaction_file_cases.
  destruct (reader_of read_csv read_excel file_type) as [read|].
  - destruct (read file) as [e|df] eqn:E.
    + exists None. split; [reflexivity|]. eexists. reflexivity.
    + exists (Some df). split; [reflexivity|]. split; [reflexivity|].
      exists read. split; [reflexivity | exact E].
  - exists None. split; [reflexivity|]. eexists. reflexivity.
Qed.

(** X8: when the loop over the uploaded files comes to its end, the tables
    it has collected are the normalized tables of the files that could be
    read, one for each of them, in the order of upload. *)
Theorem batch_loop_upload_order
  (file_type : string) (read : UploadedFile -> exn + DataFrame)
  (mappings : mapping) (files : list UploadedFile)
  (acc all : list DataFrame) :
  reader_of read_csv read_excel file_type = Some read ->
  lookup file_type COLUMN_MAPPINGS = Some mappings ->
  outcome (loop files file_type acc) = inr all ->
  exists normalized,
    all = acc ++ normalized /\
    Forall2 (fun t out => outcome (apply_mappings t mappings) = inr out)
            (tables_read read files) normalized.
Proof.
  intros Hread Hm. revert acc.
  induction files as [|file files IH]; intros acc Hall.
  - simpl in Hall. inversion Hall; subst all.
    exists []. split; [symmetry; apply app_nil_r | constructor].
  - rewrite batch_loop_step_outcome in Hall.
    rewrite parse_transaction_file_cases, Hread, Hm in Hall.
    unfold tables_read. cbn [flat_map].
    destruct (read file) as [e|t]; cbn [outcome snd] in Hall.
    + exact (IH acc Hall).
    + destruct (outcome (apply_mappings t mappings)) as [e|mapped] eqn:Ha;
        [discriminate|].
      destruct (IH _ Hall) as (normalized & Hn & Hf2).
      exists (mapped :: normalized). split.
      * rewrite Hn, <- app_assoc. reflexivity.
      * constructor; assumption.
Qed.

(** X9: when the loop comes to its end, its messages are, file after file
    in the order of upload, the announcement of the file followed by the
    error of a file that could not be read or by the warnings for the
    columns that the file lacks. *)
Theorem batch_loop_messages
  (file_type : string) (read : UploadedFile -> exn + DataFrame)
  (mappings : mapping) (files : list UploadedFile)
  (acc all : list DataFrame) :
  reader_of read_csv read_excel file_type = Some read ->
  lookup file_type COLUMN_MAPPINGS = Some mappings ->
  outcome (loop files file_type acc) = inr all ->
  log_of (loop files file_type acc) = batch_log read mappings files.
Proof.
  intros Hread Hm. revert acc.
  induction files as [|file files IH]; intros acc Hall.
  - reflexivity.
  - rewrite batch_loop_step_outcome in Hall.
    rewrite batch_loop_step_log.
    rewrite parse_transaction_file_cases, Hread, Hm in *.
    unfold batch_log. cbn [flat_map]. rewrite <- app_comm_cons. f_equal.
    destruct (read file) as [e|t]; cbn [outcome log_of fst snd] in *.
    + cbn [app]. f_equal. exact (IH acc Hall).
    + destruct (outcome (apply_mappings t mappings)) as [e|mapped] eqn:Ha;
        [discriminate|].
      cbn [app]. rewrite apply_mappings_log. f_equal. exact (IH _ Hall).
Qed.

(** X10: a file that is read but whose normalization raises ends the
    batch with that exception: the files after it are neither announced
    nor read, and the script produces no dataset. *)
Theorem normalization_failure_aborts
  (file_type : string) (read : UploadedFile -> exn + DataFrame)
  (mappings : mapping) (before after : list UploadedFile)
  (file : UploadedFile) (t : DataFrame) (e : exn)
  (acc done : list DataFrame) :
  reader_of read_csv read_excel file_type = Some read ->
  lookup file_type COLUMN_MAPPINGS = Some mappings ->
  read file = inr t ->
  outcome (apply_mappings t mappings) = inl e ->
  outcome (loop before file_type acc) = inr done ->
  outcome (loop (before ++ file :: after) file_type acc) = inl e /\
  log_of (loop (before ++ file :: after) file_type acc)
  = log_of (loop before file_type acc)
    ++ st_write ("Processing " ++ name file ++ "...")%string
       :: missing_column_warnings t mappings /\
  (forall collected,
     outcome (loop before file_type []) = inr collected ->
     outcome (run (before ++ file :: after) file_type) = inl e).
Proof.
  intros Hread Hm Ht He Hdone.
  assert (Hout : forall acc' done',
            outcome (loop before file_type acc') = inr done' ->
            outcome (loop (before ++ file :: after) file_type acc') = inl e).
  { intros acc' done' Hdone'.
    rewrite batch_loop_app_outcome, Hdone', batch_loop_step_outcome.
    rewrite parse_transaction_file_cases, Hread, Ht, Hm.
    cbn [outcome snd]. rewrite He. reflexivity. }
  split; [exact (Hout acc done Hdone)|]. split.
  - rewrite batch_loop_app_log, Hdone, batch_loop_step_log.
    rewrite parse_transaction_file_cases, Hread, Ht, Hm.
    cbn [outcome log_of fst snd app]. rewrite He, apply_mappings_log.
    rewrite app_nil_r. reflexivity.
  - intros collected Hc.
    rewrite process_outcome, (Hout [] collected Hc). reflexivity.
Qed.

End BatchMessages.

Lemma batch_loop_upload_order_witness :
  exists normalized,
    [normalized_a; frame_or_empty (outcome (apply_mappings table_b swedbank))]
    = [] ++ normalized /\
    Forall2 (fun t out => outcome (apply_mappings t swedbank) = inr out)
            (tables_read example_read_csv [file_a; file_broken; file_b])
            normalized.
Proof.
  apply (batch_loop_upload_order example_read_csv example_read_excel
           "Swedbank (csv)" example_read_csv swedbank
           [file_a; file_broken; file_b] []).
  - reflexivity.
  - reflexivity.
  - reflexivity.
Defined.

Lemma batch_loop_messages_witness :
  log_of (batch_loop example_read_csv example_read_excel
            [file_a; file_broken; file_b] "Swedbank (csv)" [])
  = batch_log example_read_csv swedbank [file_a; file_broken; file_b].
Proof.
  apply (batch_loop_messages example_read_csv example_read_excel
           "Swedbank (csv)" example_read_csv swedbank
           [file_a; file_broken; file_b] []
           [normalized_a;
            frame_or_empty (outcome (apply_mappings table_b swedbank))]).
  - reflexivity.
  - reflexivity.
  - reflexivity.
Defined.

Lemma normalization_failure_aborts_witness :
  outcome (batch_loop example_read_text example_read_excel
             ([file_a] ++ file_c :: [file_b]) "Swedbank (csv)" [])
  = inl TypeError /\
  log_of (batch_loop example_read_text example_read_excel
            ([file_a] ++ file_c :: [file_b]) "Swedbank (csv)" [])
  = log_of (batch_loop example_read_text example_read_excel
              [file_a] "Swedbank (csv)" [])
    ++ st_write ("Processing " ++ name file_c ++ "...")%string
       :: missing_column_warnings (one_row (Str "abc")) swedbank /\
  (forall collected,
     outcome (batch_loop example_read_text example_read_excel
                [file_a] "Swedbank (csv)" []) = inr collected ->
     outcome (process example_read_text example_read_excel
                example_to_datetime NumPy.argsort
                ([file_a] ++ file_c :: [file_b]) "Swedbank (csv)")
     = inl TypeError).
Proof.
  apply (normalization_failure_aborts example_read_text example_read_excel
           example_to_datetime NumPy.argsort
           "Swedbank (csv)" example_read_text swedbank
           [file_a] [file_b] file_c (one_row (Str "abc")) TypeError
           [] [normalized_a]).
  - reflexivity.
  - reflexivity.
  - reflexivity.
  - reflexivity.
  - reflexivity.
Defined.

(* ================================================================== *)
(** * The figures of the merged dataset, one by one *)

Lemma Qsum_nonneg (l : list Q) : Forall (fun q => 0 <= q) l -> 0 <= Qsum l.
Proof.
  induction 1 as [|q l Hq _ IH]; simpl; [apply Qle_refl | lra].
Qed.

Lemma Qsum_inflow_of (l : list Q) :
  Qsum (map inflow_of l) == Qsum (map round2 (filter (Qltb 0) l)).
Proof.
  induction l as [|a l IH]; [reflexivity|].
  simpl. unfold inflow_of at 1. destruct (Qltb 0 a); simpl; lra.
Qed.

Lemma Qsum_outflow_of (l : list Q) :
  Qsum (map outflow_of l)
  == Qsum (map (fun a => round2 (- a)) (filter (fun a => Qltb a 0) l)).
Proof.
  induction l as [|a l IH]; [reflexivity|].
  simpl. unfold outflow_of at 1. destruct (Qltb a 0); simpl; lra.
Qed.




Lemma all_amounts_length (mappings : mapping) (src : string)
  (tables normalized : list DataFrame) :
  Forall2 (normalizes mappings src) tables normalized ->
  length (all_amounts src tables) = list_sum (map len tables).
Proof.
  unfold all_amounts.
  induction 1 as [|t o ts os (Hwf & (amounts & Hcol & Hnum) & _) _ IH];
    [reflexivity|].
  simpl. rewrite length_app, IH. f_equal.
  rewrite (column_lookup t src amounts Hcol).
  rewrite (numbers_length amounts Hnum).
  exact (well_formed_column t src amounts Hwf Hcol).
Qed.

Section MergedFigures.

Variable to_datetime : Series -> list (option Z).
Variable argsort : list Q -> list nat.
Variable mappings : mapping.
Variable src : string.
Variable tables normalized : list DataFrame.
Variable out : DataFrame.

Hypothesis mappings_dict : NoDup (map fst mappings).
Hypothesis amount_mapped : lookup "Amount" mappings = Some (Some src).
Hypothesis src_named : src <> "".
Hypothesis tables_normalized :
  Forall2 (normalizes mappings src) tables normalized.
Hypothesis dates_length :
  length (to_datetime (column (pd_concat normalized) "Date"))
  = length (column (pd_concat normalized) "Date").
Hypothesis argsort_ok :
  is_argsort (date_keys to_datetime normalized)
             (argsort (date_keys to_datetime normalized)) = true.
Hypothesis merged : merge to_datetime argsort normalized = inr out.

(** The rows of the merged dataset are those of the concatenation, read
    through a permutation. *)
Lemma merged_indexer :
  exists indexer,
    Permutation indexer (seq 0 (length (all_amounts src tables))) /\
    len out = length indexer /\
    lookup "Inflow" (columns out)
    = Some (map (fun i => nth i (map Num (map inflow_of
                                            (all_amounts src tables))) NaN)
                indexer) /\
    lookup "Outflow" (columns out)
    = Some (map (fun i => nth i (map Num (map outflow_of
                                            (all_amounts src tables))) NaN)
                indexer).
Proof.
  pose proof merged as Hmerge.
  pose proof (normalized_well_formed mappings src mappings_dict amount_mapped
                src_named tables normalized tables_normalized) as Hwf.
  destruct (lookup "Date" (columns (pd_concat normalized))) as [date|]
    eqn:Hdate.
  2:{ rewrite (merge_without_date to_datetime argsort normalized Hdate)
        in Hmerge. discriminate. }
  assert (Hne : normalized <> []).
  { intro E. rewrite E in Hdate. discriminate. }
  destruct (merge_rows to_datetime argsort normalized Hwf dates_length
              date Hdate argsort_ok) as (indexer & Hperm & Hout).
  destruct (merge_outcome to_datetime argsort normalized Hwf dates_length
              date Hdate) as [Hdated _].
  rewrite Hout in Hmerge. injection Hmerge as Hmerge.
  pose proof (concat_inflow mappings src mappings_dict amount_mapped
                src_named tables normalized tables_normalized Hne) as Hin.
  pose proof (concat_outflow mappings src mappings_dict amount_mapped
                src_named tables normalized tables_normalized Hne) as Hof.
  pose proof (pd_concat_well_formed normalized Hwf) as Hcwf.
  assert (Hlin : length (all_amounts src tables)
                 = index_len (pd_concat normalized)).
  { rewrite <- (length_map inflow_of), <- (length_map Num).
    exact (well_formed_column _ "Inflow" _ Hcwf Hin). }
  exists indexer. rewrite <- Hmerge.
  split; [rewrite Hlin; exact Hperm|].
  split; [reflexivity|].
  split.
  - rewrite take_rows_column, Hdated. cbn [columns].
    rewrite lookup_assign_other by discriminate. rewrite Hin. reflexivity.
  - rewrite take_rows_column, Hdated. cbn [columns].
    rewrite lookup_assign_other by discriminate. rewrite Hof. reflexivity.
Qed.

(** The number of rows of the merged dataset. *)
Lemma merged_len : len out = length (all_amounts src tables).
Proof.
  destruct merged_indexer as (indexer & Hperm & Hrows & _).
  rewrite Hrows, (Permutation_length Hperm). apply length_seq.
Qed.

(** The two totals of the merged dataset, in terms of the amounts of the
    files, when the sums fit. *)
Lemma merged_figures :
  sum_fits (map inflow_of (all_amounts src tables)) = true ->
  sum_fits (map outflow_of (all_amounts src tables)) = true ->
  exists total_inflow total_outflow,
    calculate_kpis out = inr (Num total_inflow, Num total_outflow) /\
    total_inflow == Qsum (map inflow_of (all_amounts src tables)) /\
    total_outflow == Qsum (map outflow_of (all_amounts src tables)).
Proof.
  intros Hfin Hfof.
  destruct merged_indexer as (indexer & Hperm & _ & Hin & Hof).
  destruct (Series_sum_take (map inflow_of (all_amounts src tables)) indexer)
    as (ti & Hti & Eti); [rewrite length_map; exact Hperm | exact Hfin |].
  destruct (Series_sum_take (map outflow_of (all_amounts src tables)) indexer)
    as (to & Hto & Eto); [rewrite length_map; exact Hperm | exact Hfof |].
  exists ti, to.
  split; [|split; [exact Eti | exact Eto]].
  rewrite (calculate_kpis_columns out _ _ Hin Hof).
  rewrite Hti. cbn [ebind]. rewrite Hto. reflexivity.
Qed.

End MergedFigures.

(** X11: in a dataset merged from tables whose amounts are numbers, and
    whose Inflow and Outflow sums do not overflow int64 where the columns
    are int64, the total inflow is the sum of the positive amounts, each
    rounded to two decimals, and the total outflow is the sum of the negated
    negative amounts, each rounded to two decimals; neither total is
    negative. *)
Theorem merged_totals_by_sign
  (to_datetime : Series -> list (option Z)) (argsort : list Q -> list nat)
  (mappings : mapping) (src : string)
  (tables normalized : list DataFrame) (out : DataFrame) :
  NoDup (map fst mappings) ->
  lookup "Amount" mappings = Some (Some src) ->
  src <> "" ->
  Forall2 (normalizes mappings src) tables normalized ->
  length (to_datetime (column (pd_concat normalized) "Date"))
  = length (column (pd_concat normalized) "Date") ->
  is_argsort (date_keys to_datetime normalized)
             (argsort (date_keys to_datetime normalized)) = true ->
  merge to_datetime argsort normalized = inr out ->
  sum_fits (map inflow_of (all_amounts src tables)) = true ->
  sum_fits (map outflow_of (all_amounts src tables)) = true ->
  exists total_inflow total_outflow,
    calculate_kpis out = inr (Num total_inflow, Num total_outflow) /\
    total_inflow
    == Qsum (map round2 (filter (Qltb 0) (all_amounts src tables))) /\
    total_outflow
    == Qsum (map (fun a => round2 (- a))
                 (filter (fun a => Qltb a 0) (all_amounts src tables))) /\
    0 <= total_inflow /\ 0 <= total_outflow.
Proof.
  intros Hnd Hmap Hsrc Hnorm Hlen Hok Hmerge Hfin Hfof.
  destruct (merged_figures to_datetime argsort mappings src tables normalized
              out Hnd Hmap Hsrc Hnorm Hlen Hok Hmerge Hfin Hfof)
    as (ti & to & Hk & Eti & Eto).
  exists ti, to. split; [exact Hk|].
  split; [rewrite Eti; apply Qsum_inflow_of|].
  split; [rewrite Eto; apply Qsum_outflow_of|].
  split.
  - rewrite Eti. apply Qsum_nonneg. apply Forall_map.
    apply Forall_forall. intros a _. apply inflow_of_nonneg.
  - rewrite Eto. apply Qsum_nonneg. apply Forall_map.
    apply Forall_forall. intros a _. apply outflow_of_nonneg.
Qed.

Lemma merged_totals_by_sign_witness :
  exists total_inflow total_outflow,
    calculate_kpis
      (frame_or_empty
         (merge example_to_datetime NumPy.argsort
            [normalized_a;
             frame_or_empty (outcome (apply_mappings table_b swedbank))]))
    = inr (Num total_inflow, Num total_outflow) /\
    total_inflow
    == Qsum (map round2
               (filter (Qltb 0) (all_amounts "Belopp" [table_a; table_b]))) /\
    total_outflow
    == Qsum (map (fun a => round2 (- a))
               (filter (fun a => Qltb a 0)
                       (all_amounts "Belopp" [table_a; table_b]))) /\
    0 <= total_inflow /\ 0 <= total_outflow.
Proof.
  apply (merged_totals_by_sign example_to_datetime NumPy.argsort
           swedbank "Belopp" [table_a; table_b]
           [normalized_a;
            frame_or_empty (outcome (apply_mappings table_b swedbank))]).
  - exact swedbank_dict.
  - reflexivity.
  - discriminate.
  - repeat constructor; try reflexivity;
      (eexists; split; [reflexivity | repeat constructor]).
  - reflexivity.
  - reflexivity.
  - reflexivity.
  - reflexivity.
  - reflexivity.
Defined.

(** X12: when every table of the batch has the column that the mapping
    names for Amount, every cell of that column is a number, and the merge
    returns a dataset, the merged dataset has as many rows as the tables of
    the batch have together: no transaction is lost or doubled on the way
    from the files to the dataset. *)
Theorem merged_row_count
  (to_datetime : Series -> list (option Z)) (argsort : list Q -> list nat)
  (mappings : mapping) (src : string)
  (tables normalized : list DataFrame) (out : DataFrame) :
  NoDup (map fst mappings) ->
  lookup "Amount" mappings = Some (Some src) ->
  src <> "" ->
  Forall2 (normalizes mappings src) tables normalized ->
  length (to_datetime (column (pd_concat normalized) "Date"))
  = length (column (pd_concat normalized) "Date") ->
  is_argsort (date_keys to_datetime normalized)
             (argsort (date_keys to_datetime normalized)) = true ->
  merge to_datetime argsort normalized = inr out ->
  len out = list_sum (map len tables).
Proof.
  intros Hnd Hmap Hsrc Hnorm Hlen Hok Hmerge.
  rewrite (merged_len to_datetime argsort mappings src tables normalized
             out Hnd Hmap Hsrc Hnorm Hlen Hok Hmerge).
  exact (all_amounts_length mappings src tables normalized Hnorm).
Qed.

Lemma merged_row_count_witness :
  len (frame_or_empty
         (merge example_to_datetime NumPy.argsort
            [normalized_a;
             frame_or_empty (outcome (apply_mappings table_b swedbank))]))
  = list_sum (map len [table_a; table_b]).
Proof.
  apply (merged_row_count example_to_datetime NumPy.argsort
           swedbank "Belopp" [table_a; table_b]
           [normalized_a;
            frame_or_empty (outcome (apply_mappings table_b swedbank))]).
  - exact swedbank_dict.
  - reflexivity.
  - discriminate.
  - repeat constructor; try reflexivity;
      (eexists; split; [reflexivity | repeat constructor]).
  - reflexivity.
  - reflexivity.
  - reflexivity.
Defined.



(* ================================================================== *)
(** * The average and the rankings, and the rows behind them *)





(** [average_outflow] by cases: no positive Outflow, or some. *)
Lemma average_outflow_cases (df : DataFrame) (outs : Series) :
  lookup "Outflow" (columns df) = Some outs ->
  Forall (fun c => is_num_or_nan c = true) outs ->
  (filter (Qltb 0) (numbers outs) = [] ->
   average_outflow df = inr (Num 0)) /\
  (filter (Qltb 0) (numbers outs) <> [] ->
   exists mean,
     average_outflow df = inr (Num mean) /\
     mean == Qsum (filter (Qltb 0) (numbers outs))
             / inject_Z (Z.of_nat (length (filter (Qltb 0) (numbers outs))))).
Proof.
  intros Hcol Hnum. set (positive := filter (Qltb 0) (numbers outs)).
  unfold average_outflow.
  rewrite (rows_gt0_numeric df "Outflow" outs Hcol Hnum). simpl ebind.
  set (idx := nonzero (map positive_cell outs)).
  assert (Hsel : getitem (take_rows idx df) "Outflow"
                 = inr (map Num positive)).
  { unfold getitem. rewrite take_rows_column, Hcol. simpl.
    unfold idx. rewrite (take_nonzero positive_cell NaN outs).
    rewrite filter_positive_cell. reflexivity. }
  assert (Hlen : length idx = length positive).
  { unfold getitem in Hsel. rewrite take_rows_column, Hcol in Hsel.
    simpl in Hsel. inversion Hsel as [Hmap].
    rewrite <- (length_map (fun i => nth i outs NaN) idx), Hmap.
    apply length_map. }
  assert (Hcols : (length (columns (take_rows idx df)) =? 0)%nat = false).
  { apply Nat.eqb_neq. unfold take_rows. simpl. rewrite length_map.
    apply lookup_In in Hcol. destruct (columns df); [destruct Hcol|].
    simpl. lia. }
  unfold DataFrame_empty. rewrite Hcols, orb_false_r.
  change (index_len (take_rows idx df)) with (length idx). rewrite Hlen.
  split.
  - intro Hnil. rewrite Hnil. reflexivity.
  - intro Hne. destruct positive as [|q qs] eqn:Epos; [congruence|].
    simpl Nat.eqb. simpl negb. cbv iota.
    rewrite Hsel. simpl ebind.
    exact (Series_mean_nums q qs).
Qed.



Lemma int64_numbers (s : Series) :
  int64 s = true -> forallb is_int64_value (numbers s) = true.
Proof.
  unfold int64. induction s as [|c s IH]; [reflexivity|].
  cbn [forallb]. intro H. apply andb_true_iff in H. destruct H as [Hc Hs].
  destruct c; try discriminate. cbn [numbers forallb].
  rewrite Hc, (IH Hs). reflexivity.
Qed.

Lemma int64_filter_snd {K} (f : K * cell -> bool) (l : list (K * cell)) :
  int64 (map snd l) = true -> int64 (map snd (filter f l)) = true.
Proof.
  unfold int64. induction l as [|x l IH]; [reflexivity|].
  cbn [map forallb filter]. intro H.
  apply andb_true_iff in H. destruct H as [Hx Hl].
  destruct (f x); [cbn [map forallb]; rewrite Hx|]; exact (IH Hl).
Qed.

(** The total of a payee is the exact sum of its payments when that
    fits. *)
Lemma payments_sum (df : DataFrame) (p : cell) :
  payments_fit df p = true ->
  column_sum (int64 (map snd (spending df))) (payments_to df p)
  == Qsum (payments_to df p).
Proof.
  unfold payments_fit. intro Hfit.
  destruct (int64 (map snd (spending df))) eqn:Hint.
  - rewrite (all_int64_whole _ (int64_numbers _ Hint)) in Hfit.
    simpl in Hfit.
    apply column_sum_int64; [|apply in_int64_spec; exact Hfit].
    unfold payments_to. apply int64_numbers.
    apply int64_filter_snd. exact Hint.
  - apply column_sum_float.
Qed.

Lemma cell_eqb_refl (c : cell) : cell_eqb c c = true.
Proof.
  destruct c; simpl; try reflexivity.
  - apply String.eqb_refl.
  - apply Qeq_bool_iff. reflexivity.
  - apply Z.eqb_refl.
Qed.

Lemma In_firstn {A} (n : nat) (l : list A) (x : A) :
  In x (firstn n l) -> In x l.
Proof.
  intro H. rewrite <- (firstn_skipn n l). apply in_or_app. left. exact H.
Qed.

Lemma In_insert_sorted (k x : cell) (l : list cell) :
  In x (insert_sorted k l) -> x = k \/ In x l.
Proof.
  induction l as [|y l IH]; simpl.
  - intros [H|[]]; auto.
  - destruct (cell_leb k y); simpl.
    + intros [H|H]; auto.
    + intros [H|H]; [auto|]. destruct (IH H); auto.
Qed.

Lemma In_sorted_keys (x : cell) (l : list cell) :
  In x (sorted_keys l) -> In x l.
Proof.
  unfold sorted_keys. induction l as [|k l IH]; simpl; [auto|].
  intro H. apply In_insert_sorted in H. destruct H; auto.
Qed.

Lemma numbers_In (q : Q) (s : Series) :
  In (Num q) s -> (1 <= length (numbers s))%nat.
Proof.
  induction s as [|c s IH]; [intros []|].
  intros [->|H]; [simpl; lia|].
  specialize (IH H). destruct c; simpl; lia.
Qed.

(** A payee that was paid has a payment. *)
Lemma payees_paid (df : DataFrame) (p : cell) :
  In p (payees df) -> (1 <= length (payments_to df p))%nat.
Proof.
  intro H. unfold payees in H. apply In_unique in H.
  apply filter_In in H. destruct H as [H _].
  apply in_map_iff in H. destruct H as ([p' o] & E & Hin).
  simpl in E. subst p'.
  assert (Hpos : positive_cell o = true).
  { unfold spending in Hin. apply filter_In in Hin. apply Hin. }
  destruct o as [s|q| |t|]; try discriminate.
  unfold payments_to. apply (numbers_In q).
  apply in_map_iff. exists (p, Num q). split; [reflexivity|].
  apply filter_In. split; [exact Hin|]. simpl. apply cell_eqb_refl.
Qed.

Section RankedEntries.

Variable argsort : list Q -> list nat.
Variable df : DataFrame.
Variable payee_col outs : Series.

Hypothesis payee_present : lookup "Payee" (columns df) = Some payee_col.
Hypothesis outflow_present : lookup "Outflow" (columns df) = Some outs.
Hypothesis same_length : length payee_col = length outs.
Hypothesis outflow_numeric : Forall (fun c => is_num_or_nan c = true) outs.

(** The entries of the ranking by count are entries of the counts. *)
Lemma top_payees_count_In (top : list (cell * cell)) :
  is_argsort (rev (values_of (payee_counts df)))
             (argsort (rev (values_of (payee_counts df)))) = true ->
  top_payees_count argsort df = inr top ->
  forall e, In e top -> In e (payee_counts df).
Proof.
  intros Hok Htop e He.
  rewrite (top_payees_count_unfold argsort df payee_col outs payee_present
             outflow_present same_length outflow_numeric) in Htop.
  rewrite (Series_sort_values_descending argsort _ (NaN, NaN)
             (payee_counts df) (values_of (payee_counts df))
             (payee_counts_values df) Hok) in Htop.
  cbn [ebind] in Htop. unfold head in Htop.
  match type of Htop with
  | inr (firstn 5 ?r) = _ =>
      assert (E : top = firstn 5 r) by congruence
  end.
  rewrite E in He. apply In_firstn in He.
  exact (Permutation_in e
           (sorted_descending_permutation argsort _ (NaN, NaN)
              (payee_counts df) (values_of (payee_counts df))
              (payee_counts_values df) Hok) He).
Qed.

(** The entries of the ranking by amount are rounded entries of the
    totals. *)
Lemma top_payees_amount_In (top : list (cell * cell)) :
  is_argsort (rev (values_of (payee_totals df)))
             (argsort (rev (values_of (payee_totals df)))) = true ->
  top_payees_amount argsort df = inr top ->
  forall e, In e top -> exists e', In e' (payee_totals df) /\ e = rounded e'.
Proof.
  intros Hok Htop e He.
  rewrite (top_payees_amount_unfold argsort df payee_col outs payee_present
             outflow_present same_length outflow_numeric) in Htop.
  rewrite (Series_sort_values_descending argsort _ (NaN, NaN)
             (payee_totals df) (values_of (payee_totals df))
             (payee_totals_values df) Hok) in Htop.
  cbn [ebind] in Htop.
  rewrite (emap_round _ _
             (sorted_descending_values argsort _ (NaN, NaN)
                (payee_totals df) (values_of (payee_totals df))
                (payee_totals_values df) Hok)) in Htop.
  cbn [ebind] in Htop. unfold head in Htop.
  match type of Htop with
  | inr (firstn 5 ?r) = _ =>
      assert (E : top = firstn 5 r) by congruence
  end.
  rewrite E in He. apply In_firstn in He. apply in_map_iff in He.
  destruct He as (e' & E' & He'). exists e'. split; [|symmetry; exact E'].
  exact (Permutation_in e'
           (sorted_descending_permutation argsort _ (NaN, NaN)
              (payee_totals df) (values_of (payee_totals df))
              (payee_totals_values df) Hok) He').
Qed.

End RankedEntries.

(** X15: every entry of the ranking by count names a payee that is not
    missing and that has at least one row with a positive Outflow, and its
    count is the number of these rows. *)
Theorem top_payees_count_entries
  (argsort : list Q -> list nat) (df : DataFrame) (payee_col outs : Series)
  (top : list (cell * cell)) (p c : cell) :
  lookup "Payee" (columns df) = Some payee_col ->
  lookup "Outflow" (columns df) = Some outs ->
  length payee_col = length outs ->
  Forall (fun c => is_num_or_nan c = true) outs ->
  is_argsort (rev (values_of (payee_counts df)))
             (argsort (rev (values_of (payee_counts df)))) = true ->
  top_payees_count argsort df = inr top ->
  In (p, c) top ->
  isna p = false /\
  c = Num (inject_Z (Z.of_nat (length (payments_to df p)))) /\
  (1 <= length (payments_to df p))%nat.
Proof.
  intros Hpayee Hout Hlen Hnum Hok Htop Hin.
  pose proof (top_payees_count_In argsort df payee_col outs Hpayee Hout Hlen
                Hnum top Hok Htop (p, c) Hin) as H.
  unfold payee_counts in H. apply in_map_iff in H.
  destruct H as (p' & E & Hp'). inversion E; subst p'.
  split; [exact (payees_notna df p Hp')|].
  split; [reflexivity | exact (payees_paid df p Hp')].
Qed.

Lemma top_payees_count_entries_witness :
  isna (Str "Shop2") = false /\
  Num 2 = Num (inject_Z (Z.of_nat (length (payments_to ledger (Str "Shop2")))))
  /\ (1 <= length (payments_to ledger (Str "Shop2")))%nat.
Proof.
  apply (top_payees_count_entries NumPy.argsort ledger
           [Str "Shop2"; Str "Shop1"; Str "Employer"; Str "Shop2"; NaN]
           [Num (5 # 2); Num 10; Num 0; Num 5; Num 1]
           [(Str "Shop2", Num 2); (Str "Shop1", Num 1)]).
  - reflexivity.
  - reflexivity.
  - reflexivity.
  - repeat constructor.
  - reflexivity.
  - reflexivity.
  - left. reflexivity.
Defined.

(** X16: every entry of the ranking by amount names a payee that is not
    missing and that has at least one row with a positive Outflow, and,
    when the sum of the Outflow of these rows does not overflow int64 where
    the payments are int64, its amount is that sum, rounded to two
    decimals. *)
Theorem top_payees_amount_entries
  (argsort : list Q -> list nat) (df : DataFrame) (payee_col outs : Series)
  (top : list (cell * cell)) (p c : cell) :
  lookup "Payee" (columns df) = Some payee_col ->
  lookup "Outflow" (columns df) = Some outs ->
  length payee_col = length outs ->
  Forall (fun c => is_num_or_nan c = true) outs ->
  is_argsort (rev (values_of (payee_totals df)))
             (argsort (rev (values_of (payee_totals df)))) = true ->
  top_payees_amount argsort df = inr top ->
  In (p, c) top ->
  payments_fit df p = true ->
  isna p = false /\
  (exists total,
     c = Num (round2 total) /\ total == Qsum (payments_to df p)) /\
  (1 <= length (payments_to df p))%nat.
Proof.
  intros Hpayee Hout Hlen Hnum Hok Htop Hin Hfit.
  destruct (top_payees_amount_In argsort df payee_col outs Hpayee Hout Hlen
              Hnum top Hok Htop (p, c) Hin) as (e' & He' & E).
  unfold payee_totals in He'. apply in_map_iff in He'.
  destruct He' as (p' & E' & Hp'). subst e'.
  unfold rounded in E. simpl in E. inversion E; subst p' c.
  apply In_sorted_keys in Hp'.
  split; [exact (payees_notna df p Hp')|].
  split; [|exact (payees_paid df p Hp')].
  eexists. split; [reflexivity|].
  exact (payments_sum df p Hfit).
Qed.

Lemma top_payees_amount_entries_witness :
  isna (Str "Shop1") = false /\
  (exists total,
     Num (round2 10) = Num (round2 total) /\
     total == Qsum (payments_to ledger (Str "Shop1"))) /\
  (1 <= length (payments_to ledger (Str "Shop1")))%nat.
Proof.
  apply (top_payees_amount_entries NumPy.argsort ledger
           [Str "Shop2"; Str "Shop1"; Str "Employer"; Str "Shop2"; NaN]
           [Num (5 # 2); Num 10; Num 0; Num 5; Num 1]
           [(Str "Shop1", Num (round2 10));
            (Str "Shop2", Num (round2 (15 # 2)))]).
  - reflexivity.
  - reflexivity.
  - reflexivity.
  - repeat constructor.
  - reflexivity.
  - reflexivity.
  - left. reflexivity.
  - reflexivity.
Defined.

(** X17: a dataset without a positive Outflow, an empty one included, has
    empty rankings and the average outflow 0. *)
Theorem no_outflow_no_ranking
  (argsort : list Q -> list nat) (df : DataFrame) (payee_col outs : Series) :
  lookup "Payee" (columns df) = Some payee_col ->
  lookup "Outflow" (columns df) = Some outs ->
  length payee_col = length outs ->
  Forall (fun c => is_num_or_nan c = true) outs ->
  Forall (fun c => positive_cell c = false) outs ->
  is_argsort [] (argsort []) = true ->
  top_payees_count argsort df = inr [] /\
  top_payees_amount argsort df = inr [] /\
  average_outflow df = inr (Num 0).
Proof.
  intros Hpayee Hout Hlen Hnum Hnone Hok.
  assert (Hargsort : argsort [] = []).
  { unfold is_argsort in Hok. simpl in Hok.
    destruct (argsort []); [reflexivity | discriminate]. }
  assert (Hspend : spending df = []).
  { rewrite (spending_combine df payee_col outs Hpayee Hout).
    apply filter_none_hold. apply Forall_forall. intros [p o] Hin.
    apply in_combine_r in Hin. rewrite Forall_forall in Hnone.
    exact (Hnone o Hin). }
  assert (Hpayees : payees df = []).
  { unfold payees. rewrite Hspend. reflexivity. }
  split; [|split].
  - rewrite (top_payees_count_unfold argsort df payee_col outs Hpayee Hout
               Hlen Hnum).
    unfold payee_counts. rewrite Hpayees.
    unfold Series_sort_values, nargsort. simpl. rewrite Hargsort.
    reflexivity.
  - rewrite (top_payees_amount_unfold argsort df payee_col outs Hpayee Hout
               Hlen Hnum).
    unfold payee_totals. rewrite Hpayees.
    unfold Series_sort_values, nargsort. simpl. rewrite Hargsort.
    reflexivity.
  - apply (average_outflow_cases df outs Hout Hnum).
    rewrite <- (map_id (filter (Qltb 0) (numbers outs))).
    apply map_eq_nil with (f := Num).
    rewrite map_id, <- filter_positive_cell.
    apply filter_none_hold. exact Hnone.
Qed.

Lemma no_outflow_no_ranking_witness :
  top_payees_count NumPy.argsort
    (frame_or_empty (outcome (apply_mappings table_b swedbank))) = inr [] /\
  top_payees_amount NumPy.argsort
    (frame_or_empty (outcome (apply_mappings table_b swedbank))) = inr [] /\
  average_outflow
    (frame_or_empty (outcome (apply_mappings table_b swedbank)))
  = inr (Num 0).
Proof.
  apply (no_outflow_no_ranking NumPy.argsort
           (frame_or_empty (outcome (apply_mappings table_b swedbank)))
           [Str "Shop2"] [Num 0]).
  - reflexivity.
  - reflexivity.
  - reflexivity.
  - repeat constructor.
  - repeat constructor.
  - reflexivity.
Defined.

(* ================================================================== *)
(** * The date range *)

Lemma datetime64_timestamps (s : Series) :
  Forall (fun c => is_datetime c = true) s ->
  exists values, datetime64 s = Some values /\ somes values = timestamps s
                 /\ length values = length s.
Proof.
  induction 1 as [|c s Hc _ (values & Hv & Hs & Hl)].
  - exists []. repeat split.
  - destruct c; try discriminate; simpl; rewrite Hv; simpl.
    + exists (Some t :: values). simpl. rewrite Hs, Hl. repeat split.
    + exists (None :: values). simpl. rewrite Hl. repeat split; exact Hs.
Qed.

Lemma timestamps_missing (s : Series) :
  Forall (fun c => c = NaT) s -> timestamps s = [].
Proof.
  induction 1 as [|c s -> _ IH]; [reflexivity | exact IH].
Qed.

(** The timestamps of a column in date order ascend. *)
Lemma timestamps_sorted (s : Series) :
  StronglySorted date_le s -> StronglySorted Z.le (timestamps s).
Proof.
  induction 1 as [|c s _ IH Hall]; [constructor|].
  destruct c; simpl; try exact IH.
  constructor; [exact IH|].
  clear IH. induction Hall as [|c' s' Hc _ IH']; [constructor|].
  destruct c'; simpl in *; try exact IH'; try contradiction.
  constructor; assumption.
Qed.

Lemma fold_min_sorted (ts : list Z) :
  forall t, Forall (Z.le t) ts -> fold_left Z.min ts t = t.
Proof.
  induction ts as [|x ts IH]; intros t H; [reflexivity|].
  inversion H as [|? ? Hx Hts]; subst. simpl.
  rewrite Z.min_l by exact Hx. apply IH. exact Hts.
Qed.

Lemma last_cons {A} (x d : A) (l : list A) : last (x :: l) d = last l x.
Proof.
  revert x d. induction l as [|y l IH]; intros x d; [reflexivity|].
  change (last (x :: y :: l) d) with (last (y :: l) d).
  rewrite (IH y d), (IH y x). reflexivity.
Qed.

Lemma fold_max_sorted (ts : list Z) :
  forall t, StronglySorted Z.le (t :: ts) -> fold_left Z.max ts t = last ts t.
Proof.
  induction ts as [|x ts IH]; intros t H; [reflexivity|].
  apply StronglySorted_inv in H. destruct H as [Hs Hall].
  inversion Hall as [|? ? Hx _]; subst.
  cbn [fold_left]. rewrite Z.max_r by exact Hx.
  rewrite (IH x Hs). symmetry. apply last_cons.
Qed.

Section DateRange.

Variable strftime : Z -> string.

(** The date range when the first and the last timestamp are known. *)
Lemma date_range_timestamps (df : DataFrame) (date : Series) (t : Z)
  (ts : list Z) :
  lookup "Date" (columns df) = Some date ->
  Forall (fun c => is_datetime c = true) date ->
  timestamps date = t :: ts ->
  date_range strftime df
  = inr (strftime (fold_left Z.min ts t) ++ " to "
         ++ strftime (fold_left Z.max ts t))%string.
Proof.
  intros Hcol Hdt Hts.
  destruct (datetime64_timestamps date Hdt) as (values & Hv & Hs & _).
  unfold date_range, getitem. rewrite Hcol. cbn [ebind].
  unfold Series_min, Series_max. rewrite Hv, Hs, Hts. reflexivity.
Qed.

(** Without a timestamp there is no date range. *)
Lemma date_range_missing (df : DataFrame) (date : Series) :
  lookup "Date" (columns df) = Some date ->
  Forall (fun c => c = NaT) date ->
  date_range strftime df
  = inl (Exception "NaTType does not support strftime").
Proof.
  intros Hcol Hnat.
  destruct (datetime64_timestamps date) as (values & Hv & Hs & _).
  { eapply Forall_impl; [|exact Hnat]. intros c ->. reflexivity. }
  unfold date_range, getitem. rewrite Hcol. cbn [ebind].
  unfold Series_min. rewrite Hv, Hs, (timestamps_missing date Hnat).
  reflexivity.
Qed.

(** X18: on a dataset in date order, as the merged dataset is, the date
    range runs from the date of the first row to the date of the last row
    that has one. *)
Theorem date_range_first_to_last (df : DataFrame) (date : Series) (t : Z) :
  lookup "Date" (columns df) = Some date ->
  Forall (fun c => is_datetime c = true) date ->
  StronglySorted date_le date ->
  nth_error date 0 = Some (Time t) ->
  date_range strftime df
  = inr (strftime t ++ " to " ++ strftime (last (timestamps date) t))%string.
Proof.
  intros Hcol Hdt Hsorted Hfirst.
  destruct date as [|c rest]; [discriminate|].
  simpl in Hfirst. inversion Hfirst; subst c.
  pose proof (timestamps_sorted _ Hsorted) as Hts. simpl in Hts.
  rewrite (date_range_timestamps df (Time t :: rest) t (timestamps rest)
             Hcol Hdt eq_refl).
  rewrite (fold_max_sorted _ t Hts).
  apply StronglySorted_inv in Hts. destruct Hts as [_ Hall].
  rewrite (fold_min_sorted _ t Hall).
  cbn [timestamps]. rewrite last_cons. reflexivity.
Qed.

(** X19: when no date of the batch can be parsed, the merge still gives a
    dataset, and the date range raises: a missing timestamp has no
    strftime. *)
Theorem date_range_needs_a_date
  (to_datetime : Series -> list (option Z)) (argsort : list Q -> list nat)
  (all_transactions : list DataFrame) (date : Series) :
  Forall well_formed all_transactions ->
  lookup "Date" (columns (pd_concat all_transactions)) = Some date ->
  length (to_datetime (column (pd_concat all_transactions) "Date"))
  = length (column (pd_concat all_transactions) "Date") ->
  is_argsort (date_keys to_datetime all_transactions)
             (argsort (date_keys to_datetime all_transactions)) = true ->
  Forall (fun d => d = None)
         (to_datetime (column (pd_concat all_transactions) "Date")) ->
  exists combined_df,
    merge to_datetime argsort all_transactions = inr combined_df /\
    len combined_df = len (pd_concat all_transactions) /\
    date_range strftime combined_df
    = inl (Exception "NaTType does not support strftime").
Proof.
  intros Hwf Hdate Hlen Hok Hnone.
  destruct (merge_rows to_datetime argsort all_transactions Hwf Hlen
              date Hdate Hok) as (indexer & Hperm & Hout).
  destruct (merge_outcome to_datetime argsort all_transactions Hwf Hlen
              date Hdate) as [Hdated _].
  exists (take_rows indexer (with_dates to_datetime all_transactions)).
  split; [exact Hout|]. split.
  { unfold len. change (index_len (take_rows indexer
                          (with_dates to_datetime all_transactions)))
      with (length indexer).
    rewrite (Permutation_length Hperm). apply length_seq. }
  set (dates := to_datetime (column (pd_concat all_transactions) "Date")) in *.
  apply (date_range_missing _
           (map (fun i => nth i (map datetime_cell dates) NaN) indexer)).
  - rewrite take_rows_column, Hdated. cbn [columns].
    rewrite lookup_assign_same. reflexivity.
  - apply Forall_map. apply Forall_forall. intros i Hi.
    assert (Hbound : (i < length (map datetime_cell dates))%nat).
    { rewrite length_map, Hlen.
      rewrite (column_lookup _ "Date" date Hdate).
      rewrite (well_formed_column _ "Date" date
                 (pd_concat_well_formed _ Hwf) Hdate).
      exact (Permutation_seq_bound _ _ Hperm i Hi). }
    assert (Hall : Forall (fun c => c = NaT) (map datetime_cell dates)).
    { apply Forall_map. eapply Forall_impl; [|exact Hnone].
      intros d ->. reflexivity. }
    rewrite Forall_forall in Hall. apply Hall. apply nth_In. exact Hbound.
Qed.

End DateRange.

Lemma date_range_first_to_last_witness :
  date_range example_strftime ledger
  = inr (example_strftime 20240103%Z ++ " to "
         ++ example_strftime
              (last (timestamps [Time 20240103; Time 20240104; Time 20240105;
                                 Time 20240106; NaT]) 20240103%Z))%string.
Proof.
  apply (date_range_first_to_last example_strftime ledger
           [Time 20240103; Time 20240104; Time 20240105; Time 20240106; NaT]
           20240103%Z).
  - reflexivity.
  - repeat constructor.
  - repeat (constructor; simpl; try lia).
  - reflexivity.
Defined.

Lemma date_range_needs_a_date_witness :
  exists combined_df,
    merge (fun s => map (fun _ => None) s) NumPy.argsort [normalized_b]
    = inr combined_df /\
    len combined_df = len (pd_concat [normalized_b]) /\
    date_range example_strftime combined_df
    = inl (Exception "NaTType does not support strftime").
Proof.
  apply (date_range_needs_a_date example_strftime
           (fun s => map (fun _ => None) s) NumPy.argsort [normalized_b]
           [Str "soon"; Str "2024-01-04"]).
  - repeat constructor.
  - reflexivity.
  - reflexivity.
  - reflexivity.
  - repeat constructor.
Defined.

(* ================================================================== *)
(** * The editor and the export *)

Lemma kept_take {A} (d : A) (remove : list bool) (l : list A) :
  length l = length remove ->
  map (fun i => nth i l d)
      (nonzero (map (fun b => Bool.eqb b false) remove))
  = kept remove l.
Proof.
  intro Hlen. unfold kept.
  rewrite <- (take_nonzero (fun xb : A * bool => negb (snd xb)) (d, true)
                (combine l remove)).
  rewrite map_map.
  assert (E : nonzero (map (fun b => Bool.eqb b false) remove)
              = nonzero (map (fun xb : A * bool => negb (snd xb))
                             (combine l remove))).
  { rewrite <- (map_snd_combine l remove Hlen) at 1.
    rewrite map_map. reflexivity. }
  rewrite E. apply map_ext. intro i.
  rewrite (combine_nth l remove i d true Hlen). reflexivity.
Qed.

Lemma kept_length {A} (remove : list bool) (l : list A) :
  length l = length remove ->
  length (kept remove l) = length (filter negb remove).
Proof.
  intro Hlen. unfold kept. rewrite length_map.
  rewrite <- (map_snd_combine l remove Hlen) at 2.
  rewrite <- (map_filter_comm snd negb). symmetry. apply length_map.
Qed.

Lemma kept_none_ticked {A} (l : list A) :
  kept (repeat false (length l)) l = l.
Proof.
  unfold kept. induction l as [|x l IH]; [reflexivity|].
  simpl. f_equal. exact IH.
Qed.

Lemma filter_negb_repeat (n : nat) :
  length (filter negb (repeat false n)) = n.
Proof. induction n as [|n IH]; simpl; congruence. Qed.

Lemma datetime64_values (s : Series) (values : list (option Z)) :
  datetime64 s = Some values ->
  length values = length s /\
  forall strftime,
    map (fun v => match v with
                  | Some t => Str (strftime t)
                  | None => NaN
                  end) values
    = map (date_text strftime) s.
Proof.
  revert values. induction s as [|c s IH]; intros values H.
  - inversion H. split; reflexivity.
  - destruct c; try discriminate; simpl in H;
      destruct (datetime64 s) as [vs|]; try discriminate;
      inversion H; subst values; destruct (IH vs eq_refl) as [Hl Hm];
      (split; [simpl; congruence | intro f; simpl; rewrite Hm; reflexivity]).
Qed.

(** Taking the rows that are not ticked when none is ticked. *)
Lemma take_rows_none_ticked (f : DataFrame) (k : string) :
  well_formed f ->
  lookup k (columns
              (take_rows
                 (nonzero (map (fun b => Bool.eqb b false)
                               (repeat false (index_len f))))
                 f))
  = lookup k (columns f).
Proof.
  intro Hwf. rewrite take_rows_column.
  destruct (lookup k (columns f)) as [s|] eqn:Hs; [|reflexivity].
  cbn [option_map]. f_equal.
  pose proof (well_formed_column f k s Hwf Hs) as Hsl.
  rewrite (kept_take NaN (repeat false (index_len f)) s)
    by (rewrite repeat_length; exact Hsl).
  rewrite <- Hsl, kept_none_ticked. reflexivity.
Qed.

Section ExportProperties.

Variable strftime : Z -> string.
Variable now : string.

(** The export in terms of the rows that are not ticked. *)
Lemma export_outcome (edited_df : Editable) (date : Series) :
  well_formed (frame edited_df) ->
  length (Remove edited_df) = index_len (frame edited_df) ->
  lookup "Date" (columns (frame edited_df)) = Some date ->
  export strftime now edited_df
  = match datetime64 (kept (Remove edited_df) date) with
    | Some _ =>
        inr (mkDF (length (filter negb (Remove edited_df)))
               (assign "Date"
                  (map (date_text strftime) (kept (Remove edited_df) date))
                  (columns
                     (take_rows
                        (nonzero (map (fun b => Bool.eqb b false)
                                      (Remove edited_df)))
                        (frame edited_df)))),
             export_name now (length (filter negb (Remove edited_df))))
    | None =>
        inl (Exception "Can only use .dt accessor with datetimelike values")
    end.
Proof.
  intros Hwf Hlen Hdate.
  assert (Hdl : length date = length (Remove edited_df)).
  { rewrite Hlen. exact (well_formed_column _ "Date" date Hwf Hdate). }
  unfold export, boolean_index.
  set (idx := nonzero (map (fun b => Bool.eqb b false) (Remove edited_df))).
  unfold getitem. rewrite take_rows_column, Hdate. cbn [option_map ebind].
  unfold idx at 1. rewrite (kept_take NaN _ date Hdl).
  unfold dt_strftime.
  destruct (datetime64 (kept (Remove edited_df) date)) as [values|] eqn:Hv;
    [|reflexivity].
  destruct (datetime64_values _ values Hv) as [Hvl Hvm].
  cbn [ebind]. rewrite (Hvm strftime).
  assert (Hidx : length idx = length (filter negb (Remove edited_df))).
  { rewrite <- (kept_length _ date Hdl).
    rewrite <- (kept_take NaN _ date Hdl). fold idx.
    symmetry. apply length_map. }
  rewrite setitem_series_same.
  - unfold len, export_name. cbn [index_len].
    change (index_len (take_rows idx (frame edited_df))) with (length idx).
    rewrite Hidx. reflexivity.
  - rewrite length_map, (kept_length _ date Hdl). symmetry. exact Hidx.
Qed.

(** X20: the export holds the rows that are not ticked, in the order of
    the edited table and without the ticked ones; the Date of a row is
    written as text and every other cell is as in the edited table; the
    number in the file name is the number of exported rows. *)
Theorem export_unticked_rows (edited_df : Editable) (final_df : DataFrame)
  (filename : string) :
  well_formed (frame edited_df) ->
  length (Remove edited_df) = index_len (frame edited_df) ->
  export strftime now edited_df = inr (final_df, filename) ->
  len final_df = length (filter negb (Remove edited_df)) /\
  filename = export_name now (len final_df) /\
  (exists date,
     lookup "Date" (columns (frame edited_df)) = Some date /\
     lookup "Date" (columns final_df)
     = Some (map (date_text strftime) (kept (Remove edited_df) date))) /\
  (forall k s,
     k <> "Date" ->
     lookup k (columns (frame edited_df)) = Some s ->
     lookup k (columns final_df) = Some (kept (Remove edited_df) s)).
Proof.
  intros Hwf Hlen Hexport.
  destruct (lookup "Date" (columns (frame edited_df))) as [date|] eqn:Hdate.
  2:{ unfold export, boolean_index, getitem in Hexport.
      rewrite take_rows_column, Hdate in Hexport. discriminate. }
  rewrite (export_outcome edited_df date Hwf Hlen Hdate) in Hexport.
  destruct (datetime64 (kept (Remove edited_df) date)); [|discriminate].
  injection Hexport as <- <-.
  unfold len. cbn [index_len columns].
  split; [reflexivity|]. split; [reflexivity|]. split.
  - exists date. split; [reflexivity | apply lookup_assign_same].
  - intros k s Hk Hs. rewrite lookup_assign_other by exact Hk.
    rewrite (lookup_map_snd
               (fun (_ : string) (c : Series) =>
                  map (fun i => nth i c NaN)
                      (nonzero (map (fun b => Bool.eqb b false)
                                    (Remove edited_df))))).
    rewrite Hs. cbn [option_map]. f_equal.
    apply kept_take. rewrite Hlen.
    exact (well_formed_column _ k s Hwf Hs).
Qed.

Lemma emap_blank_zero (qs : list Q) :
  emap blank_zero_lambda (map Num qs) = inr (map flow_text qs).
Proof.
  rewrite <- (map_map Num (fun c => match c with
                                    | Num q => flow_text q
                                    | _ => c
                                    end)).
  apply emap_pure. apply Forall_map. apply Forall_forall.
  intros q _. reflexivity.
Qed.

(** The table handed to the editor, for a dataset whose Inflow and Outflow
    are numbers. *)
Lemma editor_input_outcome (df : DataFrame) (ins outs : list Q) :
  well_formed df ->
  lookup "Inflow" (columns df) = Some (map Num ins) ->
  lookup "Outflow" (columns df) = Some (map Num outs) ->
  editor_input df
  = inr (mkEditable
           (mkDF (index_len df)
                 (assign "Outflow" (map flow_text outs)
                    (assign "Inflow" (map flow_text ins) (columns df))))
           (repeat false (index_len df))).
Proof.
  intros Hwf Hin Hof.
  pose proof (well_formed_column df "Inflow" _ Hwf Hin) as Hlin.
  pose proof (well_formed_column df "Outflow" _ Hwf Hof) as Hlof.
  rewrite length_map in Hlin, Hlof.
  unfold editor_input, getitem. rewrite Hin. cbn [ebind].
  unfold Series_apply. rewrite emap_blank_zero. cbn [ebind].
  rewrite setitem_series_same by (rewrite length_map; exact Hlin).
  cbn [columns]. rewrite lookup_assign_other by discriminate.
  rewrite Hof. cbn [ebind]. rewrite emap_blank_zero. cbn [ebind].
  rewrite setitem_series_same by (rewrite length_map; exact Hlof).
  reflexivity.
Qed.

(** X21: when the table comes back from the editor as it went in, no box
    ticked and no cell changed, every row of the dataset is exported, in
    the order of the dataset: the dates as text, Inflow and Outflow as text
    that is empty for 0, the other columns as they are; the file name
    carries the number of rows of the dataset. *)
Theorem unedited_export_keeps_all
  (df : DataFrame) (ins outs : list Q) (date : Series) :
  well_formed df ->
  lookup "Inflow" (columns df) = Some (map Num ins) ->
  lookup "Outflow" (columns df) = Some (map Num outs) ->
  lookup "Date" (columns df) = Some date ->
  Forall (fun c => is_datetime c = true) date ->
  exists edited_df final_df,
    editor_input df = inr edited_df /\
    export strftime now edited_df
    = inr (final_df, export_name now (len df)) /\
    len final_df = len df /\
    lookup "Date" (columns final_df) = Some (map (date_text strftime) date) /\
    lookup "Inflow" (columns final_df) = Some (map flow_text ins) /\
    lookup "Outflow" (columns final_df) = Some (map flow_text outs) /\
    (forall k, k <> "Date" -> k <> "Inflow" -> k <> "Outflow" ->
               lookup k (columns final_df) = lookup k (columns df)).
Proof.
  intros Hwf Hin Hof Hdate Hdt.
  pose proof (well_formed_column df "Inflow" _ Hwf Hin) as Hlin.
  pose proof (well_formed_column df "Outflow" _ Hwf Hof) as Hlof.
  pose proof (well_formed_column df "Date" _ Hwf Hdate) as Hld.
  rewrite length_map in Hlin, Hlof.
  set (n := index_len df) in *.
  remember (assign "Outflow" (map flow_text outs)
              (assign "Inflow" (map flow_text ins) (columns df)))
    as cols eqn:Hcols.
  assert (Hwf' : well_formed (mkDF n cols)).
  { unfold well_formed. cbn [columns index_len]. rewrite Hcols.
    apply Forall_assign; [intro; simpl; rewrite length_map; exact Hlof|].
    apply Forall_assign; [intro; simpl; rewrite length_map; exact Hlin|].
    exact Hwf. }
  assert (Hdate' : lookup "Date" cols = Some date).
  { rewrite Hcols. rewrite !lookup_assign_other by discriminate.
    exact Hdate. }
  assert (Hkept : forall s : Series,
            length s = n -> kept (repeat false n) s = s).
  { intros s Hs. rewrite <- Hs. apply kept_none_ticked. }
  pose proof (export_outcome (mkEditable (mkDF n cols) (repeat false n))
                date Hwf' (repeat_length false n) Hdate') as Hexport.
  cbn [Remove frame] in Hexport.
  rewrite (Hkept date Hld) in Hexport.
  destruct (datetime64_timestamps date Hdt) as (values & Hv & _).
  rewrite Hv in Hexport.
  rewrite filter_negb_repeat in Hexport.
  eexists. eexists.
  split.
  { rewrite (editor_input_outcome df ins outs Hwf Hin Hof).
    fold n. rewrite <- Hcols. reflexivity. }
  split; [exact Hexport|].
  unfold len. cbn [index_len].
  split; [reflexivity|].
  split; [apply lookup_assign_same|].
  assert (Htake : forall k,
            lookup k (columns
                        (take_rows
                           (nonzero (map (fun b => Bool.eqb b false)
                                         (repeat false n)))
                           (mkDF n cols)))
            = lookup k cols).
  { intro k. exact (take_rows_none_ticked (mkDF n cols) k Hwf'). }
  split; [|split].
  - change (lookup "Inflow"
              (assign "Date" (map (date_text strftime) date)
                 (columns
                    (take_rows
                       (nonzero (map (fun b => Bool.eqb b false)
                                     (repeat false n)))
                       (mkDF n cols))))
            = Some (map flow_text ins)).
    rewrite lookup_assign_other by discriminate. rewrite Htake, Hcols.
    rewrite lookup_assign_other by discriminate.
    apply lookup_assign_same.
  - change (lookup "Outflow"
              (assign "Date" (map (date_text strftime) date)
                 (columns
                    (take_rows
                       (nonzero (map (fun b => Bool.eqb b false)
                                     (repeat false n)))
                       (mkDF n cols))))
            = Some (map flow_text outs)).
    rewrite lookup_assign_other by discriminate. rewrite Htake, Hcols.
    apply lookup_assign_same.
  - intros k HD HI HO.
    change (lookup k
              (assign "Date" (map (date_text strftime) date)
                 (columns
                    (take_rows
                       (nonzero (map (fun b => Bool.eqb b false)
                                     (repeat false n)))
                       (mkDF n cols))))
            = lookup k (columns df)).
    rewrite lookup_assign_other by exact HD. rewrite Htake, Hcols.
    rewrite !lookup_assign_other by assumption. reflexivity.
Qed.

End ExportProperties.

Lemma export_unticked_rows_witness :
  len (mkDF 1 [ ("Date", [Str "2024-01-05"]);
                ("Payee", [Str "Shop1"]);
                ("Memo", [Str ""]);
                ("Inflow", [Str ""]);
                ("Outflow", [Str "10.00"]) ])
  = length (filter negb [true; false]) /\
  "ynab_import_1_20240101_120000.csv"
  = export_name "20240101_120000"
      (len (mkDF 1 [ ("Date", [Str "2024-01-05"]);
                     ("Payee", [Str "Shop1"]);
                     ("Memo", [Str ""]);
                     ("Inflow", [Str ""]);
                     ("Outflow", [Str "10.00"]) ])) /\
  (exists date,
     lookup "Date"
       (columns (mkDF 2 [ ("Date", [Time 20240103; Time 20240105]);
                          ("Payee", [Str "Shop2"; Str "Shop1"]);
                          ("Memo", [Str ""; Str ""]);
                          ("Inflow", [Str "50.00"; Str ""]);
                          ("Outflow", [Str ""; Str "10.00"]) ]))
     = Some date /\
     lookup "Date"
       (columns (mkDF 1 [ ("Date", [Str "2024-01-05"]);
                          ("Payee", [Str "Shop1"]);
                          ("Memo", [Str ""]);
                          ("Inflow", [Str ""]);
                          ("Outflow", [Str "10.00"]) ]))
     = Some (map (date_text example_strftime) (kept [true; false] date))) /\
  (forall k s,
     k <> "Date" ->
     lookup k
       (columns (mkDF 2 [ ("Date", [Time 20240103; Time 20240105]);
                          ("Payee", [Str "Shop2"; Str "Shop1"]);
                          ("Memo", [Str ""; Str ""]);
                          ("Inflow", [Str "50.00"; Str ""]);
                          ("Outflow", [Str ""; Str "10.00"]) ]))
     = Some s ->
     lookup k
       (columns (mkDF 1 [ ("Date", [Str "2024-01-05"]);
                          ("Payee", [Str "Shop1"]);
                          ("Memo", [Str ""]);
                          ("Inflow", [Str ""]);
                          ("Outflow", [Str "10.00"]) ]))
     = Some (kept [true; false] s)).
Proof.
  apply (export_unticked_rows example_strftime "20240101_120000"
           (mkEditable
              (mkDF 2 [ ("Date", [Time 20240103; Time 20240105]);
                        ("Payee", [Str "Shop2"; Str "Shop1"]);
                        ("Memo", [Str ""; Str ""]);
                        ("Inflow", [Str "50.00"; Str ""]);
                        ("Outflow", [Str ""; Str "10.00"]) ])
              [true; false])).
  - repeat constructor.
  - reflexivity.
  - reflexivity.
Defined.

Lemma unedited_export_keeps_all_witness :
  exists edited_df final_df,
    editor_input two_files_dataset = inr edited_df /\
    export example_strftime "20240101_120000" edited_df
    = inr (final_df,
           export_name "20240101_120000" (len two_files_dataset)) /\
    len final_df = len two_files_dataset /\
    lookup "Date" (columns final_df)
    = Some (map (date_text example_strftime)
                [Time 20240103; Time 20240105]) /\
    lookup "Inflow" (columns final_df)
    = Some (map flow_text [round2 50; 0]) /\
    lookup "Outflow" (columns final_df)
    = Some (map flow_text [0; round2 (- -10)]) /\
    (forall k, k <> "Date" -> k <> "Inflow" -> k <> "Outflow" ->
               lookup k (columns final_df)
               = lookup k (columns two_files_dataset)).
Proof.
  apply (unedited_export_keeps_all example_strftime "20240101_120000"
           two_files_dataset [round2 50; 0] [0; round2 (- -10)]
           [Time 20240103; Time 20240105]).
  - repeat constructor.
  - reflexivity.
  - reflexivity.
  - reflexivity.
  - repeat constructor.
Defined.

(* ================================================================== *)
(** * The text of an amount *)













(* ================================================================== *)
(** * A batch without a readable file *)

Section UnreadableBatch.

Variable read_csv : UploadedFile -> exn + DataFrame.
Variable read_excel : UploadedFile -> exn + DataFrame.
Variable to_datetime : Series -> list (option Z).
Variable argsort : list Q -> list nat.

Local Abbreviation parse := (parse_transaction_file read_csv read_excel).
Local Abbreviation loop := (batch_loop read_csv read_excel).
Local Abbreviation run := (process read_csv read_excel to_datetime argsort).

Lemma process_log files file_type :
  outcome (loop files file_type []) = inr [] ->
  log_of (run files file_type) = log_of (loop files file_type []).
Proof.
  intro H. unfold process. destruct files as [|file files]; [reflexivity|].
  rewrite log_bind, H. apply app_nil_r.
Qed.

(** X23: when nothing is uploaded or no uploaded file can be read, the
    script produces no dataset and raises nothing; every file is announced
    and its error is written, in the order of upload. *)
Theorem unreadable_batch_no_dataset
  (file_type : string) (read : UploadedFile -> exn + DataFrame)
  (files : list UploadedFile) (mappings : mapping) :
  reader_of read_csv read_excel file_type = Some read ->
  Forall (fun file => exists e, read file = inl e) files ->
  outcome (run files file_type) = inr None /\
  log_of (run files file_type) = batch_log read mappings files.
Proof.
  intros Hread Hall.
  assert (Hloop : outcome (loop files file_type []) = inr [] /\
                  log_of (loop files file_type [])
                  = batch_log read mappings files).
  { induction Hall as [|file files [e He] _ [IHo IHl]].
    - split; reflexivity.
    - rewrite batch_loop_step_outcome, batch_loop_step_log.
      rewrite parse_transaction_file_cases, Hread, He.
      cbn [outcome log_of fst snd app]. split; [exact IHo|].
      unfold batch_log. cbn [flat_map]. rewrite He.
      cbn [app]. do 2 f_equal. exact IHl. }
  destruct Hloop as [Ho Hl]. split.
  - rewrite process_outcome, Ho. reflexivity.
  - rewrite (process_log files file_type Ho). exact Hl.
Qed.

End UnreadableBatch.

Lemma unreadable_batch_no_dataset_witness :
  outcome (process example_read_csv example_read_excel example_to_datetime
             NumPy.argsort [file_broken; file_broken] "Swedbank (csv)")
  = inr None /\
  log_of (process example_read_csv example_read_excel example_to_datetime
            NumPy.argsort [file_broken; file_broken] "Swedbank (csv)")
  = batch_log example_read_csv swedbank [file_broken; file_broken].
Proof.
  apply (unreadable_batch_no_dataset example_read_csv example_read_excel
           example_to_datetime NumPy.argsort
           "Swedbank (csv)" example_read_csv
           [file_broken; file_broken] swedbank).
  - reflexivity.
  - repeat constructor; eexists; reflexivity.
Defined.

(* ================================================================== *)
(** * Integer totals, and tables without any mapped column *)

(** X24: the totals are sums in the dtype of the column, and an int64 sum
    wraps around: for an export of two transactions of 2^62 each, the total
    inflow is -2^63, which is not the sum of the amounts. *)
Theorem int64_total_wraps :
  exists normalized out,
    outcome (apply_mappings large_amounts swedbank) = inr normalized /\
    merge example_to_datetime NumPy.argsort [normalized] = inr out /\
    calculate_kpis out = inr (Num (inject_Z (- 2 ^ 63)), Num 0) /\
    Qsum (map round2 (all_amounts "Belopp" [large_amounts]))
    == inject_Z (2 ^ 63).
Proof.
  eexists. eexists.
  split; [reflexivity|]. split; [reflexivity|].
  split; [vm_compute; reflexivity|].
  vm_compute. reflexivity.
Qed.

Lemma copies_app (df : DataFrame) (l1 l2 : mapping) :
  copies df (l1 ++ l2) = copies df l1 || copies df l2.
Proof. unfold copies. apply existsb_app. Qed.

(** X25: a table that has none of the columns that the mapping names is
    normalized to a table without rows, whatever number of rows it has:
    every key is filled in on a frame that never gets an index. *)
Theorem apply_mappings_no_column_no_rows
  (df : DataFrame) (mappings : mapping) :
  well_formed df ->
  NoDup (map fst mappings) ->
  In "Amount" (map fst mappings) ->
  copies df mappings = false ->
  exists out,
    outcome (apply_mappings df mappings) = inr out /\ len out = 0%nat.
Proof.
  intros Hwf Hnd Hin Hnone.
  apply in_map_iff in Hin. destruct Hin as ([k sc] & Hk & Hin).
  simpl in Hk. subst k.
  apply in_split in Hin. destruct Hin as (pre & post & ->).
  rewrite copies_app, copies_cons in Hnone.
  apply orb_false_iff in Hnone. destruct Hnone as [Hpre Hrest].
  apply orb_false_iff in Hrest. destruct Hrest as [Hsc Hpost].
  destruct (map_columns_column df Hwf pre post "Amount" sc Hnd)
    as (f & Hf & Hamount).
  destruct (map_columns_started df Hwf (pre ++ ("Amount", sc) :: post)
              empty_frame) as (f' & Hf' & Hstate).
  { split; [constructor | reflexivity]. }
  rewrite Hf in Hf'. inversion Hf'; subst f'. clear Hf'.
  rewrite copies_app, copies_cons, Hpre, Hpost in Hstate.
  destruct (source_column df sc); [discriminate|].
  rewrite Hpre, Hpost in Hamount. simpl in Hstate.
  destruct Hstate as [_ H0].
  unfold apply_mappings. rewrite outcome_bind, Hf.
  rewrite outcome_bind, outcome_lift.
  unfold getitem at 1. rewrite Hamount.
  rewrite outcome_bind, outcome_lift. cbn [Series_apply emap].
  rewrite (setitem_series_same f "Inflow" []) by (symmetry; exact H0).
  rewrite outcome_bind, outcome_lift.
  unfold getitem. cbn [columns].
  rewrite lookup_assign_other by discriminate. rewrite Hamount.
  rewrite outcome_bind, outcome_lift. cbn [Series_apply emap].
  rewrite setitem_series_same by (symmetry; exact H0).
  rewrite outcome_lift. unfold drop_column, has_column. cbn [columns index_len].
  rewrite lookup_assign_other by discriminate.
  rewrite lookup_assign_other by discriminate. rewrite Hamount.
  eexists. split; [reflexivity|]. exact H0.
Qed.

Lemma apply_mappings_no_column_no_rows_witness :
  exists out,
    outcome (apply_mappings table_other_columns swedbank) = inr out /\
    len out = 0%nat.
Proof.
  apply (apply_mappings_no_column_no_rows table_other_columns swedbank).
  - repeat constructor.
  - exact swedbank_dict.
  - simpl. tauto.
  - reflexivity.
Defined.
